(** * Rock-paper-scissors particle simulation: a shallow embedding

    The development follows [rock_paper_scissors_sim.py].  Python floats are
    IEEE binary64 numbers and are modelled by Rocq's primitive floats, so every
    definition below evaluates and the statements are about the rounded
    arithmetic the program performs.  Units are Python objects that are
    mutated in place and compared by identity; they are modelled by their
    index in the list [units] that [main] owns, and a mutation is an update
    of the list at that index.

    Library behaviour the program relies on is modelled in [Py]:
    - [random.random] and [random.randint] read an oracle tape, one entry per
      call, so a statement for every tape covers every outcome of the draws,
      and the cursor of the tape counts the draws;
    - [np.random.uniform] reads a generator of its own, one sample per row;
    - [x ** 2] is [x * x] and [math.hypot dx dy] is [sqrt (dx*dx + dy*dy)],
      each operation rounded to nearest; distances enter the statements
      through order tests and through bounds by powers of two only;
    - [cKDTree.query_ball_point] returns the points at distance at most [r]
      (the bound is inclusive), here in increasing index order;
    - [cKDTree.query] returns the [k] nearest points in increasing distance,
      ties in index order;
    - [cKDTree] refuses an array that is not two-dimensional, which is what
      [np.array] makes of an empty list of rows.  The index is modelled for
      finite coordinates, which are the only ones a run meets (last
      section).

    [pygame.event.get] reads an oracle too: the events the queue holds at the
    start of each frame.  Drawing and the clock of pygame are left out: they
    read the units and never write them. *)

From Stdlib Require Import ZArith List Bool Lia Reals Lra Psatz Floats.
From Stdlib Require Import Permutation Sorted.
From Stdlib Require Uint63.
Import ListNotations.

Set Warnings "-inexact-float".

Open Scope float_scope.

(** ** Python, numpy and scipy notions *)

Module Py.

Inductive exn : Type :=
| ValueError
| IndexError.

(** A computation that can raise. *)
Definition result (A : Type) : Type := (exn + A)%type.

Definition ret {A} (a : A) : result A := inr a.

Definition bind {A B} (m : result A) (k : A -> result B) : result B :=
  match m with
  | inl e => inl e
  | inr a => k a
  end.

(** [range(a, b)] *)
Definition range (a b : Z) : list Z :=
  map (fun k => (a + Z.of_nat k)%Z) (seq 0 (Z.to_nat (b - a))).

(** [for i in l: acc = body(i, acc)], stopping at the first exception. *)
Fixpoint for_each {A S} (l : list A) (body : A -> S -> result S) (s : S)
  : result S :=
  match l with
  | [] => ret s
  | a :: l' => bind (body a s) (for_each l' body)
  end.

(** [max(a, b)]: the first argument unless the second is larger. *)
Definition max (a b : float) : float := if a <? b then b else a.

(** [sum(...)] over floats: left to right from the integer 0. *)
Definition sum (l : list float) : float := fold_left PrimFloat.add l 0.

(** An integer used as a float, as in [total / len(neighbors)]. *)
Definition float_of_nat (n : nat) : float :=
  of_uint63 (Uint63.of_Z (Z.of_nat n)).

(** [sqrt(dx ** 2 + dy ** 2)] *)
Definition norm (dx dy : float) : float := sqrt (dx * dx + dy * dy).

(** The state of the [random] module: the tape of floats that
    [random.random] will return, the tape of integers that
    [random.randint] reduces into its range, and the number of calls made
    so far. *)
Record Rng : Type := mkRng {
  floats : nat -> float;
  ints : nat -> Z;
  cursor : nat
}.

Definition advance (g : Rng) : Rng :=
  mkRng (floats g) (ints g) (S (cursor g)).

(** [random.random()] *)
Definition random (g : Rng) : float * Rng :=
  (floats g (cursor g), advance g).

(** [random.randint(a, b)], both ends included. *)
Definition randint (a b : Z) (g : Rng) : Z * Rng :=
  ((a + ints g (cursor g) mod (b - a + 1))%Z, advance g).

(** An event of pygame, by its type: [pygame.QUIT] or any other. *)
Inductive Event : Type :=
| QUIT
| OtherEvent.

(** [np.random.uniform(low, high, size=(n, 2))]: row [i] of the array is
    the [i]-th sample of the generator; a negative dimension raises. *)
Definition np_random_uniform (samples : nat -> float * float) (n : Z)
  : result (list (float * float)) :=
  if (n <? 0)%Z then inl ValueError
  else ret (map samples (seq 0 (Z.to_nat n))).

(** [arr[i]] on an array: a negative index counts from the end. *)
Definition np_index {A} (arr : list A) (i : Z) : result A :=
  let n := Z.of_nat (length arr) in
  let j := if (i <? 0)%Z then (i + n)%Z else i in
  if ((0 <=? j) && (j <? n))%Z then
    match nth_error arr (Z.to_nat j) with
    | Some a => ret a
    | None => inl IndexError
    end
  else inl IndexError.

(** Euclidean distance between two points. *)
Definition dist (p q : float * float) : float :=
  norm (fst p - fst q) (snd p - snd q).

(** [cKDTree(data).query_ball_point(q, r)]: indices of the points at
    distance at most [r] from [q]. *)
Definition query_ball_point (data : list (float * float)) (q : float * float)
  (r : float) : list nat :=
  filter (fun i => dist (nth i data (0, 0)) q <=? r) (seq 0 (length data)).

(** Insertion of an (index, distance) pair before the first strictly farther
    one. *)
Fixpoint insert_by_dist (e : nat * float) (l : list (nat * float))
  : list (nat * float) :=
  match l with
  | [] => [e]
  | e' :: l' =>
      if snd e <? snd e' then e :: l else e' :: insert_by_dist e l'
  end.

Definition sort_by_dist (l : list (nat * float)) : list (nat * float) :=
  fold_left (fun acc e => insert_by_dist e acc) l [].

(** No entry of the list is strictly nearer than its first entry. *)
Definition head_minimal (l : list (nat * float)) : Prop :=
  forall e, In e l -> (snd e <? snd (hd (0%nat, 0) l)) = false.

(** The second entry is not strictly nearer than the first. *)
Definition not_nearer (a b : nat * float) : Prop := (snd b <? snd a) = false.

(** [cKDTree(data).query(q, k=k)] as the list of (index, distance) pairs the
    program zips together: the [k] nearest, nearest first. *)
Definition query (data : list (float * float)) (q : float * float) (k : nat)
  : list (nat * float) :=
  firstn k
    (sort_by_dist
       (map (fun i => (i, dist (nth i data (0, 0)) q)) (seq 0 (length data)))).

End Py.

Notation "x <- m ;; k" := (Py.bind m (fun x => k))
  (at level 61, m at next level, right associativity).

(** ** Binary64 numbers as real numbers

    The value of a float, for the statements that need magnitudes: a float
    that is a number has the value [m * 2^e] its specification gives, and
    the results of the operations are compared with bounds of the form
    [m * 2^e] too. *)

Module Binary64.

Local Open Scope R_scope.

(** Powers of two. *)
Definition bpow (e : Z) : R := powerRZ 2 e.

Definition SF2R (x : spec_float) : R :=
  match x with
  | S754_finite s m e => (if s then -1 else 1) * (IZR (Z.pos m) * bpow e)
  | _ => 0
  end.

Definition is_finite_SF (x : spec_float) : bool :=
  match x with
  | S754_zero _ | S754_finite _ _ _ => true
  | _ => false
  end.

Abbreviation fexp := (SpecFloat.fexp prec emax).

(** What the rounding of the specification is given: a mantissa, an
    exponent, and whether the value is that number exactly. *)
Definition exact_loc (l : location) : bool :=
  match l with loc_Exact => true | _ => false end.

Definition exact_rec (mrs : shr_record) : bool :=
  negb (shr_r mrs || shr_s mrs).

(** [v] is [m * 2^e] when [ex], and strictly between [m * 2^e] and
    [(m + 1) * 2^e] otherwise. *)
Definition located (m e : Z) (ex : bool) (v : R) : Prop :=
  if ex then v = IZR m * bpow e
  else IZR m * bpow e < v < IZR (m + 1) * bpow e.

(** The bounds a result is compared with: an integer of at most 53 bits
    times a power of two that is not below the least exponent. *)
Definition format (b : R) : Prop :=
  exists m e, b = IZR m * bpow e /\ (0 <= m <= 2 ^ 53)%Z /\ (-1074 <= e)%Z.

(** What rounding [v], with sign [s], to [r] comes with: [r] is a zero, an
    infinity or a number of that sign, and a number between any two bounds
    of the format that enclose [v]. *)
Definition rounds (s : bool) (v : R) (r : spec_float) : Prop :=
  (r = S754_zero s \/ r = S754_infinity s \/
   exists m e, r = S754_finite s m e) /\
  (forall A B, format A -> format B -> A <= v <= B -> B < bpow 1024 ->
     is_finite_SF r = true /\ A <= Rabs (SF2R r) <= B).

(** The same for a signed value: a sum, a difference, a product or a
    quotient. *)
Definition enclosed (v : R) (r : spec_float) : Prop :=
  r <> S754_nan /\
  forall A B, format A -> format B -> A <= Rabs v <= B -> B < bpow 1024 ->
    is_finite_SF r = true /\ A <= Rabs (SF2R r) <= B /\
    (0 <= v -> 0 <= SF2R r) /\ (v <= 0 -> SF2R r <= 0).

(** The value of a float, and floats that are numbers. *)
Definition FR (x : float) : R := SF2R (Prim2SF x).

Definition finite (x : float) : Prop := is_finite_SF (Prim2SF x) = true.

(** A number of magnitude at most [B]. *)
Definition bounded (B : R) (x : float) : Prop :=
  finite x /\ Rabs (FR x) <= B.

(** Checks that evaluate on a given float: a number of magnitude at most
    [2^k]; a positive number that is at least [2^k]. *)
Definition below (k : Z) (x : float) : bool :=
  match Prim2SF x with
  | S754_zero _ => true
  | S754_finite _ m e => (Z.pos m <=? 2 ^ (k - e))%Z
  | _ => false
  end.

Definition above (k : Z) (x : float) : bool :=
  match Prim2SF x with
  | S754_finite false m e => (k <=? e)%Z || (2 ^ (k - e) <=? Z.pos m)%Z
  | _ => false
  end.

(** Pairs of numbers of magnitude at most [2^k], and at most [c * 2^t]. *)
Definition pairb (k : Z) (v : float * float) : Prop :=
  bounded (bpow k) (fst v) /\ bounded (bpow k) (snd v).

Definition pairc (c t : Z) (v : float * float) : Prop :=
  bounded (IZR c * bpow t) (fst v) /\ bounded (IZR c * bpow t) (snd v).

End Binary64.

(** ** The simulation *)

Module Sim.

(** *** Constants *)

Definition WIDTH : float := 960.
Definition HEIGHT : float := 960.
Definition MAX_TIME : nat := 3000.

Definition CENTER_FORCE : float := 0.9.
Definition CENTER_X : float := WIDTH / 2.
Definition CENTER_Y : float := HEIGHT / 2.

Definition GROUP_COHESION : float := 0.1.
Definition GROUP_ALIGNMENT : float := 0.1.
Definition GROUP_RADIUS : float := 100.
Definition GROUP_SEPARATION : float := 0.82.
Definition GROUP_MIN_DISTANCE : float := 30.

Definition UNIT_RADIUS : float := 5.
Definition UNIT_SPEED : float := 2.
Definition MIN_DISTANCE : float := UNIT_RADIUS * 2.
Definition REPULSION_FACTOR : float := 4.0.
Definition REPULSION_RADIUS : float := 150.
Definition RANDOM_MOVEMENT : float := 0.5.
Definition COLLISION_CHANCE : float := 0.3.

(** *** Units *)

(** [unit_type] is 0 for scissors, 1 for rock, 2 for paper.  [target] is a
    reference to another unit, hence an index. *)
Record Unit : Type := mkUnit {
  unit_type : Z;
  x : float;
  y : float;
  target : option nat;
  vx : float;
  vy : float
}.

(** [Unit(unit_type, x, y)] *)
Definition Unit_init (t : Z) (px py : float) : Unit :=
  mkUnit t px py None 0 0.

Definition pos (u : Unit) : float * float := (x u, y u).

Definition set_target (tg : option nat) (u : Unit) : Unit :=
  mkUnit (unit_type u) (x u) (y u) tg (vx u) (vy u).

Definition set_unit_type (t : Z) (u : Unit) : Unit :=
  mkUnit t (x u) (y u) (target u) (vx u) (vy u).

Definition set_motion (px py wx wy : float) (u : Unit) : Unit :=
  mkUnit (unit_type u) px py (target u) wx wy.

(** [units[i]], for an index the program knows to be valid. *)
Definition get (units : list Unit) (i : nat) : Unit :=
  nth i units (Unit_init 0 0 0).

(** In-place mutation of the object [units[i]]. *)
Fixpoint upd (i : nat) (f : Unit -> Unit) (units : list Unit) : list Unit :=
  match units, i with
  | [], _ => []
  | u :: us, O => f u :: us
  | u :: us, S i' => u :: upd i' f us
  end.

(** *** SpatialTree *)

(** The tree keeps the positions the units had when it was built.  Its
    [units] attribute is the very list [main] owns, so [self.units[i]] is
    the live unit [i]: the queries below take that list as an argument. *)
Record SpatialTree : Type := mkTree {
  tree : list (float * float)
}.

(** [SpatialTree(units)] *)
Definition SpatialTree_init (units : list Unit) : Py.result SpatialTree :=
  match units with
  | [] => inl Py.ValueError
  | _ => Py.ret (mkTree (map pos units))
  end.

(** [query_radius]: indices of the units it returns. *)
Definition query_radius (units : list Unit) (st : SpatialTree) (self : nat)
  (radius : float) : list nat :=
  let query_point := pos (get units self) in
  let indices := Py.query_ball_point (tree st) query_point radius in
  filter (fun i => negb (Nat.eqb i self)) indices.

Definition query_by_type (units : list Unit) (st : SpatialTree) (self : nat)
  (radius : float) (t : Z) : list nat :=
  let nearby := query_radius units st self radius in
  filter (fun u => (unit_type (get units u) =? t)%Z) nearby.

(** [find_nearest_of_type]: (unit, distance) pairs, nearest first. *)
Definition find_nearest_of_type (units : list Unit) (self : nat) (t : Z)
  (k : nat) : list (nat * float) :=
  let type_units :=
    filter (fun u => (unit_type (get units u) =? t)%Z && negb (Nat.eqb u self))
           (seq 0 (length units)) in
  match type_units with
  | [] => []
  | _ =>
      let positions := map (fun u => pos (get units u)) type_units in
      let query_point := pos (get units self) in
      let k := if (length positions <? k)%nat then length positions else k in
      if (0 <? length positions)%nat then
        map (fun r => (nth (fst r) type_units O, snd r))
            (Py.query positions query_point k)
      else []
  end.

(** *** Unit: targets and threats *)

Definition find_target (units : list Unit) (self : nat) (g : Py.Rng)
  : option nat * Py.Rng :=
  let target_type := ((unit_type (get units self) + 2) mod 3)%Z in
  let potential_targets := find_nearest_of_type units self target_type 3 in
  match potential_targets with
  | [] => (None, g)
  | _ =>
      let num_choices := length potential_targets in
      if (0 <? num_choices)%nat then
        let (r, g1) := Py.random g in
        if (r <? 0.95) || (num_choices =? 1)%nat then
          (Some (fst (nth 0 potential_targets (O, 0))), g1)
        else
          let (k, g2) := Py.randint 1 (Z.of_nat num_choices - 1) g1 in
          (Some (fst (nth (Z.to_nat k) potential_targets (O, 0))), g2)
      else (None, g)
  end.

Definition find_threats (units : list Unit) (st : SpatialTree) (self : nat)
  : list (nat * float) :=
  let me := get units self in
  let predator_type := ((unit_type me + 1) mod 3)%Z in
  let nearby := query_by_type units st self REPULSION_RADIUS predator_type in
  map (fun u =>
         (u, Py.norm (x me - x (get units u)) (y me - y (get units u))))
      nearby.

Definition find_same_type_neighbors (units : list Unit) (st : SpatialTree)
  (self : nat) (radius : float) : list nat :=
  query_by_type units st self radius (unit_type (get units self)).

(** *** Unit.move_towards_target, one block of the method at a time.
    The velocity under construction is the pair [(self.vx, self.vy)]; no
    other unit is read through [self] while the method runs, so it is
    written back to the unit once, together with the new position. *)

Definition vadd (v : float * float) (ax ay : float) : float * float :=
  (fst v + ax, snd v + ay).

(** Attraction to target: assigns the velocity, which starts at zero. *)
Definition attraction (units : list Unit) (self : nat) : float * float :=
  let me := get units self in
  match target me with
  | Some tg =>
      let dx := x (get units tg) - x me in
      let dy := y (get units tg) - y me in
      let distance := Py.norm dx dy in
      if 0 <? distance then
        let attraction_strength := Py.max 0.7 (1 - REPULSION_FACTOR / 2) in
        ((dx / distance) * UNIT_SPEED * attraction_strength,
         (dy / distance) * UNIT_SPEED * attraction_strength)
      else (0, 0)
  | None => (0, 0)
  end.

(** Repulsion from threats. *)
Definition repulsion (units : list Unit) (self : nat)
  (threats : list (nat * float)) (v : float * float) : float * float :=
  let me := get units self in
  fold_left
    (fun v td =>
       let threat := fst td in
       let distance := snd td in
       if 0 <? distance then
         let dx := x me - x (get units threat) in
         let dy := y me - y (get units threat) in
         let repulsion_strength :=
           REPULSION_FACTOR * (1 - distance / REPULSION_RADIUS) in
         vadd v ((dx / distance) * repulsion_strength)
                ((dy / distance) * repulsion_strength)
       else v)
    threats v.

(** Separation: [(sep_x, sep_y, sep_count)] over the neighbours. *)
Definition separation (units : list Unit) (self : nat) (neighbors : list nat)
  : float * float * nat :=
  let me := get units self in
  fold_left
    (fun acc neighbor =>
       let '(sep_x, sep_y, sep_count) := acc in
       let dx := x me - x (get units neighbor) in
       let dy := y me - y (get units neighbor) in
       let distance := Py.norm dx dy in
       if (distance <? GROUP_MIN_DISTANCE) && (0 <? distance) then
         let separation_factor := 1.0 - (distance / GROUP_MIN_DISTANCE) in
         (sep_x + (dx / distance) * separation_factor,
          sep_y + (dy / distance) * separation_factor,
          S sep_count)
       else acc)
    neighbors (0, 0, O).

(** Cohesion toward the centre of mass of the neighbours. *)
Definition cohesion (units : list Unit) (self : nat) (neighbors : list nat)
  (v : float * float) : float * float :=
  let me := get units self in
  let n := Py.float_of_nat (length neighbors) in
  let center_x := Py.sum (map (fun u => x (get units u)) neighbors) / n in
  let center_y := Py.sum (map (fun u => y (get units u)) neighbors) / n in
  if negb (center_x =? x me) || negb (center_y =? y me) then
    let dx := center_x - x me in
    let dy := center_y - y me in
    let distance := Py.norm dx dy in
    if GROUP_MIN_DISTANCE <? distance then
      vadd v ((dx / distance) * GROUP_COHESION)
             ((dy / distance) * GROUP_COHESION)
    else v
  else v.

(** Alignment: the mean of the velocities the neighbours carry now. *)
Definition alignment (units : list Unit) (neighbors : list nat)
  : float * float :=
  let n := Py.float_of_nat (length neighbors) in
  let avg_vx := Py.sum (map (fun u => vx (get units u)) neighbors) / n in
  let avg_vy := Py.sum (map (fun u => vy (get units u)) neighbors) / n in
  (avg_vx * GROUP_ALIGNMENT, avg_vy * GROUP_ALIGNMENT).

(** Group behavior with the same type. *)
Definition flocking (units : list Unit) (st : SpatialTree) (self : nat)
  (v : float * float) : float * float :=
  let neighbors := find_same_type_neighbors units st self GROUP_RADIUS in
  match neighbors with
  | [] => v
  | _ =>
      let '(sep_x, sep_y, sep_count) := separation units self neighbors in
      let v :=
        if (0 <? sep_count)%nat then
          vadd v (sep_x * GROUP_SEPARATION) (sep_y * GROUP_SEPARATION)
        else v in
      let v := cohesion units self neighbors v in
      let a := alignment units neighbors in
      vadd v (fst a) (snd a)
  end.

(** Center attraction. *)
Definition center_attraction (units : list Unit) (self : nat)
  (v : float * float) : float * float :=
  let me := get units self in
  let dx := CENTER_X - x me in
  let dy := CENTER_Y - y me in
  let distance := Py.norm dx dy in
  if WIDTH / 4 <? distance then
    let center_strength := CENTER_FORCE * (distance / (WIDTH / 2)) in
    if 0 <? distance then
      vadd v ((dx / distance) * center_strength)
             ((dy / distance) * center_strength)
    else v
  else v.

(** Global separation over [all_units], which is the list [units]. *)
Definition global_separation (units : list Unit) (self : nat)
  (v : float * float) : float * float :=
  let me := get units self in
  let sep :=
    fold_left
      (fun sep other =>
         if Nat.eqb other self then sep
         else
           let dx := x me - x (get units other) in
           let dy := y me - y (get units other) in
           let dist := Py.norm dx dy in
           if (dist <? MIN_DISTANCE / 1.05) && (0 <? dist) then
             let force := 20.0 * (MIN_DISTANCE - dist) / MIN_DISTANCE in
             vadd sep ((dx / dist) * force) ((dy / dist) * force)
           else sep)
      (seq 0 (length units)) (0, 0) in
  vadd v (fst sep) (snd sep).

(** Normalize velocity if it is too high. *)
Definition normalize (v : float * float) : float * float :=
  let speed := Py.norm (fst v) (snd v) in
  if UNIT_SPEED <? speed then
    ((fst v / speed) * UNIT_SPEED, (snd v / speed) * UNIT_SPEED)
  else v.

(** Keep one coordinate within bounds: the clamped coordinate and the
    velocity component, reversed and halved when the edge was hit. *)
Definition bounce (p w lo hi : float) : float * float :=
  if p <? lo then (lo, w * (-0.5))
  else if hi <? p then (hi, w * (-0.5))
  else (p, w).

Definition move_towards_target (units : list Unit) (st : SpatialTree)
  (self : nat) (g : Py.Rng) : list Unit * Py.Rng :=
  let me := get units self in
  let v := attraction units self in
  let threats := find_threats units st self in
  let v := repulsion units self threats v in
  let v := flocking units st self v in
  let v := center_attraction units self v in
  let (r1, g1) := Py.random g in
  let v := (fst v + (r1 - 0.5) * RANDOM_MOVEMENT, snd v) in
  let (r2, g2) := Py.random g1 in
  let v := (fst v, snd v + (r2 - 0.5) * RANDOM_MOVEMENT) in
  let v := global_separation units self v in
  let v := normalize v in
  let px := x me + fst v in
  let py := y me + snd v in
  let bx := bounce px (fst v) UNIT_RADIUS (WIDTH - UNIT_RADIUS) in
  let by_ := bounce py (snd v) UNIT_RADIUS (HEIGHT - UNIT_RADIUS) in
  (upd self (set_motion (fst bx) (fst by_) (snd bx) (snd by_)) units, g2).

(** *** Unit.check_collision *)

(** The loop over [nearby_predators]: a draw for each predator closer than
    [MIN_DISTANCE], until one draw succeeds. *)
Fixpoint collide (units : list Unit) (self : nat) (predator_type : Z)
  (nearby_predators : list nat) (g : Py.Rng) : option Z * Py.Rng :=
  match nearby_predators with
  | [] => (None, g)
  | u :: rest =>
      let me := get units self in
      let distance :=
        Py.norm (x me - x (get units u)) (y me - y (get units u)) in
      if distance <? MIN_DISTANCE then
        let (r, g') := Py.random g in
        if r <? COLLISION_CHANCE then (Some predator_type, g')
        else collide units self predator_type rest g'
      else collide units self predator_type rest g
  end.

Definition check_collision (units : list Unit) (st : SpatialTree)
  (self : nat) (g : Py.Rng) : option Z * Py.Rng :=
  let predator_type := ((unit_type (get units self) + 1) mod 3)%Z in
  let nearby_predators :=
    query_by_type units st self (MIN_DISTANCE * 2) predator_type in
  collide units self predator_type nearby_predators g.

(** *** Module-level functions *)

(** The three [for i in range(a, b): units.append(Unit(t, ...))] loops. *)
Definition add_units (t : Z) (positions : list (float * float)) (a b : Z)
  (units : list Unit) : Py.result (list Unit) :=
  Py.for_each (Py.range a b)
    (fun i units =>
       p <- Py.np_index positions i ;;
       Py.ret (units ++ [Unit_init t (fst p) (snd p)]))
    units.

Definition initialize_units (samples : nat -> float * float)
  (scissors_count rock_count paper_count : Z) : Py.result (list Unit) :=
  let total_count := (scissors_count + rock_count + paper_count)%Z in
  positions <- Py.np_random_uniform samples total_count ;;
  units <- add_units 0 positions 0 scissors_count [] ;;
  units <- add_units 1 positions scissors_count
             (scissors_count + rock_count) units ;;
  add_units 2 positions (scissors_count + rock_count) total_count units.

Definition check_end_condition (units : list Unit) : bool :=
  match units with
  | [] => true
  | u0 :: _ => forallb (fun u => (unit_type u =? unit_type u0)%Z) units
  end.

(** *** One frame of the loop of [main] *)

(** [for unit in units: unit.target = unit.find_target(spatial_tree)] *)
Definition update_targets (units : list Unit) (g : Py.Rng)
  : list Unit * Py.Rng :=
  fold_left
    (fun s i =>
       let (tg, g') := find_target (fst s) i (snd s) in
       (upd i (set_target tg) (fst s), g'))
    (seq 0 (length units)) (units, g).

(** [for unit in units: unit.move_towards_target(spatial_tree)] *)
Definition update_positions (units : list Unit) (st : SpatialTree)
  (g : Py.Rng) : list Unit * Py.Rng :=
  fold_left
    (fun s i => move_towards_target (fst s) st i (snd s))
    (seq 0 (length units)) (units, g).

(** The first collision loop: it fills the dictionary [new_types], kept
    here in insertion order, and leaves the units as they are. *)
Definition collect_new_types (units : list Unit) (st : SpatialTree)
  (g : Py.Rng) : list (nat * Z) * Py.Rng :=
  fold_left
    (fun s i =>
       let (new_type, g') := check_collision units st i (snd s) in
       match new_type with
       | Some t => (fst s ++ [(i, t)], g')
       | None => (fst s, g')
       end)
    (seq 0 (length units)) ([], g).

(** The second collision loop: [units[i].unit_type = new_type]. *)
Definition apply_new_types (new_types : list (nat * Z)) (units : list Unit)
  : list Unit :=
  fold_left (fun us it => upd (fst it) (set_unit_type (snd it)) us)
            new_types units.

Definition count_type (t : Z) (units : list Unit) : nat :=
  length (filter (fun u => (unit_type u =? t)%Z) units).

(** [counts.index(max(counts))] for the three counts. *)
Definition winner_index (c0 c1 c2 : nat) : nat :=
  let m := Nat.max c0 (Nat.max c1 c2) in
  if Nat.eqb c0 m then 0%nat else if Nat.eqb c1 m then 1%nat else 2%nat.

(** What [status_message] says. *)
Inductive Status : Type :=
| Running
| TimeLimit (winner : nat) (count : nat)
| GameOverWins (winner_type : Z)
| GameOverNoUnits.

Record State : Type := mkState {
  units : list Unit;
  time_steps : nat;
  running : bool;
  status_message : Status;
  rng : Py.Rng
}.

(** The body of [while running] after the event handling, without the
    drawing; [running s] is what the event handling left. *)
Definition frame (s : State) : Py.result State :=
  spatial_tree <- SpatialTree_init (units s) ;;
  let (us1, g1) := update_targets (units s) (rng s) in
  let (us2, g2) := update_positions us1 spatial_tree g1 in
  let (new_types, g3) := collect_new_types us2 spatial_tree g2 in
  let us3 := apply_new_types new_types us2 in
  let time_steps := S (time_steps s) in
  let (running1, status1) :=
    if (MAX_TIME <=? time_steps)%nat then
      let c0 := count_type 0 us3 in
      let c1 := count_type 1 us3 in
      let c2 := count_type 2 us3 in
      let w := winner_index c0 c1 c2 in
      (false, TimeLimit w (nth w [c0; c1; c2] O))
    else (running s, status_message s) in
  let (running2, status2) :=
    if check_end_condition us3 then
      match us3 with
      | u0 :: _ => (false, GameOverWins (unit_type u0))
      | [] => (false, GameOverNoUnits)
      end
    else (running1, status1) in
  Py.ret (mkState us3 time_steps running2 status2 g3).

(** [for event in pygame.event.get(): if event.type == pygame.QUIT:
    running = False] *)
Definition process_events (events : list Py.Event) (running : bool) : bool :=
  fold_left
    (fun running event =>
       match event with
       | Py.QUIT => false
       | Py.OtherEvent => running
       end)
    events running.

Definition set_running (r : bool) (s : State) : State :=
  mkState (units s) (time_steps s) r (status_message s) (rng s).

(** [while running: ...], for at most [fuel] frames.  [events n] is what
    [pygame.event.get()] returns at the top of the frame that starts after
    [n] completed frames.  A frame that finds [QUIT] there still runs to its
    end, and is the last. *)
Fixpoint loop (fuel : nat) (events : nat -> list Py.Event) (s : State)
  : Py.result State :=
  match fuel with
  | O => Py.ret s
  | S fuel' =>
      if running s then
        let running0 := process_events (events (time_steps s)) (running s) in
        s' <- frame (set_running running0 s) ;; loop fuel' events s'
      else Py.ret s
  end.

(** [main], given the three counts of the command line.  The loop stops
    within [MAX_TIME] frames. *)
Definition main (samples : nat -> float * float)
  (events : nat -> list Py.Event) (g : Py.Rng)
  (scissors_count rock_count paper_count : Z) : Py.result State :=
  us <- initialize_units samples scissors_count rock_count paper_count ;;
  loop MAX_TIME events (mkState us 0 true Running g).

(** *** Notions used in the statements *)

(** The cyclic relation: the type a unit of type [t] hunts, and the type
    that hunts it. *)
Definition prey_type (t : Z) : Z := ((t + 2) mod 3)%Z.
Definition predator_type (t : Z) : Z := ((t + 1) mod 3)%Z.

(** The exact distance test of [check_collision]. *)
Definition in_contact (units : list Unit) (self u : nat) : bool :=
  Py.norm (x (get units self) - x (get units u))
          (y (get units self) - y (get units u)) <? MIN_DISTANCE.

(** The predators of [self] that pass both tests of [check_collision], in
    query order. *)
Definition qualifying (units : list Unit) (st : SpatialTree) (self : nat)
  : list nat :=
  filter (in_contact units self)
    (query_by_type units st self (MIN_DISTANCE * 2)
       (predator_type (unit_type (get units self)))).

(** Up to [n] draws against [COLLISION_CHANCE], stopping at the first
    success. *)
Fixpoint draws_until_success (t : Z) (n : nat) (g : Py.Rng)
  : option Z * Py.Rng :=
  match n with
  | O => (None, g)
  | S n' =>
      let (r, g') := Py.random g in
      if r <? COLLISION_CHANCE then (Some t, g')
      else draws_until_success t n' g'
  end.

(** The [k]-th draw from [g] on is below [COLLISION_CHANCE]. *)
Definition hit (g : Py.Rng) (k : nat) : bool :=
  Py.floats g (Py.cursor g + k) <? COLLISION_CHANCE.

(** The loops of a frame after their first [n] iterations. *)
Definition update_positions_upto (n : nat) (units : list Unit)
  (st : SpatialTree) (g : Py.Rng) : list Unit * Py.Rng :=
  fold_left
    (fun s i => move_towards_target (fst s) st i (snd s))
    (seq 0 n) (units, g).

Definition collect_upto (n : nat) (units : list Unit) (st : SpatialTree)
  (g : Py.Rng) : list (nat * Z) * Py.Rng :=
  fold_left
    (fun s i =>
       let (new_type, g') := check_collision units st i (snd s) in
       match new_type with
       | Some t => (fst s ++ [(i, t)], g')
       | None => (fst s, g')
       end)
    (seq 0 n) ([], g).

Definition update_targets_upto (n : nat) (units : list Unit) (g : Py.Rng)
  : list Unit * Py.Rng :=
  fold_left
    (fun s i =>
       let (tg, g') := find_target (fst s) i (snd s) in
       (upd i (set_target tg) (fst s), g'))
    (seq 0 n) (units, g).

(** The group block of [move_towards_target] up to its alignment step:
    separation, then cohesion. *)
Definition before_alignment (units : list Unit) (self : nat)
  (neighbors : list nat) (v : float * float) : float * float :=
  let '(sep_x, sep_y, sep_count) := separation units self neighbors in
  let v :=
    if (0 <? sep_count)%nat then
      vadd v (sep_x * GROUP_SEPARATION) (sep_y * GROUP_SEPARATION)
    else v in
  cohesion units self neighbors v.

(** Two units that differ at most in the velocity they store. *)
Definition same_but_velocity (u v : Unit) : Prop :=
  unit_type u = unit_type v /\ x u = x v /\ y u = y v /\
  target u = target v.

(** A coordinate inside a closed interval. *)
Definition within (lo hi c : float) : bool := (lo <=? c) && (c <=? hi).

(** A unit inside the play area, a margin of [UNIT_RADIUS] from each
    edge. *)
Definition in_bounds (u : Unit) : bool :=
  within UNIT_RADIUS (WIDTH - UNIT_RADIUS) (x u)
  && within UNIT_RADIUS (HEIGHT - UNIT_RADIUS) (y u).

(** What the boundary handling gives for one coordinate: it is never
    strictly outside the interval, and a coordinate that is a number lies
    inside it. *)
Definition kept_within (lo hi c : float) : Prop :=
  (c <? lo) = false /\ (hi <? c) = false /\
  (is_nan c = false -> within lo hi c = true).

(** A unit whose stored velocity has components of magnitude at most twice
    [UNIT_SPEED]. *)
Definition slow (u : Unit) : bool :=
  (abs (vx u) <=? 2 * UNIT_SPEED) && (abs (vy u) <=? 2 * UNIT_SPEED).

(** A unit inside the play area with such a velocity. *)
Definition tame (u : Unit) : bool := in_bounds u && slow u.

(** A tape on which every draw of [random.random()] is in [[0, 1)], as the
    library has it. *)
Definition unit_draws (g : Py.Rng) : Prop :=
  forall k, ((0 <=? Py.floats g k) && (Py.floats g k <? 1)) = true.

(** The state a run is in between two frames: fewer units than [2^53], so
    that their number is a float, every unit inside the play area with a
    velocity of components at most twice [UNIT_SPEED], and draws in
    [[0, 1)]. *)
Definition settled (us : list Unit) (g : Py.Rng) : Prop :=
  (Z.of_nat (length us) < 2 ^ 53)%Z /\ unit_draws g /\
  forall i, (i < length us)%nat -> tame (get us i) = true.

(** What a move leaves alone in the other units, and what the collision
    loops leave alone in all of them. *)
Definition motion (u : Unit) : float * float * float * float :=
  (x u, y u, vx u, vy u).

(** Positions of magnitude at most [2^10] and stored velocities of magnitude
    at most [2^2], at every index. *)
Definition placed (us : list Unit) : Prop :=
  forall j, Binary64.bounded (Binary64.bpow 10) (x (get us j)) /\
            Binary64.bounded (Binary64.bpow 10) (y (get us j)).

Definition paced (us : list Unit) : Prop :=
  forall j, Binary64.bounded (Binary64.bpow 2) (vx (get us j)) /\
            Binary64.bounded (Binary64.bpow 2) (vy (get us j)).

(** The unit that [initialize_units] creates at index [i]: scissors first,
    then rocks, then papers, each at its own sample. *)
Definition initial_unit (samples : nat -> float * float)
  (scissors_count rock_count : Z) (i : nat) : Unit :=
  let t :=
    if (Z.of_nat i <? scissors_count)%Z then 0%Z
    else if (Z.of_nat i <? scissors_count + rock_count)%Z then 1%Z
    else 2%Z in
  Unit_init t (fst (samples i)) (snd (samples i)).

End Sim.

Import Sim.

(** ** The types array of the Cython front end

    [rock_paper_scissors_sim_cython.py] keeps the unit types in a numpy array
    and leaves positions, targets and collisions to a compiled module that is
    not part of the sources; what follows is the part written in Python. *)

Module Cy.

(** [np.zeros(n, dtype=np.int32)] *)
Definition np_zeros (n : Z) : Py.result (list Z) :=
  if (n <? 0)%Z then inl Py.ValueError else Py.ret (repeat 0%Z (Z.to_nat n)).

Fixpoint set_at (arr : list Z) (idx : nat) (v : Z) : list Z :=
  match arr, idx with
  | [], _ => []
  | _ :: arr', O => v :: arr'
  | a :: arr', S idx' => a :: set_at arr' idx' v
  end.

(** [arr[idx] = v] for an index that is not negative. *)
Definition np_set (arr : list Z) (idx : nat) (v : Z) : Py.result (list Z) :=
  if (idx <? length arr)%nat then Py.ret (set_at arr idx v)
  else inl Py.IndexError.

(** [for i in range(count): self.types[idx] = t; idx += 1], on the pair of
    the array and [idx]. *)
Definition fill (t : Z) (count : Z) (st : list Z * nat)
  : Py.result (list Z * nat) :=
  Py.for_each (Py.range 0 count)
    (fun _ st =>
       types <- np_set (fst st) (snd st) t ;;
       Py.ret (types, S (snd st)))
    st.

(** The types that [CythonSimulation.__init__] and [initialize_units] leave
    in [self.types]. *)
Definition initialize_types (scissors_count rock_count paper_count : Z)
  : Py.result (list Z) :=
  types <- np_zeros (scissors_count + rock_count + paper_count) ;;
  st <- fill 0 scissors_count (types, O) ;;
  st <- fill 1 rock_count st ;;
  st <- fill 2 paper_count st ;;
  Py.ret (fst st).

(** [check_end_condition]; [total_count] is the length of the array. *)
Definition check_end_condition (types : list Z) : bool :=
  if (length types =? 0)%nat then true
  else
    let first_type := nth 0 types 0%Z in
    forallb (fun t => (t =? first_type)%Z) types.

(** [counts_dict.get(t, 0)] after [np.unique(..., return_counts=True)]. *)
Definition count (t : Z) (types : list Z) : nat :=
  length (filter (fun u => (u =? t)%Z) types).

Definition get_type_counts (types : list Z) : nat * nat * nat :=
  (count 0 types, count 1 types, count 2 types).

(** What [main] announces once [check_end_condition] holds: the winner, or
    nothing when the counts add up to zero. *)
Definition winner (types : list Z) : option Z :=
  let '(scissors_remaining, rock_remaining, paper_remaining) :=
    get_type_counts types in
  if (0 <? scissors_remaining + rock_remaining + paper_remaining)%nat then
    if (0 <? scissors_remaining)%nat then Some 0%Z
    else if (0 <? rock_remaining)%nat then Some 1%Z
    else Some 2%Z
  else None.

End Cy.

(** ** Concrete populations and tapes *)

Module Examples.

(** A tape whose first draws are the given floats; every other draw is
    0.5, which makes the random movement vanish. *)
Definition tape (l : list float) : Py.Rng :=
  Py.mkRng (fun n => nth n l 0.5) (fun _ => 0%Z) 0.

Definition steady : Py.Rng := tape [].

(** The index as [SpatialTree(units)] builds it. *)
Definition index_of (us : list Unit) : SpatialTree := mkTree (map pos us).

(** A scissors unit touched by one rock, and by two. *)
Definition one_rock : list Unit :=
  [Unit_init 0 100 100; Unit_init 1 100 100].
Definition two_rocks : list Unit :=
  [Unit_init 0 100 100; Unit_init 1 100 100; Unit_init 1 103 104].

(** Two units exactly 20 apart. *)
Definition on_the_rim : list Unit :=
  [Unit_init 0 100 100; Unit_init 1 120 100].

(** Two scissors a little more than [GROUP_RADIUS] apart. *)
Definition drifting : list Unit :=
  [Unit_init 0 400 480; Unit_init 0 500.15 480].

(** Two scissors 50 apart, in either order. *)
Definition pair_ab : list Unit :=
  [Unit_init 0 400 480; Unit_init 0 450 480].
Definition pair_ba : list Unit :=
  [Unit_init 0 450 480; Unit_init 0 400 480].

(** A scissors unit with a single paper in the population. *)
Definition lone_prey : list Unit :=
  [Unit_init 0 100 100; Unit_init 2 120 100].

(** A scissors unit with two papers in the population. *)
Definition two_preys : list Unit :=
  [Unit_init 0 100 100; Unit_init 2 120 100; Unit_init 2 110 100].

(** A rock in contact with a scissors unit, and an index that still has the
    rock far away. *)
Definition late_contact : list Unit :=
  [Unit_init 0 100 100; Unit_init 1 103 104].
Definition far_index : SpatialTree := mkTree [(100, 100); (300, 300)].

(** A generator that always samples the same point. *)
Definition same_spot : nat -> float * float := fun _ => (10, 20).

(** Event queues: nothing ever happens; the window is closed during the
    frame that starts after [n] completed frames. *)
Definition no_events : nat -> list Py.Event := fun _ => [].
Definition quit_at (n : nat) : nat -> list Py.Event :=
  fun k => if Nat.eqb k n then [Py.OtherEvent; Py.QUIT] else [Py.OtherEvent].

End Examples.

(** ** Order facts on binary64 floats, from their specification *)

Module FloatOrder.

Lemma SFcompare_antisym (a b : spec_float) :
  SFcompare b a = option_map CompOpp (SFcompare a b).
Proof.
  destruct a as [sa|sa| |sa ma ea], b as [sb|sb| |sb mb eb]; cbn;
    try reflexivity;
    try (destruct sa; reflexivity);
    try (destruct sb; reflexivity);
    try (destruct sa, sb; reflexivity).
  rewrite (Z.compare_antisym ea eb).
  change (PosDef.Pos.compare_cont Eq mb ma) with (Pos.compare mb ma).
  change (PosDef.Pos.compare_cont Eq ma mb) with (Pos.compare ma mb).
  rewrite (Pos.compare_antisym ma mb).
  destruct sa, sb; cbn; try reflexivity;
    destruct (ea ?= eb)%Z; cbn; try reflexivity;
    destruct (ma ?= mb)%positive; reflexivity.
Qed.

Lemma SFcompare_None (a b : spec_float) :
  SFcompare a b = None -> a = S754_nan \/ b = S754_nan.
Proof.
  destruct a, b; cbn; intros H; try discriminate; auto.
Qed.

Lemma SFcompare_Some (a b : spec_float) (c : comparison) :
  SFcompare a b = Some c -> a <> S754_nan /\ b <> S754_nan.
Proof.
  destruct a, b; cbn; intros H; try discriminate; split; discriminate.
Qed.

Lemma SFcompare_refl (a : spec_float) :
  a <> S754_nan -> SFcompare a a = Some Eq.
Proof.
  destruct a as [sa|sa| |sa ma ea]; cbn; intros H;
    try reflexivity; try contradiction.
  - destruct sa; reflexivity.
  - rewrite Z.compare_refl.
    change (PosDef.Pos.compare_cont Eq ma ma) with (Pos.compare ma ma).
    rewrite Pos.compare_refl. destruct sa; reflexivity.
Qed.

Lemma is_nan_false_SF (c : float) :
  is_nan c = false -> Prim2SF c <> S754_nan.
Proof.
  unfold is_nan. rewrite eqb_spec. intros H E. rewrite E in H. discriminate.
Qed.

Lemma SF_is_nan_false (c : float) :
  Prim2SF c <> S754_nan -> is_nan c = false.
Proof.
  intros H. unfold is_nan. rewrite eqb_spec. unfold SFeqb.
  rewrite (SFcompare_refl _ H). reflexivity.
Qed.

(** A comparison that holds has two numbers as operands. *)
Lemma leb_true_not_nan (a b : float) :
  (a <=? b) = true -> is_nan a = false /\ is_nan b = false.
Proof.
  rewrite leb_spec. unfold SFleb.
  destruct (SFcompare (Prim2SF a) (Prim2SF b)) as [c|] eqn:E;
    [|discriminate].
  intros _. apply SFcompare_Some in E. destruct E as [Ea Eb].
  split; apply SF_is_nan_false; assumption.
Qed.

(** On numbers the order is total. *)
Lemma ltb_false_leb (a b : float) :
  is_nan a = false -> is_nan b = false ->
  (a <? b) = false -> (b <=? a) = true.
Proof.
  intros Ha Hb. rewrite ltb_spec, leb_spec. unfold SFltb, SFleb.
  rewrite (SFcompare_antisym (Prim2SF a) (Prim2SF b)).
  destruct (SFcompare (Prim2SF a) (Prim2SF b)) as [[]|] eqn:E; cbn;
    try reflexivity; try discriminate.
  intros _. apply SFcompare_None in E.
  destruct E as [E|E];
    [apply is_nan_false_SF in Ha | apply is_nan_false_SF in Hb];
    contradiction.
Qed.

Lemma leb_refl (a : float) : is_nan a = false -> (a <=? a) = true.
Proof.
  intros H. rewrite leb_spec. unfold SFleb.
  rewrite (SFcompare_refl _ (is_nan_false_SF _ H)). reflexivity.
Qed.

Lemma ltb_true_leb_false (a b : float) :
  (a <? b) = true -> (b <=? a) = false.
Proof.
  rewrite ltb_spec, leb_spec. unfold SFltb, SFleb.
  rewrite (SFcompare_antisym (Prim2SF a) (Prim2SF b)).
  destruct (SFcompare (Prim2SF a) (Prim2SF b)) as [[]|]; cbn; congruence.
Qed.

Lemma SFcompare_Lt_trans (a b c : spec_float) :
  SFcompare a b = Some Lt -> SFcompare b c = Some Lt ->
  SFcompare a c = Some Lt.
Proof.
  destruct a as [sa|sa| |sa ma ea], b as [sb|sb| |sb mb eb],
           c as [sc|sc| |sc mc ec]; cbn;
    try discriminate; try (destruct sa, sb, sc; cbn; congruence);
    try (destruct sa, sb; cbn; congruence);
    try (destruct sb, sc; cbn; congruence);
    try (destruct sa, sc; cbn; congruence).
  all: change (PosDef.Pos.compare_cont Eq) with Pos.compare.
  all: destruct sa, sb, sc; cbn; try congruence;
    destruct (Z.compare_spec ea eb), (Z.compare_spec eb ec),
             (Z.compare_spec ea ec); try congruence; try lia; subst;
    repeat match goal with
           | |- context [Pos.compare ?p ?q] =>
               destruct (Pos.compare_spec p q)
           end; cbn; try congruence; try lia.
Qed.

Lemma ltb_trans (a b c : float) :
  (a <? b) = true -> (b <? c) = true -> (a <? c) = true.
Proof.
  rewrite !ltb_spec. unfold SFltb.
  destruct (SFcompare (Prim2SF a) (Prim2SF b)) as [[]|] eqn:E1;
    try discriminate.
  destruct (SFcompare (Prim2SF b) (Prim2SF c)) as [[]|] eqn:E2;
    try discriminate.
  intros _ _. now rewrite (SFcompare_Lt_trans _ _ _ E1 E2).
Qed.

Lemma ltb_irrefl (a : float) : (a <? a) = false.
Proof.
  rewrite ltb_spec. unfold SFltb.
  destruct (Prim2SF a) as [s|s| |s m e]; cbn; try reflexivity.
  - destruct s; reflexivity.
  - rewrite Z.compare_refl.
    change (PosDef.Pos.compare_cont Eq m m) with (Pos.compare m m).
    rewrite Pos.compare_refl. destruct s; reflexivity.
Qed.

Lemma SFleb_trans (a b c : spec_float) :
  SFleb a b = true -> SFleb b c = true -> SFleb a c = true.
Proof.
  unfold SFleb.
  destruct a as [sa|sa| |sa ma ea], b as [sb|sb| |sb mb eb],
           c as [sc|sc| |sc mc ec]; cbn;
    try discriminate; try reflexivity;
    try (destruct sa, sb, sc; cbn; congruence);
    try (destruct sa, sb; cbn; congruence);
    try (destruct sb, sc; cbn; congruence);
    try (destruct sa, sc; cbn; congruence).
  all: change (PosDef.Pos.compare_cont Eq) with Pos.compare.
  all: destruct sa, sb, sc; cbn; try congruence;
    destruct (Z.compare_spec ea eb), (Z.compare_spec eb ec),
             (Z.compare_spec ea ec); try congruence; try lia; subst;
    repeat match goal with
           | |- context [Pos.compare ?p ?q] =>
               destruct (Pos.compare_spec p q)
           end; cbn; try congruence; try lia.
Qed.

Lemma leb_trans (a b c : float) :
  (a <=? b) = true -> (b <=? c) = true -> (a <=? c) = true.
Proof. rewrite !leb_spec. apply SFleb_trans. Qed.

End FloatOrder.

(** ** The value of a binary64 result, from the specification of the format

    The operations round to nearest; what is proved of them here is what
    the magnitudes of a move need: a result is a number between any two
    bounds of the format that enclose the exact value. *)

Module FloatValue.

Import Binary64.

Local Open Scope R_scope.

Lemma bpow_pos (e : Z) : 0 < bpow e.
Proof. apply powerRZ_lt. lra. Qed.

Lemma bpow_add (e1 e2 : Z) : bpow (e1 + e2) = bpow e1 * bpow e2.
Proof. apply powerRZ_add. lra. Qed.

Lemma bpow_IZR (k : Z) : (0 <= k)%Z -> bpow k = IZR (2 ^ k).
Proof.
  intros H. unfold bpow. rewrite <- (Z2Nat.id k H) at 1.
  rewrite <- pow_powerRZ, pow_IZR, Z2Nat.id by exact H. reflexivity.
Qed.

Lemma bpow_0 : bpow 0 = 1.
Proof. reflexivity. Qed.

Lemma bpow_1 : bpow 1 = 2.
Proof. unfold bpow, powerRZ. simpl. lra. Qed.

Lemma bpow_ge_1 (k : Z) : (0 <= k)%Z -> 1 <= bpow k.
Proof.
  intros H. rewrite bpow_IZR by exact H. apply IZR_le.
  pose proof (Z.pow_pos_nonneg 2 k ltac:(lia) H). lia.
Qed.

Lemma bpow_le (e1 e2 : Z) : (e1 <= e2)%Z -> bpow e1 <= bpow e2.
Proof.
  intros H. replace e2 with (e1 + (e2 - e1))%Z by lia.
  rewrite bpow_add. pose proof (bpow_pos e1).
  pose proof (bpow_ge_1 (e2 - e1) ltac:(lia)). nra.
Qed.

Lemma bpow_lt (e1 e2 : Z) : (e1 < e2)%Z -> bpow e1 < bpow e2.
Proof.
  intros H. replace e2 with (e1 + 1 + (e2 - e1 - 1))%Z by lia.
  rewrite !bpow_add, bpow_1. pose proof (bpow_pos e1).
  pose proof (bpow_ge_1 (e2 - e1 - 1) ltac:(lia)). nra.
Qed.

Lemma bpow_lt_inv (e1 e2 : Z) : bpow e1 < bpow e2 -> (e1 < e2)%Z.
Proof.
  intros H. destruct (Z_lt_le_dec e1 e2) as [L|L]; [exact L|].
  apply bpow_le in L. lra.
Qed.

Lemma bpow_S (e : Z) : bpow (e + 1) = 2 * bpow e.
Proof. rewrite bpow_add, bpow_1. ring. Qed.

(** An integer times a power of two against another one. *)
Lemma scaled_le (m1 m2 e : Z) :
  IZR m1 * bpow e <= IZR m2 * bpow e <-> (m1 <= m2)%Z.
Proof.
  pose proof (bpow_pos e). split; intros K.
  - apply le_IZR. nra.
  - apply IZR_le in K. nra.
Qed.

Lemma scaled_lt (m1 m2 e : Z) :
  IZR m1 * bpow e < IZR m2 * bpow e <-> (m1 < m2)%Z.
Proof.
  pose proof (bpow_pos e). split; intros K.
  - apply lt_IZR. nra.
  - apply IZR_lt in K. nra.
Qed.

(** [m * 2^e] with [e' <= e] is an integer multiple of [2^e']. *)
Lemma scaled_shift (m e e' : Z) :
  (e' <= e)%Z -> IZR m * bpow e = IZR (m * 2 ^ (e - e')) * bpow e'.
Proof.
  intros H. rewrite mult_IZR, <- bpow_IZR by lia.
  replace e with ((e - e') + e')%Z at 1 by lia. rewrite bpow_add. ring.
Qed.

(** Number of binary digits. *)
Lemma digits2_size (p : positive) : digits2_pos p = Pos.size p.
Proof. induction p; cbn; congruence. Qed.

Lemma digits_bounds (p : positive) :
  (2 ^ (Z.pos (digits2_pos p) - 1) <= Z.pos p < 2 ^ Z.pos (digits2_pos p))%Z.
Proof.
  rewrite digits2_size. split.
  - pose proof (Pos.size_le p) as H.
    assert (K : (2 ^ Z.pos (Pos.size p) <= 2 * Z.pos p)%Z).
    { change 2%Z with (Z.pos 2) at 1. rewrite <- Pos2Z.inj_pow.
      change (2 * Z.pos p)%Z with (Z.pos p~0). apply Pos2Z.pos_le_pos. exact H. }
    replace (Z.pos (Pos.size p)) with (Z.pos (Pos.size p) - 1 + 1)%Z in K by lia.
    rewrite Z.pow_add_r in K by lia. lia.
  - pose proof (Pos.size_gt p) as H.
    change 2%Z with (Z.pos 2). rewrite <- Pos2Z.inj_pow.
    apply Pos2Z.pos_lt_pos. exact H.
Qed.

Lemma Zdigits2_bounds (m : Z) :
  (0 < m)%Z -> (2 ^ (Zdigits2 m - 1) <= m < 2 ^ Zdigits2 m)%Z.
Proof.
  destruct m as [|p|p]; try lia. intros _. apply digits_bounds.
Qed.

Lemma Zdigits2_nonneg (m : Z) : (0 <= Zdigits2 m)%Z.
Proof. destruct m; cbn; lia. Qed.

Lemma Zdigits2_ge (m k : Z) : (0 <= k)%Z -> (2 ^ k <= m)%Z -> (k + 1 <= Zdigits2 m)%Z.
Proof.
  intros Hk H. assert (0 < m)%Z by (pose proof (Z.pow_pos_nonneg 2 k); lia).
  destruct (Zdigits2_bounds m H0) as [_ U].
  destruct (Z_lt_le_dec (Zdigits2 m) (k + 1)) as [L|L]; [|exact L].
  exfalso. assert (2 ^ Zdigits2 m <= 2 ^ k)%Z
    by (apply Z.pow_le_mono_r; [lia|lia]). lia.
Qed.

(** ** Values and rounding *)

Lemma located_bounds (m e : Z) (ex : bool) (v : R) :
  located m e ex v -> IZR m * bpow e <= v < IZR (m + 1) * bpow e.
Proof.
  unfold located. pose proof (bpow_pos e). rewrite plus_IZR.
  destruct ex; intros K; [subst|]; lra.
Qed.

Lemma shr_1_located (mrs : shr_record) (e : Z) (v : R) :
  (0 <= shr_m mrs)%Z -> located (shr_m mrs) e (exact_rec mrs) v ->
  (0 <= shr_m (shr_1 mrs))%Z /\
  located (shr_m (shr_1 mrs)) (e + 1) (exact_rec (shr_1 mrs)) v.
Proof.
  destruct mrs as [m r s]. unfold exact_rec, located. cbn [shr_m shr_r shr_s].
  rewrite bpow_S. pose proof (bpow_pos e) as P. intros Hm.
  destruct m as [|[p|p|]|p]; cbn [shr_1 shr_m shr_r shr_s orb negb];
    try lia.
  - destruct (r || s); cbn [negb]; rewrite ?plus_IZR; intros K;
      (split; [lia|]); lra.
  - rewrite Pos2Z.inj_xI, !plus_IZR, !mult_IZR.
    destruct (r || s); cbn [negb]; intros K; (split; [lia|]); nra.
  - rewrite Pos2Z.inj_xO, !plus_IZR, !mult_IZR.
    destruct (r || s); cbn [negb]; intros K; (split; [lia|]); nra.
  - rewrite !plus_IZR.
    destruct (r || s); cbn [negb]; intros K; (split; [lia|]); nra.
Qed.

Lemma iter_pos_located (n : positive) (mrs : shr_record) (e : Z) (v : R) :
  (0 <= shr_m mrs)%Z -> located (shr_m mrs) e (exact_rec mrs) v ->
  (0 <= shr_m (SpecFloat.iter_pos shr_1 n mrs))%Z /\
  located (shr_m (SpecFloat.iter_pos shr_1 n mrs)) (e + Z.pos n)
          (exact_rec (SpecFloat.iter_pos shr_1 n mrs)) v.
Proof.
  revert mrs e. induction n as [n IH|n IH|]; intros mrs e H0 H1; cbn [SpecFloat.iter_pos].
  - destruct (shr_1_located mrs e v H0 H1) as [A1 A2].
    destruct (IH _ _ A1 A2) as [B1 B2].
    destruct (IH _ _ B1 B2) as [C1 C2].
    split; [exact C1|].
    replace (e + Z.pos n~1)%Z with (e + 1 + Z.pos n + Z.pos n)%Z by lia.
    exact C2.
  - destruct (IH _ _ H0 H1) as [B1 B2].
    destruct (IH _ _ B1 B2) as [C1 C2].
    split; [exact C1|].
    replace (e + Z.pos n~0)%Z with (e + Z.pos n + Z.pos n)%Z by lia.
    exact C2.
  - apply shr_1_located; assumption.
Qed.

Lemma fexp_eq (x : Z) : fexp x = Z.max (x - 53) (-1074).
Proof. reflexivity. Qed.

Lemma shr_fexp_located (m e : Z) (l : location) (v : R) :
  (0 <= m)%Z -> located m e (exact_loc l) v ->
  (e <= fexp (Zdigits2 m + e))%Z ->
  let r := shr_fexp prec emax m e l in
  (0 <= shr_m (fst r))%Z /\
  located (shr_m (fst r)) (snd r) (exact_rec (fst r)) v /\
  snd r = fexp (Zdigits2 m + e).
Proof.
  intros Hm Hv He. cbv zeta. unfold shr_fexp.
  set (mrs := shr_record_of_loc m l).
  assert (M : shr_m mrs = m) by (unfold mrs; destruct l as [|[ | | ]]; reflexivity).
  assert (X : exact_rec mrs = exact_loc l)
    by (unfold mrs; destruct l as [|[ | | ]]; reflexivity).
  rewrite <- M, <- X in Hv. rewrite <- M in Hm.
  unfold shr. destruct (fexp (Zdigits2 m + e) - e)%Z as [|p|p] eqn:E;
    cbn [fst snd].
  - repeat split; try assumption. lia.
  - destruct (iter_pos_located p mrs e v Hm Hv) as [A B].
    repeat split; try assumption. lia.
  - lia.
Qed.

(** After the shift the mantissa has all its digits, unless the exponent is
    the least one. *)
Lemma located_canonical (m e m' : Z) (ex ex' : bool) (v : R) :
  (0 <= m)%Z -> located m e ex v -> located m' (fexp (Zdigits2 m + e)) ex' v ->
  (e <= fexp (Zdigits2 m + e))%Z ->
  (-1074 < fexp (Zdigits2 m + e))%Z -> (2 ^ 52 <= m')%Z.
Proof.
  intros Hm Hv Hv' He Hc. rewrite fexp_eq in *.
  assert (E : Z.max (Zdigits2 m + e - 53) (-1074) = (Zdigits2 m + e - 53)%Z)
    by lia.
  rewrite E in *.
  assert (Hpos : (0 < m)%Z).
  { destruct m as [|p|p]; try lia. cbn [Zdigits2] in He. lia. }
  destruct (Zdigits2_bounds m Hpos) as [L _].
  apply located_bounds in Hv, Hv'.
  assert (K : IZR (2 ^ 52) * bpow (Zdigits2 m + e - 53) <= IZR m * bpow e).
  { rewrite <- bpow_IZR, <- bpow_add by lia.
    replace (52 + (Zdigits2 m + e - 53))%Z with ((Zdigits2 m - 1) + e)%Z by lia.
    rewrite bpow_add, bpow_IZR by (pose proof (Zdigits2_nonneg m); lia).
    apply scaled_le. exact L. }
  assert (K2 : IZR (2 ^ 52) * bpow (Zdigits2 m + e - 53)
               < IZR (m' + 1) * bpow (Zdigits2 m + e - 53)) by lra.
  apply scaled_lt in K2. lia.
Qed.

Lemma format_0 : format 0.
Proof. exists 0%Z, 0%Z. split; [lra|lia]. Qed.

Lemma format_bpow (k : Z) : (-1074 <= k)%Z -> format (bpow k).
Proof. intros H. exists 1%Z, k. split; [lra|lia]. Qed.

Lemma format_scaled (c k : Z) :
  (0 <= c <= 2 ^ 53)%Z -> (-1074 <= k)%Z -> format (IZR c * bpow k).
Proof. intros H1 H2. exists c, k. auto. Qed.

Lemma round_down_le (m' e' : Z) (ex' : bool) (v A : R) :
  located m' e' ex' v -> (-1074 <= e')%Z ->
  ((-1074 < e')%Z -> (2 ^ 52 <= m')%Z) ->
  format A -> A <= v -> A <= IZR m' * bpow e'.
Proof.
  intros Hv He Hc (ma & ea & -> & Hma & Hea) HA.
  apply located_bounds in Hv.
  destruct (Z_le_gt_dec e' ea) as [L|L].
  - rewrite (scaled_shift ma ea e' L) in *. apply scaled_le.
    assert (K : IZR (ma * 2 ^ (ea - e')) * bpow e' < IZR (m' + 1) * bpow e')
      by lra.
    apply scaled_lt in K. lia.
  - specialize (Hc ltac:(lia)).
    assert (K1 : IZR ma * bpow ea <= IZR (2 ^ 53) * bpow ea)
      by (apply scaled_le; lia).
    assert (K2 : IZR (2 ^ 53) * bpow ea <= IZR (2 ^ 52) * bpow e').
    { rewrite <- !bpow_IZR, <- !bpow_add by lia. apply bpow_le. lia. }
    assert (K3 : IZR (2 ^ 52) * bpow e' <= IZR m' * bpow e')
      by (apply scaled_le; exact Hc).
    lra.
Qed.

Lemma round_up_ge (m' e' : Z) (v B : R) :
  located m' e' false v -> (-1074 <= e')%Z ->
  ((-1074 < e')%Z -> (2 ^ 52 <= m')%Z) ->
  format B -> v <= B -> IZR (m' + 1) * bpow e' <= B.
Proof.
  intros Hv He Hc (mb & eb & -> & Hmb & Heb) HB.
  unfold located in Hv.
  destruct (Z_le_gt_dec e' eb) as [L|L].
  - rewrite (scaled_shift mb eb e' L) in *. apply scaled_le.
    assert (K : IZR m' * bpow e' < IZR (mb * 2 ^ (eb - e')) * bpow e') by lra.
    apply scaled_lt in K. lia.
  - specialize (Hc ltac:(lia)). exfalso.
    assert (K1 : IZR mb * bpow eb <= IZR (2 ^ 53) * bpow eb)
      by (apply scaled_le; lia).
    assert (K2 : IZR (2 ^ 53) * bpow eb <= IZR (2 ^ 52) * bpow e').
    { rewrite <- !bpow_IZR, <- !bpow_add by lia. apply bpow_le. lia. }
    assert (K3 : IZR (2 ^ 52) * bpow e' <= IZR m' * bpow e')
      by (apply scaled_le; exact Hc).
    lra.
Qed.

Lemma round_nearest_even_cases (mrs : shr_record) :
  let m := round_nearest_even (shr_m mrs) (loc_of_shr_record mrs) in
  m = shr_m mrs \/ (m = (shr_m mrs + 1)%Z /\ exact_rec mrs = false).
Proof.
  destruct mrs as [m [|] [|]]; cbn; auto.
  destruct (Z.even m); auto.
Qed.

(** What rounding to nearest returns lies between any two such bounds that
    enclose the value that is rounded; it is never NaN, and has the sign it
    is given. *)
Theorem binary_round_aux_spec (sx : bool) (mx ex : Z) (lx : location) (v : R) :
  (0 <= mx)%Z -> located mx ex (exact_loc lx) v ->
  (ex <= fexp (Zdigits2 mx + ex))%Z ->
  let r := binary_round_aux prec emax sx mx ex lx in
  (r = S754_zero sx \/ r = S754_infinity sx \/
   exists m e, r = S754_finite sx m e) /\
  (forall A B, format A -> format B -> A <= v <= B -> B < bpow 1024 ->
     is_finite_SF r = true /\ A <= Rabs (SF2R r) <= B).
Proof.
  intros Hm Hv He. cbv zeta. unfold binary_round_aux.
  pose proof (shr_fexp_located mx ex lx v Hm Hv He) as S1. cbv zeta in S1.
  destruct (shr_fexp prec emax mx ex lx) as [mrs' e'] eqn:E1.
  cbn [fst snd] in S1. destruct S1 as (M1 & L1 & X1).
  assert (C1 : (-1074 < e')%Z -> (2 ^ 52 <= shr_m mrs')%Z).
  { intros Hc. rewrite X1 in L1, Hc.
    exact (located_canonical mx ex _ _ _ v Hm Hv L1 He Hc). }
  assert (G1 : (-1074 <= e')%Z) by (rewrite X1, fexp_eq; lia).
  set (m'' := round_nearest_even (shr_m mrs') (loc_of_shr_record mrs')).
  assert (R1 : m'' = shr_m mrs' \/
               (m'' = (shr_m mrs' + 1)%Z /\ exact_rec mrs' = false))
    by apply round_nearest_even_cases.
  assert (M2 : (0 <= m'')%Z) by lia.
  assert (L2 : located m'' e' (exact_loc loc_Exact) (IZR m'' * bpow e'))
    by reflexivity.
  assert (He2 : (e' <= fexp (Zdigits2 m'' + e'))%Z).
  { rewrite fexp_eq. destruct (Z.eq_dec e' (-1074)) as [->|Hn]; [lia|].
    specialize (C1 ltac:(lia)).
    assert (53 <= Zdigits2 m'')%Z by (apply (Zdigits2_ge m'' 52); lia).
    lia. }
  pose proof (shr_fexp_located m'' e' loc_Exact _ M2 L2 He2) as S2.
  cbv zeta in S2.
  destruct (shr_fexp prec emax m'' e' loc_Exact) as [mrs'' e''] eqn:E2.
  cbn [fst snd] in S2. destruct S2 as (M3 & L3 & X3).
  assert (C2 : (-1074 < e'')%Z -> (2 ^ 52 <= shr_m mrs'')%Z).
  { intros Hc. rewrite X3 in L3, Hc.
    exact (located_canonical m'' e' _ _ _ _ M2 L2 L3 He2 Hc). }
  assert (G2 : (-1074 <= e'')%Z) by (rewrite X3, fexp_eq; lia).
  assert (Bounds : forall A B, format A -> format B -> A <= v <= B ->
             A <= IZR (shr_m mrs'') * bpow e'' <= B).
  { intros A B FA FB [HA HB].
    pose proof (round_down_le _ _ _ _ A L1 G1 C1 FA HA) as D1.
    assert (D2 : IZR (shr_m mrs') * bpow e' <= IZR m'' * bpow e')
      by (apply scaled_le; lia).
    assert (U1 : IZR m'' * bpow e' <= B).
    { destruct R1 as [->|[-> Hx]].
      - apply located_bounds in L1. lra.
      - rewrite Hx in L1. exact (round_up_ge _ _ _ B L1 G1 C1 FB HB). }
    pose proof (round_down_le _ _ _ _ A L3 G2 C2 FA ltac:(lra)) as D3.
    apply located_bounds in L3. lra. }
  destruct (shr_m mrs'') as [|m|m] eqn:Em; [| |lia].
  - split; [auto|]. intros A B FA FB HAB _.
    specialize (Bounds A B FA FB HAB). cbn [is_finite_SF SF2R].
    rewrite Rabs_R0. split; [reflexivity|]. lra.
  - destruct (e'' <=? emax - prec)%Z eqn:Ee.
    + split; [right; right; eauto|]. intros A B FA FB HAB _.
      specialize (Bounds A B FA FB HAB). cbn [is_finite_SF SF2R].
      split; [reflexivity|].
      assert (P : 0 < IZR (Z.pos m) * bpow e'').
      { apply Rmult_lt_0_compat; [apply IZR_lt; lia|apply bpow_pos]. }
      destruct sx; rewrite ?Rmult_1_l.
      * replace (-1 * (IZR (Z.pos m) * bpow e''))
          with (- (IZR (Z.pos m) * bpow e'')) by ring.
        rewrite Rabs_Ropp, Rabs_pos_eq by lra. exact Bounds.
      * rewrite Rabs_pos_eq by lra. exact Bounds.
    + split; [auto|]. intros A B FA FB HAB HB.
      specialize (Bounds A B FA FB HAB). exfalso.
      apply Z.leb_gt in Ee. change (emax - prec)%Z with 971%Z in Ee.
      specialize (C2 ltac:(lia)).
      assert (K : IZR (2 ^ 52) * bpow e'' <= IZR (Z.pos m) * bpow e'')
        by (apply scaled_le; exact C2).
      rewrite <- bpow_IZR, <- bpow_add in K by lia.
      assert (bpow (52 + e'') < bpow 1024) by lra.
      apply bpow_lt_inv in H. lia.
Qed.

(** ** The operations *)

Lemma iter_xO_spec (m d : positive) :
  Z.pos (Pos.iter xO m d) = (Z.pos m * 2 ^ Z.pos d)%Z /\
  Z.pos (digits2_pos (Pos.iter xO m d)) = (Z.pos (digits2_pos m) + Z.pos d)%Z.
Proof.
  induction d as [|d IH] using Pos.peano_ind.
  - cbn [Pos.iter digits2_pos]. split; lia.
  - rewrite Pos.iter_succ. cbn [digits2_pos]. destruct IH as [I1 I2].
    rewrite Pos2Z.inj_xO, I1, !Pos2Z.inj_succ, I2.
    rewrite Z.pow_succ_r by lia. split; lia.
Qed.

Lemma shl_align_spec (mx : positive) (ex ex' : Z) :
  let r := shl_align mx ex ex' in
  IZR (Z.pos (fst r)) * bpow (snd r) = IZR (Z.pos mx) * bpow ex /\
  (Z.pos (digits2_pos (fst r)) + snd r
   = Z.pos (digits2_pos mx) + ex)%Z /\
  snd r = Z.min ex ex'.
Proof.
  cbv zeta. unfold shl_align.
  destruct (ex' - ex)%Z as [|d|d] eqn:E; cbn [fst snd].
  - repeat split; lia.
  - repeat split; lia.
  - destruct (iter_xO_spec mx d) as [I1 I2]. rewrite I1, I2.
    split; [|split; lia].
    rewrite (scaled_shift (Z.pos mx) ex ex') by lia.
    replace (ex - ex')%Z with (Z.pos d) by lia. reflexivity.
Qed.

Lemma binary_round_spec (sx : bool) (mx : positive) (ex : Z) :
  rounds sx (IZR (Z.pos mx) * bpow ex) (binary_round prec emax sx mx ex).
Proof.
  unfold binary_round.
  pose proof (shl_align_spec mx ex (fexp (Z.pos (digits2_pos mx) + ex)))
    as S. cbv zeta in S.
  destruct (shl_align mx ex _) as [mz ez]. cbn [fst snd] in S.
  destruct S as (V & D & E).
  apply binary_round_aux_spec.
  - lia.
  - cbn [exact_loc located]. lra.
  - cbn [Zdigits2]. rewrite D. lia.
Qed.

Lemma Rabs_signed (s : bool) (a : R) :
  0 <= a -> Rabs ((if s then -1 else 1) * a) = a.
Proof.
  intros H. destruct s.
  - replace (-1 * a) with (- a) by ring. rewrite Rabs_Ropp.
    now apply Rabs_pos_eq.
  - rewrite Rmult_1_l. now apply Rabs_pos_eq.
Qed.

Lemma finite_pos (m : positive) (e : Z) : 0 < IZR (Z.pos m) * bpow e.
Proof. apply Rmult_lt_0_compat; [apply IZR_lt; lia|apply bpow_pos]. Qed.

Lemma SF2R_sign (s : bool) (r : spec_float) :
  (r = S754_zero s \/ r = S754_infinity s \/
   exists m e, r = S754_finite s m e) ->
  SF2R r = (if s then -1 else 1) * Rabs (SF2R r).
Proof.
  intros [->|[->|(m & e & ->)]]; cbn [SF2R]; rewrite ?Rabs_R0; try ring.
  rewrite Rabs_signed by (pose proof (finite_pos m e); lra). reflexivity.
Qed.

Lemma rounds_enclosed (s : bool) (a : R) (r : spec_float) :
  0 <= a -> rounds s a r -> enclosed ((if s then -1 else 1) * a) r.
Proof.
  intros Ha [Hc Hb]. split.
  - destruct Hc as [->|[->|(m & e & ->)]]; discriminate.
  - intros A B FA FB HAB HB. rewrite Rabs_signed in HAB by exact Ha.
    destruct (Hb A B FA FB HAB HB) as [F [L U]].
    split; [exact F|]. split; [split; assumption|].
    rewrite (SF2R_sign s r Hc).
    pose proof (Rabs_pos (SF2R r)) as P.
    assert (A0 : 0 <= A) by (destruct FA as (m & e & -> & ? & ?);
      apply Rmult_le_pos; [apply IZR_le; lia|pose proof (bpow_pos e); lra]).
    destruct s; split; intros K; try lra.
    + assert (a = 0) by lra. subst a.
      destruct (Hb 0 0 format_0 format_0 ltac:(lra)
                  ltac:(pose proof (bpow_pos 1024); lra)) as [_ Z0].
      lra.
    + assert (a = 0) by lra. subst a.
      destruct (Hb 0 0 format_0 format_0 ltac:(lra)
                  ltac:(pose proof (bpow_pos 1024); lra)) as [_ Z0].
      lra.
Qed.

Lemma binary_normalize_spec (m e : Z) (szero : bool) :
  enclosed (IZR m * bpow e) (binary_normalize prec emax m e szero).
Proof.
  destruct m as [|p|p]; cbn [binary_normalize].
  - split; [discriminate|]. intros A B FA FB HAB HB.
    rewrite Rmult_0_l, Rabs_R0 in HAB. cbn [is_finite_SF SF2R].
    rewrite Rabs_R0. repeat split; lra.
  - pose proof (rounds_enclosed false _ _
                  (Rlt_le _ _ (finite_pos p e))
                  (binary_round_spec false p e)) as H.
    rewrite Rmult_1_l in H. exact H.
  - pose proof (rounds_enclosed true _ _
                  (Rlt_le _ _ (finite_pos p e))
                  (binary_round_spec true p e)) as H.
    replace (IZR (Z.neg p) * bpow e) with (-1 * (IZR (Z.pos p) * bpow e)).
    + exact H.
    + change (Z.neg p) with (- Z.pos p)%Z. rewrite opp_IZR. ring.
Qed.

Lemma cond_Zopp_value (s : bool) (mx : positive) (ex ez : Z) :
  (ez <= ex)%Z ->
  IZR (cond_Zopp s (Z.pos (fst (shl_align mx ex ez)))) * bpow ez
  = SF2R (S754_finite s mx ex).
Proof.
  intros H. pose proof (shl_align_spec mx ex ez) as S. cbv zeta in S.
  destruct S as (V & _ & E). rewrite Z.min_r in E by exact H.
  rewrite E in V. cbn [SF2R].
  destruct s; cbn [cond_Zopp]; rewrite ?opp_IZR; rewrite <- V; ring.
Qed.

Lemma enclosed_self (x : spec_float) (v : R) :
  is_finite_SF x = true -> v = SF2R x -> enclosed v x.
Proof.
  intros F ->. split; [destruct x; discriminate|].
  intros A B _ _ HAB _. repeat split; try assumption; lra.
Qed.

Theorem SFadd_spec (x y : spec_float) :
  is_finite_SF x = true -> is_finite_SF y = true ->
  enclosed (SF2R x + SF2R y) (SFadd prec emax x y).
Proof.
  intros Fx Fy.
  destruct x as [sx|sx| |sx mx ex]; try discriminate;
    destruct y as [sy|sy| |sy my ey]; try discriminate.
  - apply enclosed_self; [destruct sx, sy; reflexivity|].
    destruct sx, sy; cbn; lra.
  - apply enclosed_self; [reflexivity|]. cbn [SFadd SF2R]. lra.
  - apply enclosed_self; [reflexivity|]. cbn [SFadd SF2R]. lra.
  - cbn [SFadd]. cbv zeta.
    pose proof (binary_normalize_spec
                  (cond_Zopp sx (Z.pos (fst (shl_align mx ex (Z.min ex ey))))
                   + cond_Zopp sy (Z.pos (fst (shl_align my ey (Z.min ex ey)))))
                  (Z.min ex ey) false) as H.
    rewrite plus_IZR, Rmult_plus_distr_r in H.
    rewrite !cond_Zopp_value in H by lia. exact H.
Qed.

Lemma SFsub_add (x y : spec_float) :
  SFsub prec emax x y = SFadd prec emax x (SFopp y).
Proof.
  destruct x as [sx|sx| |sx mx ex]; destruct y as [sy|sy| |sy my ey];
    try reflexivity;
    destruct sx, sy; reflexivity.
Qed.

Lemma SF2R_opp (x : spec_float) : SF2R (SFopp x) = - SF2R x.
Proof.
  destruct x as [s|s| |s m e]; cbn [SFopp SF2R]; try lra.
  destruct s; cbn [negb]; ring.
Qed.

Theorem SFsub_spec (x y : spec_float) :
  is_finite_SF x = true -> is_finite_SF y = true ->
  enclosed (SF2R x - SF2R y) (SFsub prec emax x y).
Proof.
  intros Fx Fy. rewrite SFsub_add.
  replace (SF2R x - SF2R y) with (SF2R x + SF2R (SFopp y))
    by (rewrite SF2R_opp; ring).
  apply SFadd_spec; [exact Fx|]. destruct y; auto.
Qed.

Lemma valid_finite (s : bool) (m : positive) (e : Z) :
  valid_binary (S754_finite s m e) = true ->
  (-1074 <= e <= 971)%Z /\ (Z.pos (digits2_pos m) <= 53)%Z /\
  ((-1074 < e)%Z -> Z.pos (digits2_pos m) = 53%Z).
Proof.
  cbn [SpecFloat.valid_binary]. unfold SpecFloat.bounded, SpecFloat.canonical_mantissa.
  rewrite fexp_eq. intros H. apply andb_prop in H. destruct H as [H1 H2].
  apply Z.eqb_eq in H1. apply Z.leb_le in H2.
  change (emax - prec)%Z with 971%Z in H2. lia.
Qed.

Theorem SFmul_spec (x y : spec_float) :
  valid_binary x = true -> valid_binary y = true ->
  is_finite_SF x = true -> is_finite_SF y = true ->
  enclosed (SF2R x * SF2R y) (SFmul prec emax x y).
Proof.
  intros Vx Vy Fx Fy.
  destruct x as [sx|sx| |sx mx ex]; try discriminate;
    destruct y as [sy|sy| |sy my ey]; try discriminate;
    try (apply enclosed_self; [reflexivity|cbn [SFmul SF2R]; ring]).
  cbn [SFmul].
  destruct (valid_finite _ _ _ Vx) as (Ex & Dx & Cx).
  destruct (valid_finite _ _ _ Vy) as (Ey & Dy & Cy).
  destruct (digits_bounds mx) as [Lx _]. destruct (digits_bounds my) as [Ly _].
  assert (D : (Z.pos (digits2_pos mx) + Z.pos (digits2_pos my) - 1
               <= Zdigits2 (Z.pos (mx * my)))%Z).
  { replace (Z.pos (digits2_pos mx) + Z.pos (digits2_pos my) - 1)%Z
      with ((Z.pos (digits2_pos mx) - 1 + (Z.pos (digits2_pos my) - 1)) + 1)%Z
      by lia.
    apply Zdigits2_ge; [lia|].
    rewrite Z.pow_add_r, Pos2Z.inj_mul by lia.
    apply Z.mul_le_mono_nonneg; lia. }
  pose proof (binary_round_aux_spec (xorb sx sy) (Z.pos (mx * my)) (ex + ey)
                loc_Exact (IZR (Z.pos (mx * my)) * bpow (ex + ey))
                ltac:(lia) ltac:(reflexivity)) as H.
  cbv zeta in H.
  assert (He : (ex + ey <= fexp (Zdigits2 (Z.pos (mx * my)) + (ex + ey)))%Z).
  { rewrite fexp_eq.
    destruct (Z.eq_dec ex (-1074)) as [Hx|Hx];
      destruct (Z.eq_dec ey (-1074)) as [Hy|Hy];
      try specialize (Cx ltac:(lia)); try specialize (Cy ltac:(lia)); lia. }
  specialize (H He).
  pose proof (rounds_enclosed (xorb sx sy) _ _
                (Rlt_le _ _ (finite_pos (mx * my) (ex + ey))) H) as K.
  replace (SF2R (S754_finite sx mx ex) * SF2R (S754_finite sy my ey))
    with ((if xorb sx sy then -1 else 1)
          * (IZR (Z.pos (mx * my)) * bpow (ex + ey))).
  - exact K.
  - cbn [SF2R]. rewrite Pos2Z.inj_mul, mult_IZR, bpow_add.
    destruct sx, sy; cbn [xorb]; ring.
Qed.

Lemma new_location_exact (nb k : Z) :
  exact_loc (new_location nb k) = (k =? 0)%Z.
Proof.
  unfold new_location, new_location_even, new_location_odd.
  destruct (Z.even nb); destruct (k =? 0)%Z; reflexivity.
Qed.

Lemma div_core_spec (mx my : positive) (ex ey : Z) :
  let r := SFdiv_core_binary prec emax (Z.pos mx) ex (Z.pos my) ey in
  let q := fst (fst r) in
  let e' := snd (fst r) in
  (0 <= q)%Z /\
  located q e' (exact_loc (snd r))
    (IZR (Z.pos mx) * bpow ex / (IZR (Z.pos my) * bpow ey)) /\
  (e' <= fexp (Zdigits2 q + e'))%Z.
Proof.
  cbv zeta. unfold SFdiv_core_binary.
  set (d1 := Zdigits2 (Z.pos mx)). set (d2 := Zdigits2 (Z.pos my)).
  set (e' := Z.min (fexp (d1 + ex - (d2 + ey))) (ex - ey)).
  set (s := (ex - ey - e')%Z).
  assert (Hs : (0 <= s)%Z) by (unfold s, e'; lia).
  set (m' := match s with
             | 0%Z => Z.pos mx
             | Z.pos _ => Z.shiftl (Z.pos mx) s
             | Z.neg _ => 0%Z
             end).
  assert (Hm' : m' = (Z.pos mx * 2 ^ s)%Z).
  { unfold m'. destruct s as [|p|p] eqn:E; [lia| |lia].
    apply Z.shiftl_mul_pow2. lia. }
  pose proof (Z_div_mod m' (Z.pos my) ltac:(lia)) as DM.
  destruct (Z.div_eucl m' (Z.pos my)) as [q r]. cbn [fst snd].
  destruct DM as [Eq Hr].
  assert (P2 : (0 < 2 ^ s)%Z) by (apply Z.pow_pos_nonneg; lia).
  assert (Hq : (0 <= q)%Z) by nia.
  split; [exact Hq|]. split.
  - rewrite new_location_exact.
    assert (V : IZR (Z.pos mx) * bpow ex / (IZR (Z.pos my) * bpow ey)
                = (IZR q + IZR r / IZR (Z.pos my)) * bpow e').
    { replace ex with (s + e' + ey)%Z at 1 by (unfold s; lia).
      rewrite !bpow_add, bpow_IZR by exact Hs.
      assert (E2 : IZR (Z.pos mx) * IZR (2 ^ s)
                   = IZR (Z.pos my) * IZR q + IZR r)
        by (rewrite <- !mult_IZR, <- plus_IZR; f_equal; lia).
      pose proof (bpow_pos ey). pose proof (bpow_pos e').
      assert (0 < IZR (Z.pos my)) by (apply IZR_lt; lia).
      field_simplify; [|lra|lra].
      replace (IZR (Z.pos mx) * IZR (2 ^ s) * bpow e')
        with ((IZR (Z.pos my) * IZR q + IZR r) * bpow e')
        by (rewrite <- E2; ring).
      field. lra. }
    rewrite V. unfold located. pose proof (bpow_pos e') as Pb.
    assert (Y : 0 < IZR (Z.pos my)) by (apply IZR_lt; lia).
    destruct (Z.eqb_spec r 0) as [->|Hn].
    + unfold Rdiv. rewrite Rmult_0_l. ring.
    + assert (R1 : 0 < IZR r / IZR (Z.pos my)).
      { apply Rdiv_lt_0_compat; [apply IZR_lt; lia|exact Y]. }
      assert (R2 : IZR r / IZR (Z.pos my) < 1).
      { apply (Rmult_lt_reg_r (IZR (Z.pos my))); [exact Y|].
        unfold Rdiv. rewrite Rmult_assoc, Rinv_l, Rmult_1_r, Rmult_1_l by lra.
        apply IZR_lt. lia. }
      rewrite plus_IZR. nra.
  - set (t := (d1 + ex - (d2 + ey))%Z) in *.
    assert (D : (t - e' <= Zdigits2 q)%Z).
    { pose proof (Zdigits2_nonneg q).
      destruct (Z_le_gt_dec (t - e') 0) as [L|L]; [lia|].
      replace (t - e')%Z with ((t - e' - 1) + 1)%Z by lia.
      apply Zdigits2_ge; [lia|].
      destruct (Zdigits2_bounds (Z.pos mx) ltac:(lia)) as [B1 _].
      destruct (Zdigits2_bounds (Z.pos my) ltac:(lia)) as [_ B2].
      fold d1 in B1. fold d2 in B2.
      assert (Hd1 : (1 <= d1)%Z) by (unfold d1; cbn; lia).
      assert (Hd2 : (1 <= d2)%Z) by (unfold d2; cbn; lia).
      assert (E3 : (2 ^ (d1 - 1) * 2 ^ s = 2 ^ (t - e' - 1) * 2 ^ d2)%Z).
      { rewrite <- Z.pow_add_r by lia. rewrite <- Z.pow_add_r by lia.
        f_equal. unfold t, s. lia. }
      assert (0 < 2 ^ (t - e' - 1))%Z by (apply Z.pow_pos_nonneg; lia).
      destruct (Z_le_gt_dec (2 ^ (t - e' - 1)) q) as [G|G]; [exact G|].
      exfalso. nia. }
    rewrite fexp_eq. unfold e' at 1. fold t. rewrite fexp_eq. lia.
Qed.

Theorem SFdiv_spec (x y : spec_float) (sy : bool) (my : positive) (ey : Z) :
  is_finite_SF x = true -> y = S754_finite sy my ey ->
  enclosed (SF2R x / SF2R y) (SFdiv prec emax x y).
Proof.
  intros Fx ->.
  destruct x as [sx|sx| |sx mx ex]; try discriminate.
  - apply enclosed_self; [reflexivity|]. cbn [SFdiv SF2R]. unfold Rdiv. ring.
  - cbn [SFdiv].
    pose proof (div_core_spec mx my ex ey) as H. cbv zeta in H.
    destruct (SFdiv_core_binary prec emax (Z.pos mx) ex (Z.pos my) ey)
      as [[q e'] l]. cbn [fst snd] in H. destruct H as (Hq & Hl & He).
    pose proof (binary_round_aux_spec (xorb sx sy) q e' l _ Hq Hl He) as R.
    cbv zeta in R.
    assert (P : 0 <= IZR (Z.pos mx) * bpow ex / (IZR (Z.pos my) * bpow ey)).
    { apply Rlt_le, Rdiv_lt_0_compat; apply finite_pos. }
    pose proof (rounds_enclosed (xorb sx sy) _ _ P R) as K.
    replace (SF2R (S754_finite sx mx ex) / SF2R (S754_finite sy my ey))
      with ((if xorb sx sy then -1 else 1)
            * (IZR (Z.pos mx) * bpow ex / (IZR (Z.pos my) * bpow ey))).
    + exact K.
    + cbn [SF2R]. pose proof (finite_pos my ey) as Py.
      set (a := IZR (Z.pos mx) * bpow ex) in *.
      set (b := IZR (Z.pos my) * bpow ey) in *.
      destruct sx, sy; cbn [xorb]; field; lra.
Qed.

Lemma SFdiv_by_infinity (x : spec_float) (s : bool) :
  is_finite_SF x = true ->
  exists s', SFdiv prec emax x (S754_infinity s) = S754_zero s'.
Proof. destruct x; try discriminate; intros _; eexists; reflexivity. Qed.

Lemma sqrt_core_spec (mx : positive) (ex : Z) (v : R) :
  0 <= v -> v * v = IZR (Z.pos mx) * bpow ex ->
  let r := SFsqrt_core_binary prec emax (Z.pos mx) ex in
  let q := fst (fst r) in
  let e' := snd (fst r) in
  (0 <= q)%Z /\ located q e' (exact_loc (snd r)) v /\
  (e' <= fexp (Zdigits2 q + e'))%Z.
Proof.
  intros Hv Hvv. cbv zeta. unfold SFsqrt_core_binary.
  set (d := Zdigits2 (Z.pos mx)).
  set (e' := Z.min (fexp (Z.div2 (d + ex + 1))) (Z.div2 ex)).
  set (s := (ex - 2 * e')%Z).
  assert (Hs : (0 <= s)%Z).
  { unfold s, e'. rewrite (Z.div2_div ex).
    pose proof (Z.mul_div_le ex 2 ltac:(lia)). lia. }
  set (m' := match s with
             | 0%Z => Z.pos mx
             | Z.pos _ => Z.shiftl (Z.pos mx) s
             | Z.neg _ => 0%Z
             end).
  assert (Hm' : m' = (Z.pos mx * 2 ^ s)%Z).
  { unfold m'. destruct s as [|p|p] eqn:E; [lia| |lia].
    apply Z.shiftl_mul_pow2. lia. }
  assert (P2 : (0 < 2 ^ s)%Z) by (apply Z.pow_pos_nonneg; lia).
  pose proof (Z.sqrtrem_spec m' ltac:(nia)) as SQ.
  destruct (Z.sqrtrem m') as [q r]. cbn [fst snd].
  destruct SQ as [Eq Hr].
  assert (Hq : (0 <= q)%Z) by lia.
  split; [exact Hq|].
  set (w := v / bpow e').
  pose proof (bpow_pos e') as Pb.
  assert (Hw : 0 <= w) by (apply Rle_mult_inv_pos; assumption).
  assert (Ev : v = w * bpow e') by (unfold w; field; lra).
  assert (Ew : w * w = IZR q * IZR q + IZR r).
  { rewrite <- mult_IZR, <- plus_IZR, <- Eq, Hm', mult_IZR.
    rewrite <- bpow_IZR by exact Hs.
    assert (E1 : bpow ex = bpow s * (bpow e' * bpow e')).
    { rewrite <- !bpow_add. f_equal. unfold s. lia. }
    unfold w. rewrite E1 in Hvv. field_simplify; [|lra].
    rewrite <- Rsqr_pow2. unfold Rsqr. rewrite Hvv. field. lra. }
  assert (Q0 : 0 <= IZR q) by (apply IZR_le; exact Hq).
  split.
  - destruct (Z.eqb_spec r 0) as [->|Hn].
    + cbn [exact_loc located]. rewrite Ev. f_equal. nra.
    + cbn [exact_loc located]. rewrite Ev, plus_IZR.
      assert (R1 : 0 < IZR r) by (apply IZR_lt; lia).
      assert (R2 : IZR r <= 2 * IZR q)
        by (rewrite <- mult_IZR; apply IZR_le; lia).
      split; apply Rmult_lt_compat_r; try exact Pb; nra.
  - assert (Hm1 : (1 <= m')%Z) by nia.
    assert (Hq1 : (1 <= q)%Z) by nia.
    destruct (Zdigits2_bounds q ltac:(lia)) as [_ U].
    destruct (Zdigits2_bounds (Z.pos mx) ltac:(lia)) as [L _]. fold d in L.
    pose proof (Zdigits2_nonneg q) as Dq.
    assert (D : (d + s <= 2 * Zdigits2 q)%Z).
    { destruct (Z_le_gt_dec (d + s) (2 * Zdigits2 q)) as [G|G]; [exact G|].
      exfalso.
      assert (K1 : (2 ^ (2 * Zdigits2 q) <= 2 ^ (d - 1 + s))%Z)
        by (apply Z.pow_le_mono_r; lia).
      assert (P3 : (0 < 2 ^ Zdigits2 q)%Z) by (apply Z.pow_pos_nonneg; lia).
      assert (Hd : (1 <= d)%Z) by (unfold d; cbn [Zdigits2]; lia).
      assert (K2 : (2 ^ (d - 1 + s) = 2 ^ (d - 1) * 2 ^ s)%Z)
        by (apply Z.pow_add_r; lia).
      assert (K3 : (2 ^ (2 * Zdigits2 q) = 2 ^ Zdigits2 q * 2 ^ Zdigits2 q)%Z).
      { rewrite <- Z.pow_add_r by lia. f_equal. lia. }
      nia. }
    unfold s in D. unfold e' in D |- *.
    rewrite !fexp_eq, !Z.div2_div in *.
    Z.div_mod_to_equations. lia.
Qed.

Theorem SFsqrt_spec (mx : positive) (ex : Z) :
  rounds false (R_sqrt.sqrt (IZR (Z.pos mx) * bpow ex))
    (SFsqrt prec emax (S754_finite false mx ex)).
Proof.
  cbn [SFsqrt].
  pose proof (finite_pos mx ex) as P.
  pose proof (sqrt_core_spec mx ex (R_sqrt.sqrt (IZR (Z.pos mx) * bpow ex))
                (sqrt_pos _) (sqrt_sqrt _ (Rlt_le _ _ P))) as H.
  cbv zeta in H.
  destruct (SFsqrt_core_binary prec emax (Z.pos mx) ex) as [[q e'] l].
  cbn [fst snd] in H. destruct H as (Hq & Hl & He).
  exact (binary_round_aux_spec false q e' l _ Hq Hl He).
Qed.

(** The order of two numbers of the format is the order of their values. *)
Lemma finite_lt (m1 m2 : positive) (e1 e2 : Z) (s1 s2 : bool) :
  valid_binary (S754_finite s1 m1 e1) = true ->
  valid_binary (S754_finite s2 m2 e2) = true ->
  (e1 < e2)%Z -> IZR (Z.pos m1) * bpow e1 < IZR (Z.pos m2) * bpow e2.
Proof.
  intros V1 V2 H.
  destruct (valid_finite _ _ _ V1) as (E1 & D1 & _).
  destruct (valid_finite _ _ _ V2) as (E2 & _ & C2).
  specialize (C2 ltac:(lia)).
  destruct (digits_bounds m1) as [_ U1]. destruct (digits_bounds m2) as [L2 _].
  rewrite C2 in L2.
  assert (K0 : (Z.pos m1 < 2 ^ 53)%Z).
  { assert (2 ^ Z.pos (digits2_pos m1) <= 2 ^ 53)%Z
      by (apply Z.pow_le_mono_r; lia). lia. }
  assert (K1 : IZR (Z.pos m1) * bpow e1 < IZR (2 ^ 53) * bpow e1)
    by (apply scaled_lt; exact K0).
  assert (K2 : IZR (2 ^ 53) * bpow e1 <= IZR (2 ^ 52) * bpow e2).
  { rewrite <- !bpow_IZR, <- !bpow_add by lia. apply bpow_le. lia. }
  assert (K3 : IZR (2 ^ 52) * bpow e2 <= IZR (Z.pos m2) * bpow e2)
    by (apply scaled_le; exact L2).
  lra.
Qed.

Lemma finite_compare (m1 m2 : positive) (e1 e2 : Z) (s1 s2 : bool) :
  valid_binary (S754_finite s1 m1 e1) = true ->
  valid_binary (S754_finite s2 m2 e2) = true ->
  match match (e1 ?= e2)%Z with
        | Lt => Lt
        | Gt => Gt
        | Eq => Pos.compare_cont Eq m1 m2
        end with
  | Lt => IZR (Z.pos m1) * bpow e1 < IZR (Z.pos m2) * bpow e2
  | Eq => IZR (Z.pos m1) * bpow e1 = IZR (Z.pos m2) * bpow e2
  | Gt => IZR (Z.pos m2) * bpow e2 < IZR (Z.pos m1) * bpow e1
  end.
Proof.
  intros V1 V2. destruct (Z.compare_spec e1 e2) as [->|H|H].
  - change (Pos.compare_cont Eq m1 m2) with (m1 ?= m2)%positive.
    destruct (Pos.compare_spec m1 m2) as [->|K|K].
    + reflexivity.
    + apply scaled_lt. lia.
    + apply scaled_lt. lia.
  - exact (finite_lt _ _ _ _ _ _ V1 V2 H).
  - exact (finite_lt _ _ _ _ _ _ V2 V1 H).
Qed.

Theorem SFcompare_spec (x y : spec_float) :
  valid_binary x = true -> valid_binary y = true ->
  is_finite_SF x = true -> is_finite_SF y = true ->
  match SFcompare x y with
  | Some Lt => SF2R x < SF2R y
  | Some Eq => SF2R x = SF2R y
  | Some Gt => SF2R y < SF2R x
  | None => False
  end.
Proof.
  intros Vx Vy Fx Fy.
  destruct x as [sx|sx| |sx mx ex]; try discriminate;
    destruct y as [sy|sy| |sy my ey]; try discriminate; cbn [SFcompare SF2R].
  - reflexivity.
  - pose proof (finite_pos my ey). destruct sy; lra.
  - pose proof (finite_pos mx ex). destruct sx; lra.
  - pose proof (finite_pos mx ex). pose proof (finite_pos my ey).
    pose proof (finite_compare mx my ex ey sx sy Vx Vy) as C.
    destruct sx, sy; try lra.
    + destruct (ex ?= ey)%Z; [destruct (Pos.compare_cont Eq mx my)| |];
        cbn [CompOpp]; lra.
    + destruct (ex ?= ey)%Z; [destruct (Pos.compare_cont Eq mx my)| |]; lra.
Qed.

(** ** Binary64 numbers *)

Lemma bounded_finite (B : R) (x : float) : bounded B x -> finite x.
Proof. now intros [H _]. Qed.

Lemma bounded_le (B B' : R) (x : float) :
  bounded B x -> B <= B' -> bounded B' x.
Proof. intros [F H] L. split; [exact F|lra]. Qed.

Lemma bounded_mono (j k : Z) (x : float) :
  bounded (bpow j) x -> (j <= k)%Z -> bounded (bpow k) x.
Proof. intros H L. apply (bounded_le _ _ _ H). now apply bpow_le. Qed.

Lemma format_nonneg (A : R) : format A -> 0 <= A.
Proof.
  intros (m & e & -> & ? & ?).
  apply Rmult_le_pos; [apply IZR_le; lia|pose proof (bpow_pos e); lra].
Qed.

Lemma enclosed_bounded (v : R) (x : float) (B : R) :
  enclosed v (Prim2SF x) -> format B -> Rabs v <= B -> B < bpow 1024 ->
  bounded B x.
Proof.
  intros [_ H] FB HB HL.
  destruct (H 0 B format_0 FB ltac:(pose proof (Rabs_pos v); lra) HL)
    as (F & [_ U] & _).
  split; assumption.
Qed.

Lemma add_enclosed (a b : float) :
  finite a -> finite b ->
  enclosed (FR a + FR b) (Prim2SF (a + b)%float).
Proof. intros Fa Fb. rewrite add_spec. now apply SFadd_spec. Qed.

Lemma sub_enclosed (a b : float) :
  finite a -> finite b ->
  enclosed (FR a - FR b) (Prim2SF (a - b)%float).
Proof. intros Fa Fb. rewrite sub_spec. now apply SFsub_spec. Qed.

Lemma mul_enclosed (a b : float) :
  finite a -> finite b ->
  enclosed (FR a * FR b) (Prim2SF (a * b)%float).
Proof.
  intros Fa Fb. rewrite mul_spec.
  apply SFmul_spec; auto using Prim2SF_valid.
Qed.

Lemma finite_nonzero (b : float) :
  finite b -> FR b <> 0 -> exists s m e, Prim2SF b = S754_finite s m e.
Proof.
  unfold finite, FR. destruct (Prim2SF b) as [s|s| |s m e]; try discriminate.
  - cbn. intros _ H. now contradiction H.
  - intros _ _. eauto.
Qed.

Lemma div_enclosed (a b : float) :
  finite a -> finite b -> FR b <> 0 ->
  enclosed (FR a / FR b) (Prim2SF (a / b)%float).
Proof.
  intros Fa Fb Hb. rewrite div_spec.
  destruct (finite_nonzero b Fb Hb) as (s & m & e & E).
  unfold FR. rewrite E. now apply (SFdiv_spec _ _ s m e).
Qed.

Lemma add_bounded (j k l : Z) (a b : float) :
  bounded (bpow j) a -> bounded (bpow k) b ->
  (j < l)%Z -> (k < l)%Z -> (-1074 <= l < 1024)%Z ->
  bounded (bpow l) (a + b)%float.
Proof.
  intros [Fa Ha] [Fb Hb] Hj Hk Hl.
  apply (enclosed_bounded _ _ _ (add_enclosed a b Fa Fb)).
  - apply format_bpow. lia.
  - pose proof (Rabs_triang (FR a) (FR b)).
    pose proof (bpow_le j (l - 1) ltac:(lia)).
    pose proof (bpow_le k (l - 1) ltac:(lia)).
    replace l with ((l - 1) + 1)%Z at 1 by lia. rewrite bpow_S. lra.
  - apply bpow_lt. lia.
Qed.

Lemma sub_bounded (j k l : Z) (a b : float) :
  bounded (bpow j) a -> bounded (bpow k) b ->
  (j < l)%Z -> (k < l)%Z -> (-1074 <= l < 1024)%Z ->
  bounded (bpow l) (a - b)%float.
Proof.
  intros [Fa Ha] [Fb Hb] Hj Hk Hl.
  apply (enclosed_bounded _ _ _ (sub_enclosed a b Fa Fb)).
  - apply format_bpow. lia.
  - pose proof (Rabs_triang (FR a) (- FR b)). rewrite Rabs_Ropp in H.
    pose proof (bpow_le j (l - 1) ltac:(lia)).
    pose proof (bpow_le k (l - 1) ltac:(lia)).
    replace l with ((l - 1) + 1)%Z at 1 by lia. rewrite bpow_S.
    unfold Rminus. lra.
  - apply bpow_lt. lia.
Qed.

Lemma mul_bounded (j k l : Z) (a b : float) :
  bounded (bpow j) a -> bounded (bpow k) b ->
  (j + k <= l)%Z -> (-1074 <= l < 1024)%Z ->
  bounded (bpow l) (a * b)%float.
Proof.
  intros [Fa Ha] [Fb Hb] Hj Hl.
  apply (enclosed_bounded _ _ _ (mul_enclosed a b Fa Fb)).
  - apply format_bpow. lia.
  - rewrite Rabs_mult.
    pose proof (Rabs_pos (FR a)). pose proof (Rabs_pos (FR b)).
    pose proof (bpow_le (j + k) l Hj) as L. rewrite bpow_add in L.
    pose proof (bpow_pos j). pose proof (bpow_pos k). nra.
  - apply bpow_lt. lia.
Qed.

(** A quotient by a number of magnitude at least [2^k]. *)
Lemma div_bounded (j k l : Z) (a b : float) :
  bounded (bpow j) a -> finite b -> bpow k <= Rabs (FR b) ->
  (j - k <= l)%Z -> (-1074 <= l < 1024)%Z ->
  bounded (bpow l) (a / b)%float.
Proof.
  intros [Fa Ha] Fb Hb Hj Hl.
  pose proof (bpow_pos k) as Pk.
  assert (Nz : FR b <> 0).
  { intros E. rewrite E, Rabs_R0 in Hb. lra. }
  apply (enclosed_bounded _ _ _ (div_enclosed a b Fa Fb Nz)).
  - apply format_bpow. lia.
  - unfold Rdiv. rewrite Rabs_mult, Rabs_inv.
    apply (Rmult_le_reg_r (Rabs (FR b))); [lra|].
    rewrite Rmult_assoc, Rinv_l, Rmult_1_r by lra.
    pose proof (bpow_le (j - k) l Hj) as L.
    assert (E : bpow j = bpow (j - k) * bpow k)
      by (rewrite <- bpow_add; f_equal; lia).
    pose proof (bpow_pos (j - k)). pose proof (bpow_pos l). nra.
  - apply bpow_lt. lia.
Qed.

(** The square root of a number that is not negative. *)
Lemma sqrt_enclosed (a : float) (A B : R) :
  finite a -> 0 <= FR a -> format A -> format B ->
  A * A <= FR a <= B * B -> B < bpow 1024 ->
  finite (PrimFloat.sqrt a) /\ A <= FR (PrimFloat.sqrt a) <= B.
Proof.
  intros Fa Ha FA FB [HA HB] HL. unfold finite, FR in *.
  rewrite sqrt_spec. unfold SF64sqrt.
  pose proof (format_nonneg A FA) as A0. pose proof (format_nonneg B FB) as B0.
  destruct (Prim2SF a) as [s|s| |s m e]; try discriminate.
  - cbn [SF2R] in *. cbn. split; [reflexivity|]. split; nra.
  - destruct s.
    + cbn [SF2R] in Ha. pose proof (finite_pos m e). lra.
    + cbn [SF2R] in HA, HB. rewrite Rmult_1_l in HA, HB.
      destruct (SFsqrt_spec m e) as [C K].
      assert (S1 : A <= R_sqrt.sqrt (IZR (Z.pos m) * bpow e)).
      { rewrite <- (sqrt_square A) by exact A0. now apply sqrt_le_1_alt. }
      assert (S2 : R_sqrt.sqrt (IZR (Z.pos m) * bpow e) <= B).
      { rewrite <- (sqrt_square B) by exact B0. now apply sqrt_le_1_alt. }
      destruct (K A B FA FB (conj S1 S2) HL) as [F E].
      split; [exact F|].
      rewrite (SF2R_sign false _ C), Rmult_1_l. exact E.
Qed.

(** The order tests on numbers. *)
Lemma ltb_finite (a b : float) :
  finite a -> finite b -> ((a <? b)%float = true <-> FR a < FR b).
Proof.
  intros Fa Fb. rewrite ltb_spec. unfold SFltb, FR.
  pose proof (SFcompare_spec _ _ (Prim2SF_valid a) (Prim2SF_valid b) Fa Fb)
    as C.
  destruct (SFcompare (Prim2SF a) (Prim2SF b)) as [[ | | ]|];
    split; intros H; try discriminate; try reflexivity; try lra;
    try contradiction.
Qed.

Lemma leb_finite (a b : float) :
  finite a -> finite b -> ((a <=? b)%float = true <-> FR a <= FR b).
Proof.
  intros Fa Fb. rewrite leb_spec. unfold SFleb, FR.
  pose proof (SFcompare_spec _ _ (Prim2SF_valid a) (Prim2SF_valid b) Fa Fb)
    as C.
  destruct (SFcompare (Prim2SF a) (Prim2SF b)) as [[ | | ]|];
    split; intros H; try discriminate; try reflexivity; try lra;
    try contradiction.
Qed.

Lemma finite_not_nan (a : float) : finite a -> is_nan a = false.
Proof.
  unfold finite. intros H. destruct (is_nan a) eqn:E; [|reflexivity].
  unfold Prim2SF in H. rewrite E in H. discriminate.
Qed.

Lemma below_bounded (k : Z) (x : float) :
  below k x = true -> bounded (bpow k) x.
Proof.
  unfold below, bounded, finite, FR.
  destruct (Prim2SF x) as [s|s| |s m e]; try discriminate; intros H.
  - cbn. rewrite Rabs_R0. split; [reflexivity|].
    pose proof (bpow_pos k). lra.
  - split; [reflexivity|]. cbn [SF2R].
    rewrite Rabs_signed by (pose proof (finite_pos m e); lra).
    apply Z.leb_le in H.
    assert (K : (e <= k)%Z).
    { destruct (Z_le_gt_dec e k) as [L|L]; [exact L|].
      rewrite Z.pow_neg_r in H by lia. lia. }
    replace k with ((k - e) + e)%Z at 1 by lia.
    rewrite bpow_add, (bpow_IZR (k - e)) by lia. apply scaled_le. exact H.
Qed.

Lemma above_bound (k : Z) (x : float) :
  above k x = true -> finite x /\ bpow k <= FR x.
Proof.
  unfold above, finite, FR.
  destruct (Prim2SF x) as [s|s| |[|] m e]; try discriminate; intros H.
  split; [reflexivity|]. cbn [SF2R]. rewrite Rmult_1_l.
  destruct (Z_le_gt_dec k e) as [L|L].
  - pose proof (bpow_le k e L). pose proof (bpow_pos e).
    assert (1 <= IZR (Z.pos m)) by (apply IZR_le; lia). nra.
  - apply orb_prop in H. destruct H as [H|H]; [apply Z.leb_le in H; lia|].
    apply Z.leb_le in H.
    replace k with ((k - e) + e)%Z at 1 by lia.
    rewrite bpow_add, (bpow_IZR (k - e)) by lia. apply scaled_le. exact H.
Qed.

(** A positive number is at least the least positive one. *)
Lemma positive_least (x : float) :
  finite x -> 0 < FR x -> bpow (-1074) <= FR x.
Proof.
  unfold finite, FR. intros F H. pose proof (Prim2SF_valid x) as V.
  destruct (Prim2SF x) as [s|s| |s m e]; try discriminate; cbn [SF2R] in *.
  - lra.
  - pose proof (finite_pos m e). destruct s; [lra|]. rewrite Rmult_1_l.
    destruct (valid_finite _ _ _ V) as (E & _).
    pose proof (bpow_le (-1074) e ltac:(lia)). pose proof (bpow_pos e).
    assert (1 <= IZR (Z.pos m)) by (apply IZR_le; lia). nra.
Qed.

(** A number that is not zero lies between two consecutive powers of two. *)
Lemma binade (x : float) :
  finite x -> FR x <> 0 ->
  exists k, (-1075 <= k < 1024)%Z /\ bpow k <= Rabs (FR x) < bpow (k + 1).
Proof.
  intros F H. destruct (finite_nonzero x F H) as (s & m & e & E).
  pose proof (Prim2SF_valid x) as V. unfold FR. rewrite E in *.
  destruct (valid_finite _ _ _ V) as (He & Hd & _).
  destruct (digits_bounds m) as [L U].
  exists (Z.pos (digits2_pos m) - 1 + e)%Z. split; [lia|].
  cbn [SF2R]. rewrite Rabs_signed by (pose proof (finite_pos m e); lra).
  replace (Z.pos (digits2_pos m) - 1 + e + 1)%Z
    with (Z.pos (digits2_pos m) + e)%Z by lia.
  rewrite !bpow_add, (bpow_IZR (Z.pos (digits2_pos m) - 1)),
    (bpow_IZR (Z.pos (digits2_pos m))) by lia.
  split; [apply scaled_le|apply scaled_lt]; assumption.
Qed.

End FloatValue.

(** ** The store of units and the spatial queries *)

Section Store.

Lemma upd_length (i : nat) (f : Unit -> Unit) (us : list Unit) :
  length (upd i f us) = length us.
Proof.
  revert i; induction us as [|u us IH]; intros [|i]; cbn; auto.
Qed.

Lemma get_upd_same (i : nat) (f : Unit -> Unit) (us : list Unit) :
  (i < length us)%nat -> get (upd i f us) i = f (get us i).
Proof.
  unfold get. revert i; induction us as [|u us IH]; intros [|i] H; cbn in *;
    try lia; auto.
  apply IH; lia.
Qed.

Lemma get_upd_other (i j : nat) (f : Unit -> Unit) (us : list Unit) :
  i <> j -> get (upd i f us) j = get us j.
Proof.
  unfold get. revert i j; induction us as [|u us IH]; intros [|i] [|j] H;
    cbn; auto; try congruence.
Qed.

(** A mutation that keeps the type keeps every type of the list. *)
Lemma upd_keeps_types (i : nat) (f : Unit -> Unit) (us : list Unit) :
  (forall u, unit_type (f u) = unit_type u) ->
  map unit_type (upd i f us) = map unit_type us.
Proof.
  intros Hf. revert i; induction us as [|u us IH]; intros [|i]; cbn;
    f_equal; auto.
Qed.

Lemma upd_keeps_pos (i : nat) (f : Unit -> Unit) (us : list Unit) :
  (forall u, pos (f u) = pos u) -> map pos (upd i f us) = map pos us.
Proof.
  intros Hf. revert i; induction us as [|u us IH]; intros [|i]; cbn;
    f_equal; auto.
Qed.

Lemma get_map {A} (f : Unit -> A) (us vs : list Unit) (i : nat) :
  map f us = map f vs -> f (get us i) = f (get vs i).
Proof.
  unfold get. revert vs i; induction us as [|u us IH]; intros [|v vs] i H;
    cbn in H; try discriminate.
  - reflexivity.
  - injection H as H0 H1. destruct i; cbn; auto.
Qed.

End Store.

Section Queries.

Lemma query_ball_point_In (data : list (float * float)) (q : float * float)
  (r : float) (i : nat) :
  In i (Py.query_ball_point data q r) <->
  (i < length data)%nat /\ (Py.dist (nth i data (0, 0)) q <=? r) = true.
Proof.
  unfold Py.query_ball_point. rewrite filter_In, in_seq. intuition lia.
Qed.

Lemma query_radius_In (us : list Unit) (st : SpatialTree) (self : nat)
  (radius : float) (u : nat) :
  In u (query_radius us st self radius) <->
  u <> self /\ (u < length (tree st))%nat /\
  (Py.dist (nth u (tree st) (0, 0)) (pos (get us self)) <=? radius) = true.
Proof.
  unfold query_radius. rewrite filter_In, query_ball_point_In.
  rewrite negb_true_iff, Nat.eqb_neq. intuition.
Qed.

Lemma query_by_type_In (us : list Unit) (st : SpatialTree) (self : nat)
  (radius : float) (t : Z) (u : nat) :
  In u (query_by_type us st self radius t) <->
  (u <> self /\ (u < length (tree st))%nat /\
   (Py.dist (nth u (tree st) (0, 0)) (pos (get us self)) <=? radius) = true)
  /\ unit_type (get us u) = t.
Proof.
  unfold query_by_type. rewrite filter_In, query_radius_In, Z.eqb_eq.
  reflexivity.
Qed.

Lemma insert_by_dist_In (e a : nat * float) (l : list (nat * float)) :
  In a (Py.insert_by_dist e l) <-> a = e \/ In a l.
Proof.
  induction l as [|e' l IH]; cbn.
  - intuition.
  - destruct (snd e <? snd e'); cbn; rewrite ?IH; intuition.
Qed.

Lemma sort_by_dist_In (a : nat * float) (l : list (nat * float)) :
  In a (Py.sort_by_dist l) <-> In a l.
Proof.
  unfold Py.sort_by_dist.
  assert (G : forall acc, In a (fold_left (fun acc e => Py.insert_by_dist e acc) l acc)
                          <-> In a l \/ In a acc).
  { induction l as [|e l IH]; intros acc; cbn.
    - intuition.
    - rewrite IH, insert_by_dist_In. intuition. }
  rewrite G. cbn. intuition.
Qed.

Lemma firstn_incl {A} (k : nat) (l : list A) (a : A) :
  In a (firstn k l) -> In a l.
Proof.
  intros H. rewrite <- (firstn_skipn k l). apply in_or_app. now left.
Qed.

Lemma query_In (data : list (float * float)) (q : float * float) (k : nat)
  (r : nat * float) :
  In r (Py.query data q k) -> (fst r < length data)%nat.
Proof.
  unfold Py.query. intros H. apply firstn_incl in H.
  rewrite sort_by_dist_In in H. apply in_map_iff in H.
  destruct H as [i [<- Hi]]. apply in_seq in Hi. cbn. lia.
Qed.

(** Every candidate of [find_nearest_of_type] is another unit of the type
    asked for. *)
Lemma find_nearest_of_type_In (us : list Unit) (self : nat) (t : Z)
  (k : nat) (c : nat * float) :
  In c (find_nearest_of_type us self t k) ->
  unit_type (get us (fst c)) = t /\ fst c <> self.
Proof.
  unfold find_nearest_of_type.
  set (tu := filter _ _).
  destruct tu as [|u0 tu'] eqn:Etu; [intros []|].
  rewrite <- Etu. clear Etu u0 tu'.
  destruct (0 <? length (map (fun u => pos (get us u)) tu))%nat; [|intros []].
  intros H. apply in_map_iff in H. destruct H as [r [<- Hr]].
  apply query_In in Hr. rewrite length_map in Hr. cbn [fst].
  assert (Hin : In (nth (fst r) tu 0%nat) tu) by (apply nth_In; exact Hr).
  unfold tu in Hin at 2. apply filter_In in Hin.
  destruct Hin as [_ Hin]. apply andb_true_iff in Hin.
  destruct Hin as [Ht Hs]. apply Z.eqb_eq in Ht.
  apply negb_true_iff, Nat.eqb_neq in Hs. auto.
Qed.

(** [random.randint] stays within its two ends. *)
Lemma randint_range (a b : Z) (g : Py.Rng) :
  (a <= b)%Z -> (a <= fst (Py.randint a b g) <= b)%Z.
Proof.
  intros H. unfold Py.randint. cbn [fst].
  pose proof (Z.mod_pos_bound (Py.ints g (Py.cursor g)) (b - a + 1)).
  lia.
Qed.

(** A target is one of the candidates. *)
Lemma find_target_In (us : list Unit) (self : nat) (g g' : Py.Rng)
  (tg : nat) :
  find_target us self g = (Some tg, g') ->
  exists d, In (tg, d)
    (find_nearest_of_type us self ((unit_type (get us self) + 2) mod 3)%Z 3).
Proof.
  unfold find_target.
  set (pts := find_nearest_of_type _ _ _ _).
  destruct pts as [|c0 rest] eqn:E; [discriminate|].
  rewrite <- E. assert (Hlen : (0 < length pts)%nat) by (rewrite E; cbn; lia).
  clear E c0 rest.
  destruct (0 <? length pts)%nat; [|discriminate].
  unfold Py.random.
  destruct ((Py.floats g (Py.cursor g) <? 0.95) || (length pts =? 1)%nat) eqn:B.
  - intros H. injection H as H _.
    exists (snd (nth 0 pts (0%nat, 0))). rewrite <- H, <- surjective_pairing.
    apply nth_In. exact Hlen.
  - apply orb_false_iff in B. destruct B as [_ B]. apply Nat.eqb_neq in B.
    pose proof (randint_range 1 (Z.of_nat (length pts) - 1) (Py.advance g)) as Hk.
    destruct (Py.randint 1 (Z.of_nat (length pts) - 1) (Py.advance g))
      as [k g2]. cbn [fst] in Hk.
    intros H. injection H as H _.
    exists (snd (nth (Z.to_nat k) pts (0%nat, 0))).
    rewrite <- H, <- surjective_pairing.
    apply nth_In. lia.
Qed.

End Queries.

(** ** The nearest candidates *)

Section Nearest.

Lemma insert_by_dist_head (e : nat * float) (l : list (nat * float)) :
  Py.head_minimal l -> Py.head_minimal (Py.insert_by_dist e l).
Proof.
  unfold Py.head_minimal. destruct l as [|e1 l']; cbn [Py.insert_by_dist].
  - intros _ e' [<-|[]]. apply FloatOrder.ltb_irrefl.
  - intros H. destruct (snd e <? snd e1) eqn:E; cbn [hd].
    + intros e' [<-|He']; [apply FloatOrder.ltb_irrefl|].
      specialize (H e' He'). cbn [hd] in H.
      destruct (snd e' <? snd e) eqn:E'; [|reflexivity].
      rewrite (FloatOrder.ltb_trans _ _ _ E' E) in H. discriminate.
    + intros e' [<-|He'].
      * apply (H e1). now left.
      * apply insert_by_dist_In in He'. destruct He' as [->|He'].
        -- exact E.
        -- apply (H e'). now right.
Qed.

Lemma sort_by_dist_head (l : list (nat * float)) :
  Py.head_minimal (Py.sort_by_dist l).
Proof.
  unfold Py.sort_by_dist.
  assert (G : forall acc, Py.head_minimal acc ->
                          Py.head_minimal
                            (fold_left (fun acc e => Py.insert_by_dist e acc)
                                       l acc)).
  { induction l as [|e l IH]; intros acc H; cbn [fold_left]; [exact H|].
    apply IH. apply insert_by_dist_head. exact H. }
  apply G. intros e [].
Qed.

Lemma query_dist (data : list (float * float)) (q : float * float) (k : nat)
  (r : nat * float) :
  In r (Py.query data q k) -> snd r = Py.dist (nth (fst r) data (0, 0)) q.
Proof.
  unfold Py.query. intros H. apply firstn_incl in H.
  rewrite sort_by_dist_In in H. apply in_map_iff in H.
  destruct H as [i [<- _]]. reflexivity.
Qed.

Lemma nth_map_get (f : nat -> float * float) (l : list nat) (i : nat) :
  (i < length l)%nat -> nth i (map f l) (0, 0) = f (nth i l 0%nat).
Proof.
  intros H. rewrite (nth_indep _ (0, 0) (f 0%nat))
    by (rewrite length_map; exact H).
  apply map_nth.
Qed.

(** The distance that comes with a candidate is its distance to [self]. *)
Lemma find_nearest_of_type_dist (us : list Unit) (self : nat) (t : Z)
  (k : nat) (c : nat * float) :
  In c (find_nearest_of_type us self t k) ->
  snd c = Py.dist (pos (get us (fst c))) (pos (get us self)).
Proof.
  unfold find_nearest_of_type.
  set (tu := filter _ _).
  destruct tu as [|u0 tu'] eqn:Etu; [intros []|].
  rewrite <- Etu. clear Etu u0 tu'.
  destruct (0 <? length (map (fun u => pos (get us u)) tu))%nat; [|intros []].
  intros H. apply in_map_iff in H. destruct H as [r [<- Hr]].
  pose proof (query_In _ _ _ _ Hr) as Hlt. rewrite length_map in Hlt.
  apply query_dist in Hr. cbn [fst snd]. rewrite Hr.
  now rewrite nth_map_get by exact Hlt.
Qed.

(** The first candidate is at least as near as every other unit of the type
    asked for. *)
Lemma nearest_is_minimal (us : list Unit) (self : nat) (t : Z) (k u : nat) :
  (1 <= k)%nat -> (u < length us)%nat -> unit_type (get us u) = t ->
  u <> self ->
  find_nearest_of_type us self t k <> [] /\
  (Py.dist (pos (get us u)) (pos (get us self))
     <? snd (nth 0 (find_nearest_of_type us self t k) (0%nat, 0))) = false.
Proof.
  intros Hk Hu Ht Hs. unfold find_nearest_of_type.
  set (tu := filter _ _).
  assert (Hin : In u tu).
  { unfold tu. apply filter_In. split; [apply in_seq; lia|].
    apply andb_true_iff. split; [now apply Z.eqb_eq|].
    now apply negb_true_iff, Nat.eqb_neq. }
  destruct tu as [|u0 tu'] eqn:Etu; [destruct Hin|].
  rewrite <- Etu in *. clear Etu u0 tu'.
  set (ps := map (fun u => pos (get us u)) tu).
  set (q := pos (get us self)).
  assert (Hm : (0 < length ps)%nat).
  { unfold ps. rewrite length_map. destruct tu; [destruct Hin|cbn; lia]. }
  replace (0 <? length ps)%nat with true by (symmetry; now apply Nat.ltb_lt).
  set (k' := if (length ps <? k)%nat then length ps else k).
  assert (Hk' : (1 <= k')%nat) by (unfold k'; destruct (_ <? _)%nat; lia).
  unfold Py.query.
  set (S := Py.sort_by_dist _).
  destruct (In_nth tu u 0%nat Hin) as (i & Hi & Hnth).
  assert (HinS : In (i, Py.dist (nth i ps (0, 0)) q) S).
  { unfold S. rewrite sort_by_dist_In. apply in_map_iff.
    exists i. split; [reflexivity|]. apply in_seq.
    unfold ps. rewrite length_map. lia. }
  pose proof (sort_by_dist_head
                (map (fun i => (i, Py.dist (nth i ps (0, 0)) q))
                     (seq 0 (length ps)))) as Hmin.
  fold S in Hmin. specialize (Hmin _ HinS). cbn [snd] in Hmin.
  unfold ps in Hmin at 1. rewrite nth_map_get, Hnth in Hmin by exact Hi.
  destruct S as [|s0 S']; [destruct HinS|].
  destruct k' as [|k'']; [lia|]. cbn [firstn map nth hd snd] in *.
  split; [discriminate|exact Hmin].
Qed.

End Nearest.

(** ** The collision check *)

Section Collision.

Lemma collide_draws (us : list Unit) (self : nat) (t : Z)
  (nearby : list nat) (g : Py.Rng) :
  collide us self t nearby g =
  draws_until_success t (length (filter (in_contact us self) nearby)) g.
Proof.
  revert g; induction nearby as [|u rest IH]; intros g; cbn [collide filter].
  - reflexivity.
  - fold (in_contact us self u). destruct (in_contact us self u).
    + cbn [length draws_until_success]. unfold Py.random.
      destruct (Py.floats g (Py.cursor g) <? COLLISION_CHANCE); auto.
    + apply IH.
Qed.

Lemma check_collision_draws (us : list Unit) (st : SpatialTree) (self : nat)
  (g : Py.Rng) :
  check_collision us st self g =
  draws_until_success (predator_type (unit_type (get us self)))
                      (length (qualifying us st self)) g.
Proof. unfold check_collision, qualifying. apply collide_draws. Qed.

Lemma hit_advance (g : Py.Rng) (k : nat) :
  hit (Py.advance g) k = hit g (S k).
Proof.
  unfold hit. cbn [Py.advance Py.floats Py.cursor].
  now rewrite Nat.add_succ_r.
Qed.

(** A run of draws only moves the cursor, by at most [n]. *)
Lemma draws_tape (t : Z) (n : nat) (g : Py.Rng) :
  let r := draws_until_success t n g in
  Py.floats (snd r) = Py.floats g /\ Py.ints (snd r) = Py.ints g /\
  (Py.cursor g <= Py.cursor (snd r) <= Py.cursor g + n)%nat.
Proof.
  revert g; induction n as [|n IH]; intros g; cbn [draws_until_success].
  - cbn. repeat split; lia.
  - unfold Py.random.
    destruct (Py.floats g (Py.cursor g) <? COLLISION_CHANCE).
    + cbn. repeat split; lia.
    + specialize (IH (Py.advance g)). cbn in IH |- *.
      destruct IH as (Hf & Hi & Hc). repeat split; try assumption; lia.
Qed.

(** No conversion: all [n] draws were made and all failed. *)
Lemma draws_none (t : Z) (n : nat) (g : Py.Rng) :
  fst (draws_until_success t n g) = None ->
  Py.cursor (snd (draws_until_success t n g)) = (Py.cursor g + n)%nat /\
  forall k, (k < n)%nat -> hit g k = false.
Proof.
  revert g; induction n as [|n IH]; intros g; cbn [draws_until_success].
  - cbn. intros _. split; [lia|]. intros k Hk; lia.
  - unfold Py.random.
    destruct (Py.floats g (Py.cursor g) <? COLLISION_CHANCE) eqn:E;
      [discriminate|].
    intros H. destruct (IH _ H) as [Hc Hk]. split.
    + rewrite Hc. cbn. lia.
    + intros [|k] Hlt.
      * unfold hit. now rewrite Nat.add_0_r.
      * rewrite <- hit_advance. apply Hk. lia.
Qed.

(** A conversion: the draws stopped at the first success. *)
Lemma draws_some (t t' : Z) (n : nat) (g : Py.Rng) :
  fst (draws_until_success t n g) = Some t' ->
  t' = t /\
  exists k, (k < n)%nat /\
    Py.cursor (snd (draws_until_success t n g)) = (Py.cursor g + S k)%nat /\
    hit g k = true /\ forall j, (j < k)%nat -> hit g j = false.
Proof.
  revert g; induction n as [|n IH]; intros g; cbn [draws_until_success].
  - discriminate.
  - unfold Py.random.
    destruct (Py.floats g (Py.cursor g) <? COLLISION_CHANCE) eqn:E.
    + cbn. intros H. split; [congruence|]. exists 0%nat.
      unfold hit. rewrite Nat.add_0_r. repeat split; try lia; auto.
    + intros H. destruct (IH _ H) as [Ht (k & Hk & Hc & Hh & Hf)].
      split; [exact Ht|]. exists (S k). repeat split.
      * lia.
      * rewrite Hc. cbn. lia.
      * rewrite <- hit_advance. exact Hh.
      * intros [|j] Hj.
        -- unfold hit. now rewrite Nat.add_0_r.
        -- rewrite <- hit_advance. apply Hf. lia.
Qed.

(** Conversely a success among the first [n] draws converts. *)
Lemma draws_hit (t : Z) (n : nat) (g : Py.Rng) (k : nat) :
  (k < n)%nat -> hit g k = true ->
  fst (draws_until_success t n g) = Some t.
Proof.
  revert g k; induction n as [|n IH]; intros g k Hk Hh; [lia|].
  cbn [draws_until_success]. unfold Py.random.
  destruct (Py.floats g (Py.cursor g) <? COLLISION_CHANCE) eqn:E;
    [reflexivity|].
  destruct k as [|k].
  - unfold hit in Hh. rewrite Nat.add_0_r in Hh. congruence.
  - apply (IH _ k); [lia|]. now rewrite hit_advance.
Qed.

End Collision.

(** ** The loops of a frame *)

Section Loops.

Lemma fold_seq_S {S : Type} (f : S -> nat -> S) (n : nat) (s : S) :
  fold_left f (seq 0 (Datatypes.S n)) s = f (fold_left f (seq 0 n) s) n.
Proof. rewrite seq_S, fold_left_app. reflexivity. Qed.

(** A call of [move_towards_target] writes the position and the velocity
    of [self] and nothing else. *)
Lemma move_towards_target_writes (us : list Unit) (st : SpatialTree)
  (self : nat) (g : Py.Rng) :
  exists px py wx wy,
    fst (move_towards_target us st self g)
    = upd self (set_motion px py wx wy) us.
Proof.
  unfold move_towards_target, Py.random. cbn [fst].
  do 4 eexists. reflexivity.
Qed.

Lemma move_towards_target_length (us : list Unit) (st : SpatialTree)
  (self : nat) (g : Py.Rng) :
  length (fst (move_towards_target us st self g)) = length us.
Proof.
  destruct (move_towards_target_writes us st self g)
    as (px & py & wx & wy & ->).
  apply upd_length.
Qed.

Lemma move_towards_target_types (us : list Unit) (st : SpatialTree)
  (self : nat) (g : Py.Rng) :
  map unit_type (fst (move_towards_target us st self g)) = map unit_type us.
Proof.
  destruct (move_towards_target_writes us st self g)
    as (px & py & wx & wy & ->).
  apply upd_keeps_types. reflexivity.
Qed.

Lemma move_towards_target_other (us : list Unit) (st : SpatialTree)
  (self j : nat) (g : Py.Rng) :
  self <> j -> get (fst (move_towards_target us st self g)) j = get us j.
Proof.
  destruct (move_towards_target_writes us st self g)
    as (px & py & wx & wy & ->).
  apply get_upd_other.
Qed.

Lemma update_positions_upto_S (n : nat) (us : list Unit) (st : SpatialTree)
  (g : Py.Rng) :
  update_positions_upto (S n) us st g
  = move_towards_target (fst (update_positions_upto n us st g)) st n
                        (snd (update_positions_upto n us st g)).
Proof. unfold update_positions_upto. now rewrite fold_seq_S. Qed.

Lemma update_positions_upto_length (n : nat) (us : list Unit)
  (st : SpatialTree) (g : Py.Rng) :
  length (fst (update_positions_upto n us st g)) = length us.
Proof.
  induction n as [|n IH]; [reflexivity|].
  rewrite update_positions_upto_S, move_towards_target_length. exact IH.
Qed.

Lemma update_positions_upto_types (n : nat) (us : list Unit)
  (st : SpatialTree) (g : Py.Rng) :
  map unit_type (fst (update_positions_upto n us st g)) = map unit_type us.
Proof.
  induction n as [|n IH]; [reflexivity|].
  rewrite update_positions_upto_S, move_towards_target_types. exact IH.
Qed.

(** Units the loop has not reached yet are as they were. *)
Lemma update_positions_upto_later (n j : nat) (us : list Unit)
  (st : SpatialTree) (g : Py.Rng) :
  (n <= j)%nat -> get (fst (update_positions_upto n us st g)) j = get us j.
Proof.
  induction n as [|n IH]; intros H; [reflexivity|].
  rewrite update_positions_upto_S, move_towards_target_other by lia.
  apply IH. lia.
Qed.

(** Units the loop has passed keep what their own call wrote. *)
Lemma update_positions_upto_earlier (n m j : nat) (us : list Unit)
  (st : SpatialTree) (g : Py.Rng) :
  (j < n)%nat -> (n <= m)%nat ->
  get (fst (update_positions_upto m us st g)) j
  = get (fst (update_positions_upto n us st g)) j.
Proof.
  intros Hj Hm. induction Hm as [|m Hm IH]; [reflexivity|].
  rewrite update_positions_upto_S, move_towards_target_other by lia.
  exact IH.
Qed.

Lemma update_positions_eq (us : list Unit) (st : SpatialTree) (g : Py.Rng) :
  update_positions us st g = update_positions_upto (length us) us st g.
Proof. reflexivity. Qed.

(** Assigning targets changes no type and no position. *)
Lemma update_targets_keeps (us : list Unit) (g : Py.Rng) :
  map unit_type (fst (update_targets us g)) = map unit_type us /\
  map pos (fst (update_targets us g)) = map pos us /\
  length (fst (update_targets us g)) = length us.
Proof.
  unfold update_targets.
  set (F := fun (s : list Unit * Py.Rng) (i : nat) =>
              let (tg, g') := find_target (fst s) i (snd s) in
              (upd i (set_target tg) (fst s), g')).
  assert (G : forall n,
             map unit_type (fst (fold_left F (seq 0 n) (us, g)))
             = map unit_type us /\
             map pos (fst (fold_left F (seq 0 n) (us, g))) = map pos us /\
             length (fst (fold_left F (seq 0 n) (us, g))) = length us).
  { induction n as [|n IH]; [cbn; auto|].
    rewrite fold_seq_S.
    set (s := fold_left F (seq 0 n) (us, g)) in *.
    assert (E : F s n = (upd n (set_target (fst (find_target (fst s) n (snd s))))
                           (fst s), snd (find_target (fst s) n (snd s)))).
    { unfold F. destruct (find_target (fst s) n (snd s)); reflexivity. }
    rewrite E. clear E.
    destruct (find_target (fst s) n (snd s)) as [tg g']. cbn [fst].
    destruct IH as (Ht & Hp & Hl).
    rewrite upd_keeps_types, upd_keeps_pos, upd_length by reflexivity.
    auto. }
  apply G.
Qed.

End Loops.

(** ** The two collision loops *)

Section Conversions.

Variables (us : list Unit) (st : SpatialTree) (g : Py.Rng).

Lemma collect_upto_S (n : nat) :
  collect_upto (S n) us st g
  = let s := collect_upto n us st g in
    match fst (check_collision us st n (snd s)) with
    | Some t => (fst s ++ [(n, t)], snd (check_collision us st n (snd s)))
    | None => (fst s, snd (check_collision us st n (snd s)))
    end.
Proof.
  unfold collect_upto. rewrite fold_seq_S. cbv zeta.
  destruct (check_collision us st n _) as [[t|] g']; reflexivity.
Qed.

Lemma apply_new_types_app (l1 l2 : list (nat * Z)) (vs : list Unit) :
  apply_new_types (l1 ++ l2) vs = apply_new_types l2 (apply_new_types l1 vs).
Proof. unfold apply_new_types. apply fold_left_app. Qed.

Lemma apply_new_types_length (l : list (nat * Z)) (vs : list Unit) :
  length (apply_new_types l vs) = length vs.
Proof.
  revert vs; induction l as [|[i t] l IH]; intros vs; cbn; [reflexivity|].
  unfold apply_new_types in IH. rewrite IH. apply upd_length.
Qed.

Lemma apply_new_types_pos (l : list (nat * Z)) (vs : list Unit) :
  map pos (apply_new_types l vs) = map pos vs.
Proof.
  revert vs; induction l as [|[i t] l IH]; intros vs; cbn; [reflexivity|].
  unfold apply_new_types in IH. rewrite IH.
  apply upd_keeps_pos. reflexivity.
Qed.

(** The type of unit [i] once the entries collected by the first [n]
    iterations are applied. *)
Lemma apply_collect_upto (n i : nat) :
  (i < length us)%nat ->
  unit_type (get (apply_new_types (fst (collect_upto n us st g)) us) i)
  = if (i <? n)%nat then
      match fst (check_collision us st i (snd (collect_upto i us st g))) with
      | Some t => t
      | None => unit_type (get us i)
      end
    else unit_type (get us i).
Proof.
  intros Hi. induction n as [|n IH]; [reflexivity|].
  rewrite collect_upto_S. cbv zeta.
  destruct (Nat.eq_dec i n) as [->|Hne].
  - rewrite Nat.ltb_irrefl in IH.
    replace (n <? S n)%nat with true by (symmetry; apply Nat.ltb_lt; lia).
    destruct (fst (check_collision us st n (snd (collect_upto n us st g))))
      as [t|]; cbn [fst]; [|exact IH].
    rewrite apply_new_types_app. unfold apply_new_types at 1.
    cbn [fold_left fst snd].
    rewrite get_upd_same by (rewrite apply_new_types_length; exact Hi).
    reflexivity.
  - assert (E : (i <? S n)%nat = (i <? n)%nat).
    { destruct (i <? n)%nat eqn:E1.
      - apply Nat.ltb_lt in E1. apply Nat.ltb_lt. lia.
      - apply Nat.ltb_ge in E1. apply Nat.ltb_ge. lia. }
    rewrite E, <- IH.
    destruct (fst (check_collision us st n (snd (collect_upto n us st g))))
      as [t|]; cbn [fst]; [|reflexivity].
    rewrite apply_new_types_app. unfold apply_new_types at 1.
    cbn [fold_left fst snd].
    rewrite get_upd_other by congruence. reflexivity.
Qed.

End Conversions.

(** A frame that completes, phase by phase. *)
Lemma frame_phases (s s' : State) :
  frame s = inr s' ->
  exists spatial_tree,
    SpatialTree_init (units s) = inr spatial_tree /\
    let r1 := update_targets (units s) (rng s) in
    let r2 := update_positions (fst r1) spatial_tree (snd r1) in
    let r3 := collect_new_types (fst r2) spatial_tree (snd r2) in
    units s' = apply_new_types (fst r3) (fst r2) /\
    time_steps s' = S (time_steps s) /\
    rng s' = snd r3 /\
    (check_end_condition (units s') = true -> running s' = false) /\
    (check_end_condition (units s') = true ->
     status_message s' = match units s' with
                         | u0 :: _ => GameOverWins (unit_type u0)
                         | [] => GameOverNoUnits
                         end).
Proof.
  unfold frame.
  destruct (SpatialTree_init (units s)) as [e|spatial_tree]; [discriminate|].
  cbn [Py.bind]. intros H. exists spatial_tree. split; [reflexivity|].
  cbv zeta.
  destruct (update_targets (units s) (rng s)) as [us1 g1]. cbn [fst snd].
  destruct (update_positions us1 spatial_tree g1) as [us2 g2]. cbn [fst snd].
  destruct (collect_new_types us2 spatial_tree g2) as [new_types g3].
  cbn [fst snd].
  destruct (if (MAX_TIME <=? S (time_steps s))%nat then _ else _)
    as [running1 status1].
  destruct (check_end_condition (apply_new_types new_types us2)) eqn:E.
  - destruct (apply_new_types new_types us2) as [|u0 us3] eqn:E3;
      injection H as <-; cbn; rewrite ?E3; auto.
  - injection H as <-. cbn. rewrite E. repeat split; discriminate.
Qed.

(** ** The cyclic relation *)

Lemma predator_type_range (t : Z) : (0 <= predator_type t < 3)%Z.
Proof. unfold predator_type. apply Z.mod_pos_bound. lia. Qed.

(** No type is its own predator, whatever integer it is. *)
Lemma predator_type_other (t : Z) : predator_type t <> t.
Proof.
  unfold predator_type. intros H.
  pose proof (Z.div_mod (t + 1) 3 ltac:(lia)) as D. rewrite H in D. lia.
Qed.

(** C4. For every type [t] in {0,1,2}: targeting looks for the type
    [(t+2) mod 3], threat repulsion and collision for the type [(t+1) mod 3];
    the prey of the predator of [t] is [t]; neither relation has a fixed
    point, and the relation is a cycle of length three. *)
Theorem cyclic_relation (t : Z) (Ht : (0 <= t < 3)%Z) :
  prey_type t = ((t + 2) mod 3)%Z /\
  predator_type t = ((t + 1) mod 3)%Z /\
  prey_type (predator_type t) = t /\
  predator_type (prey_type t) = t /\
  prey_type t <> t /\ predator_type t <> t /\
  predator_type (predator_type t) <> t /\
  predator_type (predator_type (predator_type t)) = t /\
  forall (us : list Unit) (st : SpatialTree) (self : nat) (g : Py.Rng),
    unit_type (get us self) = t ->
    (forall tg g', find_target us self g = (Some tg, g') ->
                   unit_type (get us tg) = prey_type t) /\
    (forall p d, In (p, d) (find_threats us st self) ->
                 unit_type (get us p) = predator_type t) /\
    (forall t' g', check_collision us st self g = (Some t', g') ->
                   t' = predator_type t).
Proof.
  assert (Hc : t = 0%Z \/ t = 1%Z \/ t = 2%Z) by lia.
  do 8 (split; [try reflexivity;
                destruct Hc as [->|[->| ->]]; vm_compute; congruence|]).
  intros us st self g Et. repeat split.
  - intros tg g' H. apply find_target_In in H. destruct H as [d H].
    apply find_nearest_of_type_In in H. cbn [fst] in H.
    destruct H as [H _]. rewrite H. unfold prey_type. congruence.
  - intros p d H. unfold find_threats in H. apply in_map_iff in H.
    destruct H as [u [E Hu]]. injection E as -> _.
    apply query_by_type_In in Hu. destruct Hu as [_ Hu].
    rewrite Hu. unfold predator_type. congruence.
  - intros t' g' H. rewrite check_collision_draws in H.
    assert (H1 : fst (draws_until_success
                        (predator_type (unit_type (get us self)))
                        (length (qualifying us st self)) g) = Some t')
      by (rewrite H; reflexivity).
    apply draws_some in H1. destruct H1 as [-> _]. congruence.
Qed.

Lemma cyclic_relation_witness :
  prey_type (predator_type 0) = 0%Z /\ predator_type 0 <> 0%Z.
Proof.
  pose proof (cyclic_relation 0 ltac:(lia)) as H.
  split; [apply H | apply H].
Defined.

(** ** Radius queries *)

(** The index holds the positions the units had when it was built. *)
Lemma SpatialTree_init_tree (us : list Unit) (st : SpatialTree) :
  SpatialTree_init us = inr st -> tree st = map pos us /\ us <> [].
Proof.
  destruct us as [|u us]; cbn; [discriminate|].
  intros H. injection H as <-. split; [reflexivity|discriminate].
Qed.

Lemma nth_map_pos (us : list Unit) (i : nat) :
  (i < length us)%nat -> nth i (map pos us) (0, 0) = pos (get us i).
Proof.
  intros H. unfold get.
  rewrite (nth_indep _ (0, 0) (pos (Unit_init 0 0 0)))
    by (rewrite length_map; exact H).
  apply map_nth.
Qed.

(** C5, as the program has it.  [query_radius] returns exactly the other
    units whose position recorded in the index is at distance at most the
    radius (the bound included) from the current position of the querying
    unit; [query_by_type] keeps those whose current type is the one asked
    for; the querying unit is never returned. *)
Theorem query_radius_exact (us : list Unit) (st : SpatialTree) (self : nat)
  (radius : float) (t : Z) (u : nat) :
  (forall us0, SpatialTree_init us0 = inr st -> (u < length us0)%nat ->
               nth u (tree st) (0, 0) = pos (get us0 u)) /\
  (In u (query_radius us st self radius) <->
     u <> self /\ (u < length (tree st))%nat /\
     (Py.dist (nth u (tree st) (0, 0)) (pos (get us self)) <=? radius) = true)
  /\
  (In u (query_by_type us st self radius t) <->
     In u (query_radius us st self radius) /\ unit_type (get us u) = t)
  /\ ~ In self (query_radius us st self radius)
  /\ ~ In self (query_by_type us st self radius t).
Proof.
  split.
  { intros us0 H Hu. apply SpatialTree_init_tree in H. destruct H as [-> _].
    apply nth_map_pos. exact Hu. }
  split; [apply query_radius_In|].
  split; [rewrite query_by_type_In, query_radius_In; reflexivity|].
  split.
  - rewrite query_radius_In. tauto.
  - rewrite query_by_type_In. tauto.
Qed.

(** C5, against the specification.  A unit exactly 20 away is returned for
    the radius 20, although 20 is not below 20; and once the first unit of
    [drifting] has moved within 100 of the second, the second still does not
    get it from its query of radius [GROUP_RADIUS], because the index holds
    the position before the move. *)
Lemma query_radius_not_strict_nor_live :
  (SpatialTree_init Examples.on_the_rim
     = inr (Examples.index_of Examples.on_the_rim) /\
   query_radius Examples.on_the_rim (Examples.index_of Examples.on_the_rim)
                0 (MIN_DISTANCE * 2) = [1%nat] /\
   (Py.dist (pos (get Examples.on_the_rim 1)) (pos (get Examples.on_the_rim 0))
      <? MIN_DISTANCE * 2) = false)
  /\
  (let st := Examples.index_of Examples.drifting in
   let live :=
     fst (update_positions_upto 1 Examples.drifting st (Examples.tape [0.9])) in
   (Py.dist (pos (get live 0)) (pos (get live 1)) <? GROUP_RADIUS) = true /\
   query_radius live st 1 GROUP_RADIUS = []).
Proof. vm_compute. repeat split. Qed.

(** ** Conversions *)

(** A conversion comes from a predator that passes both tests. *)
Lemma check_collision_contact (us : list Unit) (st : SpatialTree)
  (self : nat) (g g' : Py.Rng) (t' : Z) :
  check_collision us st self g = (Some t', g') ->
  exists p,
    p <> self /\ (p < length (tree st))%nat /\
    unit_type (get us p) = predator_type (unit_type (get us self)) /\
    (Py.dist (nth p (tree st) (0, 0)) (pos (get us self))
       <=? MIN_DISTANCE * 2) = true /\
    (Py.dist (pos (get us self)) (pos (get us p)) <? MIN_DISTANCE) = true.
Proof.
  intros H. rewrite check_collision_draws in H.
  assert (H1 : fst (draws_until_success
                      (predator_type (unit_type (get us self)))
                      (length (qualifying us st self)) g) = Some t')
    by (rewrite H; reflexivity).
  apply draws_some in H1. destruct H1 as [_ (k & Hk & _)].
  destruct (qualifying us st self) as [|p q] eqn:E; [cbn in Hk; lia|].
  assert (Hp : In p (qualifying us st self)) by (rewrite E; now left).
  unfold qualifying in Hp. apply filter_In in Hp. destruct Hp as [Hq Hc].
  apply query_by_type_In in Hq. destruct Hq as [(Hne & Hlt & Hd) Ht].
  exists p. repeat split; assumption.
Qed.

(** C10. A unit converts only if some unit of its predator type passes both
    tests of the collision check: the position the index recorded for it is
    within [2 * MIN_DISTANCE] of the current position of the unit, and its
    current position is strictly closer than [MIN_DISTANCE].  The index
    records the positions of the start of the frame; a predator that fails
    the first test triggers nothing, however close it is now.  So in a frame
    a unit [a] changes type only if some predator [p] was, at the start of the
    frame, within [2 * MIN_DISTANCE] of where [a] is after the movement, and
    is after the movement closer than [MIN_DISTANCE] to [a]. *)
Theorem conversion_needs_both_tests (us : list Unit) (st : SpatialTree)
  (self : nat) (g : Py.Rng) :
  (forall us0, SpatialTree_init us0 = inr st ->
     forall p, (p < length us0)%nat ->
               nth p (tree st) (0, 0) = pos (get us0 p))
  /\
  (forall t' g', check_collision us st self g = (Some t', g') ->
     exists p,
       p <> self /\
       unit_type (get us p) = predator_type (unit_type (get us self)) /\
       (Py.dist (nth p (tree st) (0, 0)) (pos (get us self))
          <=? MIN_DISTANCE * 2) = true /\
       (Py.dist (pos (get us self)) (pos (get us p)) <? MIN_DISTANCE) = true)
  /\
  ((forall p,
       unit_type (get us p) = predator_type (unit_type (get us self)) ->
       (Py.dist (pos (get us self)) (pos (get us p)) <? MIN_DISTANCE) = true ->
       (Py.dist (nth p (tree st) (0, 0)) (pos (get us self))
          <=? MIN_DISTANCE * 2) = false) ->
   check_collision us st self g = (None, g))
  /\
  (forall s s', frame s = inr s' ->
     exists spatial_tree,
       SpatialTree_init (units s) = inr spatial_tree /\
       let r1 := update_targets (units s) (rng s) in
       let moved := fst (update_positions (fst r1) spatial_tree (snd r1)) in
       forall a, (a < length moved)%nat ->
         unit_type (get (units s') a) <> unit_type (get moved a) ->
         exists p,
           p <> a /\ (p < length (units s))%nat /\
           unit_type (get moved p) = predator_type (unit_type (get moved a)) /\
           (Py.dist (pos (get (units s) p)) (pos (get moved a))
              <=? MIN_DISTANCE * 2) = true /\
           (Py.dist (pos (get moved a)) (pos (get moved p))
              <? MIN_DISTANCE) = true).
Proof.
  split; [|split; [|split]].
  - intros us0 H p Hp. apply SpatialTree_init_tree in H. destruct H as [-> _].
    apply nth_map_pos. exact Hp.
  - intros t' g' H. apply check_collision_contact in H.
    destruct H as (p & Hne & _ & Ht & Hd & Hc).
    exists p. repeat split; assumption.
  - intros H. rewrite check_collision_draws.
    destruct (qualifying us st self) as [|p q] eqn:E; [reflexivity|].
    assert (Hp : In p (qualifying us st self)) by (rewrite E; now left).
    unfold qualifying in Hp. apply filter_In in Hp. destruct Hp as [Hq Hc].
    apply query_by_type_In in Hq. destruct Hq as [(Hne & _ & Hd) Ht].
    rewrite (H p Ht Hc) in Hd. discriminate.
  - intros s s' H. apply frame_phases in H.
    destruct H as (spatial_tree & Hst & H). cbv zeta in H.
    destruct H as (Hu & _).
    exists spatial_tree. split; [exact Hst|]. cbv zeta.
    set (r1 := update_targets (units s) (rng s)) in *.
    set (r2 := update_positions (fst r1) spatial_tree (snd r1)) in *.
    intros a Ha Hch.
    apply SpatialTree_init_tree in Hst. destruct Hst as [Htree _].
    change (collect_new_types (fst r2) spatial_tree (snd r2))
      with (collect_upto (length (fst r2)) (fst r2) spatial_tree (snd r2))
      in Hu.
    rewrite Hu, apply_collect_upto in Hch by exact Ha.
    replace (a <? length (fst r2))%nat with true in Hch
      by (symmetry; apply Nat.ltb_lt; exact Ha).
    destruct (check_collision (fst r2) spatial_tree a
                (snd (collect_upto a (fst r2) spatial_tree (snd r2))))
      as [[t'|] g'] eqn:E; cbn [fst] in Hch; [|congruence].
    apply check_collision_contact in E.
    destruct E as (p & Hne & Hlt & Ht & Hd & Hc).
    rewrite Htree, length_map in Hlt.
    rewrite Htree, nth_map_pos in Hd by exact Hlt.
    exists p. repeat split; assumption.
Qed.

Lemma conversion_needs_both_tests_witness :
  (exists p, p <> 0%nat /\ unit_type (get Examples.two_rocks p) = 1%Z) /\
  check_collision Examples.late_contact Examples.far_index 0 Examples.steady
  = (None, Examples.steady).
Proof.
  split.
  - destruct (conversion_needs_both_tests Examples.two_rocks
                (Examples.index_of Examples.two_rocks) 0
                (Examples.tape [0.1])) as (_ & H & _).
    destruct (H 1%Z (Py.advance (Examples.tape [0.1])))
      as (p & Hne & Ht & _); [vm_compute; reflexivity|].
    exists p. split; [exact Hne|exact Ht].
  - destruct (conversion_needs_both_tests Examples.late_contact
                Examples.far_index 0 Examples.steady) as (_ & _ & H & _).
    apply H. intros [|[|p]] Ht Hc.
    + vm_compute in Ht. discriminate.
    + vm_compute. reflexivity.
    + destruct p; vm_compute in Ht; discriminate.
Defined.


(** C1. The conversions of a frame are computed on the units as they are
    before any conversion and applied afterwards: the final type of unit [i]
    is what its own collision check returns on the unconverted units (with
    the tape left by the checks of the units before it, made on the same
    unconverted units), and its own type when the check returns nothing.
    Positions are not touched.  Every frame ends with these two loops, run on
    the units as the movement left them and on the index built at the start
    of the frame. *)
Theorem conversions_from_snapshot (us : list Unit) (st : SpatialTree)
  (g : Py.Rng) (i : nat) (Hi : (i < length us)%nat) :
  let new_types := fst (collect_new_types us st g) in
  let g_i := snd (collect_upto i us st g) in
  unit_type (get (apply_new_types new_types us) i)
  = match fst (check_collision us st i g_i) with
    | Some t => t
    | None => unit_type (get us i)
    end
  /\ pos (get (apply_new_types new_types us) i) = pos (get us i)
  /\ length (apply_new_types new_types us) = length us
  /\ (forall s s', frame s = inr s' ->
        exists spatial_tree,
          SpatialTree_init (units s) = inr spatial_tree /\
          let r1 := update_targets (units s) (rng s) in
          let r2 := update_positions (fst r1) spatial_tree (snd r1) in
          units s'
          = apply_new_types
              (fst (collect_new_types (fst r2) spatial_tree (snd r2)))
              (fst r2)).
Proof.
  cbv zeta. split; [|split; [|split]].
  - change (collect_new_types us st g) with (collect_upto (length us) us st g).
    rewrite apply_collect_upto by exact Hi.
    replace (i <? length us)%nat with true
      by (symmetry; apply Nat.ltb_lt; exact Hi).
    reflexivity.
  - apply get_map. apply apply_new_types_pos.
  - apply apply_new_types_length.
  - intros s s' H. apply frame_phases in H.
    destruct H as (spatial_tree & Hst & H). cbv zeta in H.
    exists spatial_tree. split; [exact Hst|apply H].
Qed.

Lemma conversions_from_snapshot_witness :
  unit_type
    (get (apply_new_types
            (fst (collect_new_types Examples.two_rocks
                    (Examples.index_of Examples.two_rocks)
                    (Examples.tape [0.5; 0.1])))
            Examples.two_rocks) 0) = 1%Z.
Proof.
  pose proof (conversions_from_snapshot Examples.two_rocks
                (Examples.index_of Examples.two_rocks)
                (Examples.tape [0.5; 0.1]) 0 ltac:(cbn; lia)) as H.
  cbv zeta in H. destruct H as [H _]. rewrite H. vm_compute. reflexivity.
Defined.

(** C2, as the program has it.  The check draws against [COLLISION_CHANCE]
    once for each predator in contact, in query order, until a draw
    succeeds: what it returns and what it leaves of the tape depend on the
    number of predators in contact and on nothing else about them; it makes
    at most that many draws, none when no predator is in contact; it
    converts exactly when one of these draws succeeds, and then to the
    predator type. *)
Theorem collision_draws_per_contact (us : list Unit) (st : SpatialTree)
  (self : nat) (g : Py.Rng) :
  let n := length (qualifying us st self) in
  let r := check_collision us st self g in
  r = draws_until_success (predator_type (unit_type (get us self))) n g /\
  (Py.cursor g <= Py.cursor (snd r) <= Py.cursor g + n)%nat /\
  (fst r = None <-> forall k, (k < n)%nat -> hit g k = false) /\
  (fst r = None -> Py.cursor (snd r) = (Py.cursor g + n)%nat) /\
  (forall t', fst r = Some t' ->
     t' = predator_type (unit_type (get us self)) /\
     exists k, (k < n)%nat /\ Py.cursor (snd r) = (Py.cursor g + S k)%nat /\
               hit g k = true /\ forall j, (j < k)%nat -> hit g j = false).
Proof.
  cbv zeta. rewrite check_collision_draws.
  set (t := predator_type _). set (n := length _).
  split; [reflexivity|]. split; [apply draws_tape|].
  split; [|split].
  - split.
    + intros H. apply (draws_none t n g H).
    + intros H. destruct (fst (draws_until_success t n g)) as [t'|] eqn:E;
        [|reflexivity].
      apply draws_some in E. destruct E as [_ (k & Hk & _ & Hh & _)].
      rewrite (H k Hk) in Hh. discriminate.
  - intros H. apply (draws_none t n g H).
  - intros t' H. apply (draws_some t t' n g H).
Qed.

(** C2, against the specification.  With two rocks in contact and the
    draws 0.5 and 0.1 the check draws twice and converts the unit; with one
    rock in contact and the same draws it draws once and converts nothing. *)
Lemma second_predator_second_draw :
  let g := Examples.tape [0.5; 0.1] in
  (length (qualifying Examples.two_rocks
             (Examples.index_of Examples.two_rocks) 0) = 2%nat /\
   fst (check_collision Examples.two_rocks
          (Examples.index_of Examples.two_rocks) 0 g) = Some 1%Z /\
   Py.cursor (snd (check_collision Examples.two_rocks
                     (Examples.index_of Examples.two_rocks) 0 g)) = 2%nat)
  /\
  (length (qualifying Examples.one_rock
             (Examples.index_of Examples.one_rock) 0) = 1%nat /\
   fst (check_collision Examples.one_rock
          (Examples.index_of Examples.one_rock) 0 g) = None /\
   Py.cursor (snd (check_collision Examples.one_rock
                     (Examples.index_of Examples.one_rock) 0 g)) = 1%nat).
Proof. vm_compute. repeat split. Qed.

(** ** Boundary handling *)

Lemma bounce_kept_within (p w lo hi : float) :
  (lo <=? hi) = true -> kept_within lo hi (fst (bounce p w lo hi)).
Proof.
  intros Hlh. destruct (FloatOrder.leb_true_not_nan _ _ Hlh) as [Nlo Nhi].
  pose proof (FloatOrder.leb_refl lo Nlo) as Rlo.
  pose proof (FloatOrder.leb_refl hi Nhi) as Rhi.
  assert (Llo : (lo <? lo) = false).
  { destruct (lo <? lo) eqn:E; [|reflexivity].
    apply FloatOrder.ltb_true_leb_false in E. congruence. }
  assert (Lhi : (hi <? hi) = false).
  { destruct (hi <? hi) eqn:E; [|reflexivity].
    apply FloatOrder.ltb_true_leb_false in E. congruence. }
  assert (Lhl : (hi <? lo) = false).
  { destruct (hi <? lo) eqn:E; [|reflexivity].
    apply FloatOrder.ltb_true_leb_false in E. congruence. }
  unfold bounce, kept_within, within.
  destruct (p <? lo) eqn:E1; cbn [fst].
  - rewrite Llo, Lhl, Rlo, Hlh. auto.
  - destruct (hi <? p) eqn:E2; cbn [fst].
    + rewrite Lhl, Lhi, Rhi, Hlh. auto.
    + rewrite E1, E2. repeat split. intros Np.
      rewrite (FloatOrder.ltb_false_leb p lo Np Nlo E1).
      rewrite (FloatOrder.ltb_false_leb hi p Nhi Np E2). reflexivity.
Qed.

(** ** Initialization *)

Lemma np_index_In {A} (arr : list A) (i : Z) (a : A) :
  Py.np_index arr i = inr a -> In a arr.
Proof.
  unfold Py.np_index. cbv zeta.
  destruct ((0 <=? _) && _)%Z; [|discriminate].
  destruct (nth_error arr _) as [b|] eqn:E; [|discriminate].
  intros H. injection H as <-. eapply nth_error_In. exact E.
Qed.

(** Units are only ever created at rows of the position array. *)
Lemma add_units_rows (t : Z) (positions : list (float * float)) (a b : Z)
  (us us' : list Unit) :
  Forall (fun u => In (pos u) positions) us ->
  add_units t positions a b us = inr us' ->
  Forall (fun u => In (pos u) positions) us'.
Proof.
  unfold add_units. generalize (Py.range a b) as l.
  intros l; revert us; induction l as [|i l IH]; intros us Hus; cbn.
  - intros H. injection H as <-. exact Hus.
  - destruct (Py.np_index positions i) as [e|p] eqn:E; cbn; [discriminate|].
    apply IH. apply Forall_app. split; [exact Hus|].
    constructor; [|constructor]. unfold pos. cbn [x y Unit_init].
    rewrite <- surjective_pairing. eapply np_index_In. exact E.
Qed.

Lemma initialize_units_rows (samples : nat -> float * float) (a b c : Z)
  (us : list Unit) :
  initialize_units samples a b c = inr us ->
  Forall (fun u => exists k, pos u = samples k) us.
Proof.
  unfold initialize_units, Py.np_random_uniform. cbv zeta.
  destruct (a + b + c <? 0)%Z; [discriminate|]. cbn [Py.bind Py.ret].
  set (positions := map samples _).
  destruct (add_units 0 positions 0 a []) as [e|us1] eqn:E1; [discriminate|].
  cbn [Py.bind].
  destruct (add_units 1 positions a (a + b) us1) as [e|us2] eqn:E2;
    [discriminate|].
  cbn [Py.bind]. intros E3.
  apply add_units_rows in E1; [|constructor].
  apply (add_units_rows _ _ _ _ _ _ E1) in E2.
  apply (add_units_rows _ _ _ _ _ _ E2) in E3.
  eapply Forall_impl; [|exact E3]. cbn. intros u Hu.
  apply in_map_iff in Hu. destruct Hu as [k [Hk _]]. exists k. auto.
Qed.

Lemma np_index_nonneg {A} (arr : list A) (k : nat) (d : A) :
  (k < length arr)%nat -> Py.np_index arr (Z.of_nat k) = inr (nth k arr d).
Proof.
  intros H. unfold Py.np_index. cbv zeta.
  replace (Z.of_nat k <? 0)%Z with false by (symmetry; apply Z.ltb_ge; lia).
  replace ((0 <=? Z.of_nat k) && (Z.of_nat k <? Z.of_nat (length arr)))%Z
    with true
    by (symmetry; apply andb_true_iff; split;
        [apply Z.leb_le|apply Z.ltb_lt]; lia).
  rewrite Nat2Z.id.
  destruct (nth_error arr k) as [a|] eqn:E.
  - apply (nth_error_nth _ _ d) in E. now rewrite E.
  - apply nth_error_None in E. lia.
Qed.

Lemma map_add_seq (a s n : nat) :
  map (fun k => (a + k)%nat) (seq s n) = seq (a + s) n.
Proof.
  revert s; induction n as [|n IH]; intros s; cbn; [reflexivity|].
  f_equal. rewrite IH. f_equal. lia.
Qed.

(** With indices inside the array a creation loop appends one unit for each
    index, in order. *)
Lemma add_units_nonneg (t : Z) (positions : list (float * float)) (a b : Z)
  (us : list Unit) :
  (0 <= a <= b)%Z -> (b <= Z.of_nat (length positions))%Z ->
  add_units t positions a b us
  = inr (us ++ map (fun k => Unit_init t (fst (nth k positions (0, 0)))
                                         (snd (nth k positions (0, 0))))
                   (seq (Z.to_nat a) (Z.to_nat (b - a)))).
Proof.
  intros Hab Hb. unfold add_units, Py.range.
  rewrite <- (Nat.add_0_r (Z.to_nat a)) at 1.
  rewrite <- map_add_seq.
  assert (G : forall ks us,
             (forall k, In k ks -> (Z.to_nat a + k < length positions)%nat) ->
             Py.for_each (map (fun k => (a + Z.of_nat k)%Z) ks)
               (fun i us =>
                  p <- Py.np_index positions i ;;
                  Py.ret (us ++ [Unit_init t (fst p) (snd p)])) us
             = inr (us ++ map (fun k => Unit_init t
                                          (fst (nth k positions (0, 0)))
                                          (snd (nth k positions (0, 0))))
                              (map (fun k => (Z.to_nat a + k)%nat) ks))).
  { induction ks as [|k ks IH]; intros vs Hks; cbn [map Py.for_each].
    - now rewrite app_nil_r.
    - replace (a + Z.of_nat k)%Z with (Z.of_nat (Z.to_nat a + k)) by lia.
      rewrite (np_index_nonneg positions _ (0, 0))
        by (apply Hks; now left).
      cbn [Py.bind Py.ret].
      replace (Z.of_nat (Z.to_nat a + k)) with (a + Z.of_nat k)%Z by lia.
      rewrite IH by (intros k' Hk'; apply Hks; now right).
      rewrite <- app_assoc. reflexivity. }
  apply G. intros k Hk. apply in_seq in Hk. lia.
Qed.

Lemma nth_map_seq {A} (f : nat -> A) (n k : nat) (d : A) :
  (k < n)%nat -> nth k (map f (seq 0 n)) d = f k.
Proof.
  intros H. rewrite (nth_indep _ d (f 0%nat)) by (rewrite length_map, length_seq; exact H).
  rewrite map_nth, seq_nth by exact H. reflexivity.
Qed.

(** With three non-negative counts the units come in three blocks, unit [i]
    at sample [i]. *)
Lemma initialize_units_blocks (samples : nat -> float * float)
  (scissors_count rock_count paper_count : Z) :
  (0 <= scissors_count)%Z -> (0 <= rock_count)%Z -> (0 <= paper_count)%Z ->
  initialize_units samples scissors_count rock_count paper_count
  = inr (map (initial_unit samples scissors_count rock_count)
             (seq 0 (Z.to_nat (scissors_count + rock_count + paper_count)))).
Proof.
  intros Hs Hr Hp.
  unfold initialize_units, Py.np_random_uniform. cbv zeta.
  replace (scissors_count + rock_count + paper_count <? 0)%Z with false
    by (symmetry; apply Z.ltb_ge; lia).
  cbn [Py.bind Py.ret].
  set (n := Z.to_nat (scissors_count + rock_count + paper_count)).
  set (positions := map samples (seq 0 n)).
  assert (Hlen : length positions = n)
    by (unfold positions; now rewrite length_map, length_seq).
  rewrite add_units_nonneg by (rewrite ?Hlen; lia). cbn [Py.bind app].
  rewrite add_units_nonneg by (rewrite ?Hlen; lia). cbn [Py.bind].
  rewrite add_units_nonneg by (rewrite ?Hlen; lia).
  f_equal.
  replace (Z.to_nat (scissors_count - 0)) with (Z.to_nat scissors_count) by lia.
  replace (Z.to_nat (scissors_count + rock_count - scissors_count))
    with (Z.to_nat rock_count) by lia.
  replace (Z.to_nat (scissors_count + rock_count + paper_count
                     - (scissors_count + rock_count)))
    with (Z.to_nat paper_count) by lia.
  replace (Z.to_nat (scissors_count + rock_count))
    with (Z.to_nat scissors_count + Z.to_nat rock_count)%nat by lia.
  replace n with (Z.to_nat scissors_count
                  + (Z.to_nat rock_count + Z.to_nat paper_count))%nat
    by (unfold n; lia).
  change (Z.to_nat 0) with 0%nat.
  rewrite !seq_app, !map_app, <- app_assoc. cbn [plus].
  assert (Hn : n = (Z.to_nat scissors_count
                    + (Z.to_nat rock_count + Z.to_nat paper_count))%nat)
    by (unfold n; lia).
  apply f_equal2; [|apply f_equal2].
  - apply map_ext_in. intros k Hk. apply in_seq in Hk.
    unfold initial_unit, positions. rewrite nth_map_seq by lia.
    replace (Z.of_nat k <? scissors_count)%Z with true
      by (symmetry; apply Z.ltb_lt; lia).
    reflexivity.
  - apply map_ext_in. intros k Hk. apply in_seq in Hk.
    unfold initial_unit, positions. rewrite nth_map_seq by lia.
    replace (Z.of_nat k <? scissors_count)%Z with false
      by (symmetry; apply Z.ltb_ge; lia).
    replace (Z.of_nat k <? scissors_count + rock_count)%Z with true
      by (symmetry; apply Z.ltb_lt; lia).
    reflexivity.
  - apply map_ext_in. intros k Hk. apply in_seq in Hk.
    unfold initial_unit, positions. rewrite nth_map_seq by lia.
    replace (Z.of_nat k <? scissors_count)%Z with false
      by (symmetry; apply Z.ltb_ge; lia).
    replace (Z.of_nat k <? scissors_count + rock_count)%Z with false
      by (symmetry; apply Z.ltb_ge; lia).
    reflexivity.
Qed.


(** C9, as the program has it.  With three non-negative counts
    [initialize_units] succeeds: it returns as many units as the counts add up
    to, scissors first, then rocks, then papers, unit [i] at sample [i],
    without a target and at rest.  No count is checked; when the call fails,
    it is with an exception of numpy and some count is negative. *)
Theorem initialize_units_succeeds (samples : nat -> float * float)
  (scissors_count rock_count paper_count : Z)
  (Hs : (0 <= scissors_count)%Z) (Hr : (0 <= rock_count)%Z)
  (Hp : (0 <= paper_count)%Z) :
  exists us,
    initialize_units samples scissors_count rock_count paper_count = inr us /\
    us = map (initial_unit samples scissors_count rock_count)
             (seq 0 (Z.to_nat (scissors_count + rock_count + paper_count))) /\
    length us = Z.to_nat (scissors_count + rock_count + paper_count) /\
    forall i, (i < length us)%nat ->
      get us i = initial_unit samples scissors_count rock_count i /\
      target (get us i) = None /\ vx (get us i) = 0 /\ vy (get us i) = 0.
Proof.
  eexists. split; [apply initialize_units_blocks; assumption|].
  split; [reflexivity|].
  split; [now rewrite length_map, length_seq|].
  intros i Hi. rewrite length_map, length_seq in Hi.
  assert (E : get (map (initial_unit samples scissors_count rock_count)
                       (seq 0 (Z.to_nat (scissors_count + rock_count
                                         + paper_count)))) i
              = initial_unit samples scissors_count rock_count i).
  { unfold get. apply nth_map_seq. exact Hi. }
  rewrite E. repeat split.
Qed.

(** A call that raises was given a negative count. *)
Lemma initialize_units_raises (samples : nat -> float * float) (a b c : Z)
  (e : Py.exn) :
  initialize_units samples a b c = inl e -> (a < 0 \/ b < 0 \/ c < 0)%Z.
Proof.
  intros H.
  destruct (Z_lt_ge_dec a 0) as [Ha|Ha]; [auto|].
  destruct (Z_lt_ge_dec b 0) as [Hb|Hb]; [auto|].
  destruct (Z_lt_ge_dec c 0) as [Hc|Hc]; [auto|].
  rewrite initialize_units_blocks in H by lia. discriminate.
Qed.

Lemma initialize_units_succeeds_witness :
  exists us, initialize_units Examples.same_spot 1 1 1 = inr us
             /\ length us = 3%nat.
Proof.
  destruct (initialize_units_succeeds Examples.same_spot 1 1 1)
    as (us & H & _ & L & _); try lia.
  exists us. split; [exact H | exact L].
Defined.

(** C9, against the specification.  A negative count is not refused: with
    the counts -1, 2 and 0 the call succeeds and returns two rocks, both at
    the only sample drawn.  When it fails, it is numpy that raises: on a
    negative total, and on an index outside the array of samples. *)
Lemma negative_count_accepted :
  initialize_units Examples.same_spot (-1) 2 0
  = inr [Unit_init 1 10 20; Unit_init 1 10 20] /\
  initialize_units Examples.same_spot (-1) 0 0 = inl Py.ValueError /\
  initialize_units Examples.same_spot (-1) 1 0 = inl Py.IndexError.
Proof. vm_compute. repeat split. Qed.

(** ** The end of the run *)

Lemma frame_total (s : State) :
  units s <> [] -> exists s', frame s = inr s'.
Proof.
  intros H. unfold frame.
  destruct (units s) as [|u us] eqn:E; [contradiction|].
  cbn [SpatialTree_init Py.bind Py.ret].
  destruct (update_targets _ _) as [us1 g1].
  destruct (update_positions _ _ _) as [us2 g2].
  destruct (collect_new_types _ _ _) as [new_types g3].
  destruct (if (MAX_TIME <=? _)%nat then _ else _) as [running1 status1].
  destruct (if check_end_condition _ then _ else _) as [running2 status2].
  eexists. reflexivity.
Qed.

(** The two ways through [while running]. *)
Lemma loop_S (fuel : nat) (events : nat -> list Py.Event) (s : State) :
  running s = true ->
  loop (S fuel) events s
  = (s' <- frame (set_running
                    (process_events (events (time_steps s)) true) s) ;;
     loop fuel events s').
Proof. intros R. cbn [loop]. rewrite R. reflexivity. Qed.

Lemma loop_stopped (fuel : nat) (events : nat -> list Py.Event) (s : State) :
  running s = false -> loop fuel events s = inr s.
Proof. intros R. destruct fuel; cbn [loop]; [|rewrite R]; reflexivity. Qed.

Lemma same_types_Forall (t : Z) (us vs : list Unit) :
  map unit_type vs = map unit_type us ->
  Forall (fun u => unit_type u = t) us ->
  Forall (fun u => unit_type u = t) vs.
Proof.
  intros E H.
  apply (Forall_map unit_type (fun z => z = t)).
  apply (Forall_map unit_type (fun z => z = t)) in H.
  now rewrite E.
Qed.

Lemma Forall_get (t : Z) (us : list Unit) (i : nat) :
  Forall (fun u => unit_type u = t) us -> (i < length us)%nat ->
  unit_type (get us i) = t.
Proof.
  intros H Hi. rewrite Forall_forall in H. apply H. apply nth_In. exact Hi.
Qed.

(** In a population of a single type nobody has a predator to collide with. *)
Lemma single_type_no_contact (t : Z) (us : list Unit) (st : SpatialTree)
  (self : nat) (g : Py.Rng) :
  Forall (fun u => unit_type u = t) us ->
  (length (tree st) <= length us)%nat -> (self < length us)%nat ->
  check_collision us st self g = (None, g).
Proof.
  intros H Hl Hs. rewrite check_collision_draws.
  destruct (qualifying us st self) as [|p q] eqn:E; [reflexivity|].
  assert (Hp : In p (qualifying us st self)) by (rewrite E; now left).
  unfold qualifying in Hp. apply filter_In in Hp. destruct Hp as [Hq _].
  apply query_by_type_In in Hq. destruct Hq as [(_ & Hlt & _) Ht].
  rewrite (Forall_get t us p H) in Ht by lia.
  rewrite (Forall_get t us self H Hs) in Ht.
  symmetry in Ht. now apply predator_type_other in Ht.
Qed.

Lemma single_type_collects_nothing (t : Z) (us : list Unit)
  (st : SpatialTree) (g : Py.Rng) (n : nat) :
  Forall (fun u => unit_type u = t) us ->
  (length (tree st) <= length us)%nat -> (n <= length us)%nat ->
  collect_upto n us st g = ([], g).
Proof.
  intros H Hl. induction n as [|n IH]; intros Hn; [reflexivity|].
  rewrite collect_upto_S. cbv zeta. rewrite IH by lia. cbn [fst snd].
  rewrite (single_type_no_contact t) by (auto; lia). reflexivity.
Qed.

Lemma check_end_condition_single (t : Z) (us : list Unit) :
  Forall (fun u => unit_type u = t) us -> check_end_condition us = true.
Proof.
  intros H. destruct us as [|u0 us]; [reflexivity|].
  unfold check_end_condition. apply forallb_forall. intros u Hu.
  rewrite Forall_forall in H. apply Z.eqb_eq.
  rewrite (H u Hu), (H u0); [reflexivity|now left].
Qed.

Lemma count_type_single (t : Z) (us : list Unit) :
  Forall (fun u => unit_type u = t) us -> count_type t us = length us.
Proof.
  unfold count_type. induction 1 as [|u us Hu _ IH]; [reflexivity|].
  cbn [filter]. rewrite Hu, Z.eqb_refl. cbn [length]. now rewrite IH.
Qed.

(** A population of a single type ends its first frame: the loop stops, the
    message names that type, and every unit still has it. *)
Lemma single_type_wins (s : State) (t : Z) :
  units s <> [] -> Forall (fun u => unit_type u = t) (units s) ->
  exists s',
    frame s = inr s' /\ running s' = false /\
    status_message s' = GameOverWins t /\
    time_steps s' = S (time_steps s) /\
    length (units s') = length (units s) /\
    count_type t (units s') = length (units s).
Proof.
  intros Hne Hall. destruct (frame_total s Hne) as [s' Hf].
  assert (Hpos : (0 < length (units s))%nat)
    by (destruct (units s); [congruence|cbn; lia]).
  exists s'. split; [exact Hf|].
  apply frame_phases in Hf. destruct Hf as (st & Hst & Hf).
  cbv zeta in Hf. destruct Hf as (Hu & Hts & _ & Hrun & Hmsg).
  apply SpatialTree_init_tree in Hst. destruct Hst as [Htree _].
  set (r1 := update_targets (units s) (rng s)) in *.
  set (r2 := update_positions (fst r1) st (snd r1)) in *.
  destruct (update_targets_keeps (units s) (rng s)) as (T1 & _ & L1).
  fold r1 in T1, L1.
  assert (T2 : map unit_type (fst r2) = map unit_type (units s)).
  { unfold r2. rewrite update_positions_eq, update_positions_upto_types.
    exact T1. }
  assert (L2 : length (fst r2) = length (units s)).
  { unfold r2. rewrite update_positions_eq, update_positions_upto_length.
    exact L1. }
  assert (A2 : Forall (fun u => unit_type u = t) (fst r2))
    by (apply (same_types_Forall t (units s)); assumption).
  assert (E3 : units s' = fst r2).
  { rewrite Hu.
    change (collect_new_types (fst r2) st (snd r2))
      with (collect_upto (length (fst r2)) (fst r2) st (snd r2)).
    rewrite (single_type_collects_nothing t); auto.
    rewrite Htree, length_map. lia. }
  assert (A3 : Forall (fun u => unit_type u = t) (units s'))
    by (rewrite E3; exact A2).
  pose proof (check_end_condition_single t _ A3) as Hend.
  split; [apply Hrun; exact Hend|]. split.
  - rewrite (Hmsg Hend).
    destruct (units s') as [|u0 us3] eqn:E.
    + rewrite <- E3 in L2. cbn in L2. lia.
    + inversion A3; subst. reflexivity.
  - split; [exact Hts|]. split; [rewrite E3; exact L2|].
    rewrite (count_type_single t _ A3), E3. exact L2.
Qed.

(** With one scissors unit and nothing else, [main] stops after one frame
    and scissors win. *)
Lemma main_single_unit (samples : nat -> float * float)
  (events : nat -> list Py.Event) (g : Py.Rng) :
  exists s',
    main samples events g 1 0 0 = inr s' /\ running s' = false /\
    status_message s' = GameOverWins 0 /\ time_steps s' = 1%nat /\
    count_type 0 (units s') = 1%nat.
Proof.
  unfold main. rewrite initialize_units_blocks by lia.
  cbn [Py.bind Z.add Z.to_nat Pos.to_nat Pos.iter_op seq map].
  set (s0 := mkState _ 0 true Running g).
  destruct (single_type_wins
              (set_running (process_events (events 0%nat) true) s0) 0)
    as (s' & Hf & Hr & Hm & Ht & Hl & Hc).
  { discriminate. }
  { repeat constructor. }
  exists s'. unfold MAX_TIME. rewrite loop_S by reflexivity.
  change (time_steps s0) with 0%nat. rewrite Hf.
  cbn [Py.bind]. rewrite loop_stopped by exact Hr. auto.
Qed.

(** C8 at the failing input.  With no units at all, initialization returns
    the empty list and [check_end_condition] would accept it, but the first
    frame raises when it builds the index, so [main] ends with that exception
    and never reaches the check. *)
Theorem empty_population_raises (samples : nat -> float * float)
  (events : nat -> list Py.Event) (g : Py.Rng) :
  initialize_units samples 0 0 0 = inr [] /\
  check_end_condition [] = true /\
  frame (mkState [] 0 true Running g) = inl Py.ValueError /\
  main samples events g 0 0 0 = inl Py.ValueError.
Proof.
  assert (H : initialize_units samples 0 0 0 = inr [])
    by (rewrite initialize_units_blocks by lia; reflexivity).
  split; [exact H|]. split; [reflexivity|]. split; [reflexivity|].
  unfold main. rewrite H. reflexivity.
Qed.

(** ** Alignment and the order of the updates *)

Lemma fold_left_ext {A B : Type} (f h : A -> B -> A) (l : list B) (a : A) :
  (forall a b, f a b = h a b) -> fold_left f l a = fold_left h l a.
Proof.
  intros E. revert a; induction l as [|b l IH]; intros a; cbn; [reflexivity|].
  now rewrite E, IH.
Qed.

(** What [move_towards_target] reads of the stored velocities.  [vs] is the
    list [us] with other velocities stored in its units. *)
Section Velocities.

Variables us vs : list Unit.
Hypothesis Hlen : length vs = length us.
Hypothesis Hsame : forall j, same_but_velocity (get vs j) (get us j).

Lemma sbv_type (j : nat) : unit_type (get vs j) = unit_type (get us j).
Proof. apply Hsame. Qed.

Lemma sbv_x (j : nat) : x (get vs j) = x (get us j).
Proof. apply Hsame. Qed.

Lemma sbv_y (j : nat) : y (get vs j) = y (get us j).
Proof. apply Hsame. Qed.

Lemma sbv_target (j : nat) : target (get vs j) = target (get us j).
Proof. apply Hsame. Qed.

Lemma attraction_sbv (self : nat) : attraction vs self = attraction us self.
Proof.
  unfold attraction. cbv zeta. rewrite sbv_target.
  destruct (target (get us self)) as [tg|]; [|reflexivity].
  now rewrite !sbv_x, !sbv_y.
Qed.

Lemma query_by_type_sbv (st : SpatialTree) (self : nat) (r : float) (t : Z) :
  query_by_type vs st self r t = query_by_type us st self r t.
Proof.
  unfold query_by_type, query_radius, pos. cbv zeta.
  rewrite sbv_x, sbv_y. apply filter_ext. intros u. now rewrite sbv_type.
Qed.

Lemma find_threats_sbv (st : SpatialTree) (self : nat) :
  find_threats vs st self = find_threats us st self.
Proof.
  unfold find_threats. cbv zeta.
  rewrite sbv_type, query_by_type_sbv, sbv_x, sbv_y.
  apply map_ext. intros u. now rewrite sbv_x, sbv_y.
Qed.

Lemma repulsion_sbv (self : nat) (threats : list (nat * float))
  (v : float * float) :
  repulsion vs self threats v = repulsion us self threats v.
Proof.
  unfold repulsion. cbv zeta. apply fold_left_ext. intros w td.
  now rewrite !sbv_x, !sbv_y.
Qed.

Lemma separation_sbv (self : nat) (neighbors : list nat) :
  separation vs self neighbors = separation us self neighbors.
Proof.
  unfold separation. cbv zeta. apply fold_left_ext.
  intros [[sep_x sep_y] sep_count] neighbor.
  now rewrite !sbv_x, !sbv_y.
Qed.

Lemma cohesion_sbv (self : nat) (neighbors : list nat) (v : float * float) :
  cohesion vs self neighbors v = cohesion us self neighbors v.
Proof.
  unfold cohesion. cbv zeta.
  rewrite (map_ext (fun u => x (get vs u)) (fun u => x (get us u)) sbv_x).
  rewrite (map_ext (fun u => y (get vs u)) (fun u => y (get us u)) sbv_y).
  now rewrite !sbv_x, !sbv_y.
Qed.

Lemma before_alignment_sbv (self : nat) (neighbors : list nat)
  (v : float * float) :
  before_alignment vs self neighbors v = before_alignment us self neighbors v.
Proof.
  unfold before_alignment. rewrite separation_sbv.
  destruct (separation us self neighbors) as [[sep_x sep_y] sep_count].
  apply cohesion_sbv.
Qed.

Lemma flocking_before_alignment (l : list Unit) (st : SpatialTree)
  (self : nat) (v : float * float) :
  let nb := find_same_type_neighbors l st self GROUP_RADIUS in
  nb <> [] ->
  flocking l st self v
  = vadd (before_alignment l self nb v)
         (fst (alignment l nb)) (snd (alignment l nb)).
Proof.
  cbv zeta. unfold flocking, before_alignment.
  destruct (find_same_type_neighbors l st self GROUP_RADIUS) as [|u nb];
    [contradiction|].
  intros _.
  destruct (separation l self (u :: nb)) as [[sep_x sep_y] sep_count].
  reflexivity.
Qed.

Lemma flocking_sbv (st : SpatialTree) (self : nat) (v : float * float) :
  let nb := find_same_type_neighbors us st self GROUP_RADIUS in
  alignment vs nb = alignment us nb ->
  flocking vs st self v = flocking us st self v.
Proof.
  cbv zeta. intros Ha.
  assert (Hnb : find_same_type_neighbors vs st self GROUP_RADIUS
                = find_same_type_neighbors us st self GROUP_RADIUS).
  { unfold find_same_type_neighbors. now rewrite sbv_type, query_by_type_sbv. }
  destruct (find_same_type_neighbors us st self GROUP_RADIUS) as [|u nb] eqn:E.
  - unfold flocking. now rewrite Hnb, E.
  - rewrite (flocking_before_alignment vs), (flocking_before_alignment us);
      rewrite ?Hnb, ?E; try discriminate.
    now rewrite Ha, before_alignment_sbv.
Qed.

Lemma center_attraction_sbv (self : nat) (v : float * float) :
  center_attraction vs self v = center_attraction us self v.
Proof. unfold center_attraction. cbv zeta. now rewrite sbv_x, sbv_y. Qed.

Lemma global_separation_sbv (self : nat) (v : float * float) :
  global_separation vs self v = global_separation us self v.
Proof.
  unfold global_separation. cbv zeta. rewrite Hlen.
  rewrite (fold_left_ext _
             (fun sep other =>
                if Nat.eqb other self then sep
                else
                  let dx := x (get us self) - x (get us other) in
                  let dy := y (get us self) - y (get us other) in
                  let dist := Py.norm dx dy in
                  if (dist <? MIN_DISTANCE / 1.05) && (0 <? dist) then
                    let force := 20.0 * (MIN_DISTANCE - dist) / MIN_DISTANCE in
                    vadd sep ((dx / dist) * force) ((dy / dist) * force)
                  else sep)); [reflexivity|].
  intros sep other. cbv zeta. now rewrite !sbv_x, !sbv_y.
Qed.

(** The unit a move writes is the same on both lists as soon as the two
    alignment terms are: no other step reads a stored velocity, the moved
    unit's own included. *)
Lemma move_towards_target_sbv (st : SpatialTree) (self : nat) (g : Py.Rng) :
  (self < length us)%nat ->
  alignment vs (find_same_type_neighbors us st self GROUP_RADIUS)
  = alignment us (find_same_type_neighbors us st self GROUP_RADIUS) ->
  get (fst (move_towards_target vs st self g)) self
  = get (fst (move_towards_target us st self g)) self.
Proof.
  intros Hs Ha. unfold move_towards_target, Py.random. cbv zeta. cbn [fst snd].
  rewrite !get_upd_same by (rewrite ?Hlen; exact Hs).
  rewrite attraction_sbv, find_threats_sbv, repulsion_sbv.
  rewrite (flocking_sbv st self _ Ha).
  rewrite center_attraction_sbv, global_separation_sbv.
  unfold set_motion. now rewrite sbv_type, sbv_target, sbv_x, sbv_y.
Qed.

End Velocities.

(** The neighbours of the unit whose turn it is are those of the list the
    frame started with: the index is the one built then, the unit has not
    moved yet, and types do not change while units move. *)
Lemma neighbors_at_turn (us : list Unit) (st : SpatialTree) (g : Py.Rng)
  (k : nat) (r : float) :
  find_same_type_neighbors (fst (update_positions_upto k us st g)) st k r
  = find_same_type_neighbors us st k r.
Proof.
  set (live := fst (update_positions_upto k us st g)).
  assert (T : forall j, unit_type (get live j) = unit_type (get us j)).
  { intros j. apply get_map. apply update_positions_upto_types. }
  assert (P : get live k = get us k)
    by (apply update_positions_upto_later; lia).
  unfold find_same_type_neighbors, query_by_type, query_radius.
  cbv zeta. rewrite P. apply filter_ext. intros u. now rewrite T.
Qed.

(** C6, as the program has it.  The units are moved one after the other on
    the one list, so when the turn of unit [k] comes the units before it
    already store the position and the velocity of this frame, and the units
    from [k] on those of the previous frame.  Its neighbours are those the
    index of the frame gives for the list the frame started with.  The group
    block adds, to a velocity computed from positions only, the mean of the
    velocities these neighbours store at that moment, times
    [GROUP_ALIGNMENT]; and this term is all that the move reads of the
    stored velocities: with any other velocities in the units that give the
    same term, unit [k] is written the same. *)
Theorem alignment_reads_live_velocities (us : list Unit) (st : SpatialTree)
  (g : Py.Rng) (k : nat) (Hk : (k < length us)%nat) :
  let live := fst (update_positions_upto k us st g) in
  let g_k := snd (update_positions_upto k us st g) in
  let final := fst (update_positions us st g) in
  let nb := find_same_type_neighbors us st k GROUP_RADIUS in
  let stored := fun j => if (j <? k)%nat then get final j else get us j in
  let n := Py.float_of_nat (length nb) in
  (forall j, get live j = stored j) /\
  find_same_type_neighbors live st k GROUP_RADIUS = nb /\
  get final k = get (fst (move_towards_target live st k g_k)) k /\
  (nb <> [] -> forall v,
     flocking live st k v
     = vadd (before_alignment live k nb v)
         (Py.sum (map (fun j => vx (stored j)) nb) / n * GROUP_ALIGNMENT)
         (Py.sum (map (fun j => vy (stored j)) nb) / n * GROUP_ALIGNMENT)) /\
  (forall vs v,
     (forall j, same_but_velocity (get vs j) (get live j)) ->
     before_alignment vs k nb v = before_alignment live k nb v) /\
  (forall vs,
     length vs = length live ->
     (forall j, same_but_velocity (get vs j) (get live j)) ->
     alignment vs nb = alignment live nb ->
     get (fst (move_towards_target vs st k g_k)) k = get final k).
Proof.
  cbv zeta.
  set (live := fst (update_positions_upto k us st g)).
  set (final := fst (update_positions us st g)).
  set (nb := find_same_type_neighbors us st k GROUP_RADIUS).
  assert (Hlive : forall j,
             get live j = if (j <? k)%nat then get final j else get us j).
  { intros j. destruct (Nat.ltb_spec j k) as [Hj|Hj].
    - unfold final. rewrite update_positions_eq. symmetry.
      apply update_positions_upto_earlier; lia.
    - apply update_positions_upto_later. exact Hj. }
  assert (Hnb : find_same_type_neighbors live st k GROUP_RADIUS = nb)
    by apply neighbors_at_turn.
  assert (Hfinal : get final k
                   = get (fst (move_towards_target live st k
                                 (snd (update_positions_upto k us st g)))) k).
  { unfold final. rewrite update_positions_eq.
    rewrite (update_positions_upto_earlier (S k) (length us)) by lia.
    now rewrite update_positions_upto_S. }
  split; [exact Hlive|]. split; [exact Hnb|]. split; [exact Hfinal|].
  split; [|split].
  - intros Hne v.
    rewrite flocking_before_alignment by (rewrite Hnb; exact Hne).
    rewrite Hnb. unfold alignment. cbn [fst snd].
    rewrite (map_ext (fun u => vx (get live u)) _
               (fun u => f_equal vx (Hlive u))).
    rewrite (map_ext (fun u => vy (get live u)) _
               (fun u => f_equal vy (Hlive u))).
    reflexivity.
  - intros vs v Hs. apply before_alignment_sbv. exact Hs.
  - intros vs Hl Hs Ha. rewrite Hfinal.
    apply move_towards_target_sbv; auto.
    + unfold live. rewrite update_positions_upto_length. exact Hk.
    + rewrite Hnb. exact Ha.
Qed.

(** Two scissors 50 apart: when the turn of the second comes, the first one
    stores the velocity it has just been given, and that velocity is the one
    the second adds, times [GROUP_ALIGNMENT]. *)
Lemma alignment_reads_live_velocities_witness :
  let live := fst (update_positions_upto 1 Examples.pair_ab
                     (Examples.index_of Examples.pair_ab) Examples.steady) in
  let final := fst (update_positions Examples.pair_ab
                      (Examples.index_of Examples.pair_ab) Examples.steady) in
  get live 0 = get final 0 /\
  flocking live (Examples.index_of Examples.pair_ab) 1 (0, 0)
  = vadd (before_alignment live 1 [0%nat] (0, 0))
         (vx (get final 0) * GROUP_ALIGNMENT)
         (vy (get final 0) * GROUP_ALIGNMENT).
Proof.
  pose proof (alignment_reads_live_velocities Examples.pair_ab
                (Examples.index_of Examples.pair_ab) Examples.steady 1
                ltac:(cbn; lia)) as H.
  cbv zeta in H. destruct H as (H1 & _ & _ & H4 & _).
  cbv zeta. split; [exact (H1 0%nat)|].
  rewrite (H4 ltac:(vm_compute; discriminate) (0, 0)).
  vm_compute. reflexivity.
Defined.

(** C6, against the specification.  Two scissors 50 apart, at rest, with
    draws that cancel the random movement.  The second unit moved reads the
    velocity the first has just been given, not its velocity of the previous
    frame, which was zero; and the velocity the unit at (400, 480) ends with
    is 0.1 when it is moved first and 0.09 when it is moved second. *)
Lemma velocity_depends_on_update_order :
  let ab := fst (update_positions Examples.pair_ab
                   (Examples.index_of Examples.pair_ab) Examples.steady) in
  let ba := fst (update_positions Examples.pair_ba
                   (Examples.index_of Examples.pair_ba) Examples.steady) in
  vx (get Examples.pair_ab 0) = 0 /\
  vx (get ab 0) = 0.1 /\
  vx (get ab 1) = -0.1 + vx (get ab 0) * GROUP_ALIGNMENT /\
  (vx (get ab 1) =? -0.1 + vx (get Examples.pair_ab 0) * GROUP_ALIGNMENT)
  = false /\
  pos (get Examples.pair_ba 1) = pos (get Examples.pair_ab 0) /\
  vx (get ba 1) = 0.1 + -0.1 * GROUP_ALIGNMENT /\
  (vx (get ab 0) =? vx (get ba 1)) = false.
Proof. vm_compute. repeat split. Qed.

(** ** Choice of a target *)

(** The candidates depend on the types and the positions only. *)
Lemma find_nearest_of_type_ext (us vs : list Unit) (self : nat) (t : Z)
  (k : nat) :
  map unit_type us = map unit_type vs -> map pos us = map pos vs ->
  find_nearest_of_type us self t k = find_nearest_of_type vs self t k.
Proof.
  intros Ht Hp.
  assert (Hl : length us = length vs)
    by (rewrite <- (length_map unit_type us), Ht; apply length_map).
  assert (Et : forall u, unit_type (get us u) = unit_type (get vs u))
    by (intros u; apply get_map; exact Ht).
  assert (Ep : forall u, pos (get us u) = pos (get vs u))
    by (intros u; apply get_map; exact Hp).
  unfold find_nearest_of_type. rewrite Hl.
  rewrite (filter_ext
             (fun u => (unit_type (get us u) =? t)%Z && negb (u =? self)%nat)
             (fun u => (unit_type (get vs u) =? t)%Z && negb (u =? self)%nat))
    by (intros u; now rewrite Et).
  destruct (filter _ (seq 0 (length vs))) as [|u0 tu]; [reflexivity|].
  rewrite (map_ext (fun u => pos (get us u)) (fun u => pos (get vs u)) Ep).
  rewrite Ep. reflexivity.
Qed.

Lemma find_target_ext (us vs : list Unit) (self : nat) (g : Py.Rng) :
  map unit_type us = map unit_type vs -> map pos us = map pos vs ->
  find_target us self g = find_target vs self g.
Proof.
  intros Ht Hp. unfold find_target.
  rewrite (get_map unit_type us vs self Ht).
  rewrite (find_nearest_of_type_ext us vs self _ 3 Ht Hp). reflexivity.
Qed.

Lemma update_targets_upto_S (n : nat) (us : list Unit) (g : Py.Rng) :
  update_targets_upto (S n) us g
  = let s := update_targets_upto n us g in
    (upd n (set_target (fst (find_target (fst s) n (snd s)))) (fst s),
     snd (find_target (fst s) n (snd s))).
Proof.
  unfold update_targets_upto. rewrite fold_seq_S. cbv zeta.
  destruct (find_target _ n _); reflexivity.
Qed.

Lemma update_targets_upto_keeps (n : nat) (us : list Unit) (g : Py.Rng) :
  map unit_type (fst (update_targets_upto n us g)) = map unit_type us /\
  map pos (fst (update_targets_upto n us g)) = map pos us /\
  length (fst (update_targets_upto n us g)) = length us.
Proof.
  induction n as [|n IH]; [cbn; auto|].
  rewrite update_targets_upto_S. cbv zeta. cbn [fst].
  destruct IH as (Ht & Hp & Hl).
  rewrite upd_keeps_types, upd_keeps_pos, upd_length by reflexivity. auto.
Qed.

Lemma update_targets_upto_target (n m i : nat) (us : list Unit) (g : Py.Rng) :
  (i < n)%nat -> (n <= m)%nat ->
  target (get (fst (update_targets_upto m us g)) i)
  = target (get (fst (update_targets_upto n us g)) i).
Proof.
  intros Hi Hm. induction Hm as [|m Hm IH]; [reflexivity|].
  rewrite update_targets_upto_S. cbv zeta. cbn [fst].
  rewrite get_upd_other by lia. exact IH.
Qed.

Lemma firstn_length_le {A} (k : nat) (l : list A) :
  (length (firstn k l) <= k)%nat.
Proof. rewrite length_firstn. lia. Qed.

Lemma find_nearest_of_type_length (us : list Unit) (self : nat) (t : Z)
  (k : nat) :
  (length (find_nearest_of_type us self t k) <= k)%nat.
Proof.
  unfold find_nearest_of_type.
  destruct (filter _ _) as [|u0 tu]; [cbn; lia|].
  set (ps := map _ (u0 :: tu)).
  destruct (0 <? length ps)%nat; [|cbn; lia].
  rewrite length_map. unfold Py.query.
  destruct (length ps <? k)%nat eqn:E.
  - apply Nat.ltb_lt in E. pose proof (firstn_length_le (length ps)
      (Py.sort_by_dist (map (fun i => (i, Py.dist (nth i ps (0, 0))
                                            (pos (get us self))))
                            (seq 0 (length ps))))). lia.
  - apply firstn_length_le.
Qed.

(** C7, as the program has it.  At most three candidates are asked for.
    Without a candidate there is no target and no draw.  With a single
    candidate it is the target whatever the draw.  With two or three, the
    nearest is the target when the draw is below 0.95; otherwise
    [random.randint] picks the rank among the other candidates.  The choice
    reads no earlier target, and the loop over the units gives each unit the
    target its own call returned.  The first candidate is at its distance
    from the unit, and no other unit of the prey type is strictly nearer. *)
Theorem target_choice (us : list Unit) (self : nat) (g : Py.Rng) :
  let pts :=
    find_nearest_of_type us self (prey_type (unit_type (get us self))) 3 in
  let n := length pts in
  let r := Py.floats g (Py.cursor g) in
  let nearest := fst (nth 0 pts (0%nat, 0)) in
  (n <= 3)%nat /\
  (n = 0%nat -> find_target us self g = (None, g)) /\
  (n = 1%nat -> find_target us self g = (Some nearest, Py.advance g)) /\
  ((2 <= n)%nat -> (r <? 0.95) = true ->
   find_target us self g = (Some nearest, Py.advance g)) /\
  ((2 <= n)%nat -> (r <? 0.95) = false ->
   let k := fst (Py.randint 1 (Z.of_nat n - 1) (Py.advance g)) in
   (1 <= k <= Z.of_nat n - 1)%Z /\
   find_target us self g
   = (Some (fst (nth (Z.to_nat k) pts (0%nat, 0))),
      Py.advance (Py.advance g))) /\
  (forall vs, map unit_type vs = map unit_type us -> map pos vs = map pos us ->
              find_target vs self g = find_target us self g) /\
  ((self < length us)%nat ->
   target (get (fst (update_targets us g)) self)
   = fst (find_target us self (snd (update_targets_upto self us g)))) /\
  (forall u, (u < length us)%nat ->
     unit_type (get us u) = prey_type (unit_type (get us self)) ->
     u <> self ->
     pts <> [] /\
     snd (nth 0 pts (0%nat, 0))
     = Py.dist (pos (get us nearest)) (pos (get us self)) /\
     (Py.dist (pos (get us u)) (pos (get us self))
        <? snd (nth 0 pts (0%nat, 0))) = false).
Proof.
  cbv zeta. unfold prey_type.
  split; [apply find_nearest_of_type_length|].
  unfold find_target.
  set (pts := find_nearest_of_type us self _ 3).
  split; [|split; [|split; [|split; [|split; [|split]]]]];
    [| | | | | |
     intros u Hu Ht Hs;
     destruct (nearest_is_minimal us self _ 3 u ltac:(lia) Hu Ht Hs)
       as [Hne Hmin];
     fold pts in Hne, Hmin;
     assert (Hlen : (0 < length pts)%nat)
       by (destruct pts; [contradiction|cbn; lia]);
     split; [exact Hne|]; split; [|exact Hmin];
     apply (find_nearest_of_type_dist us self
              ((unit_type (get us self) + 2) mod 3)%Z 3
              (nth 0 pts (0%nat, 0)));
     apply nth_In; exact Hlen].
  - intros H. destruct pts; [reflexivity|discriminate].
  - intros H. destruct pts as [|c pts']; [discriminate|].
    rewrite H. cbn [Nat.ltb Nat.leb Nat.eqb Py.random].
    now rewrite orb_true_r.
  - intros H Hr. destruct pts as [|c pts']; [cbn in H; lia|].
    replace (0 <? length (c :: pts'))%nat with true by reflexivity.
    unfold Py.random. now rewrite Hr.
  - intros H Hr. split; [apply randint_range; lia|].
    destruct pts as [|c pts'] eqn:E; [cbn in H; lia|]. rewrite <- E in *.
    replace (0 <? length pts)%nat with true
      by (symmetry; apply Nat.ltb_lt; lia).
    unfold Py.random. rewrite Hr.
    replace (length pts =? 1)%nat with false
      by (symmetry; apply Nat.eqb_neq; lia).
    cbn [orb]. unfold Py.randint. reflexivity.
  - intros vs Ht Hp. fold (find_target vs self g).
    unfold pts. fold (find_target us self g).
    apply find_target_ext; assumption.
  - intros Hs. fold pts.
    change (update_targets us g) with (update_targets_upto (length us) us g).
    rewrite (update_targets_upto_target (S self) (length us)) by lia.
    rewrite update_targets_upto_S. cbv zeta. cbn [fst].
    destruct (update_targets_upto_keeps self us g) as (Ht & Hp & Hl).
    rewrite get_upd_same by lia. cbn [target set_target].
    unfold pts. fold (find_target us self (snd (update_targets_upto self us g))).
    f_equal. apply find_target_ext; assumption.
Qed.

Lemma target_choice_witness :
  find_target Examples.two_preys 0 (Examples.tape [0.99])
  = (Some 1%nat, Py.advance (Py.advance (Examples.tape [0.99]))) /\
  find_target Examples.two_preys 0 (Examples.tape [0.5])
  = (Some 2%nat, Py.advance (Examples.tape [0.5])).
Proof.
  split.
  - destruct (target_choice Examples.two_preys 0 (Examples.tape [0.99]))
      as (_ & _ & _ & _ & H & _).
    destruct H as [_ E]; [vm_compute; lia|vm_compute; reflexivity|].
    rewrite E. vm_compute. reflexivity.
  - destruct (target_choice Examples.two_preys 0 (Examples.tape [0.5]))
      as (_ & _ & _ & H & _).
    rewrite H; [vm_compute; reflexivity|vm_compute; lia|vm_compute; reflexivity].
Defined.


(** C7, against the specification.  The single paper unit is the only
    candidate of the scissors unit; with a draw of 0.99, which is not below
    0.95, the target is still that nearest candidate, for there is no other
    one. *)
Lemma single_candidate_always_chosen :
  find_nearest_of_type Examples.lone_prey 0
    (prey_type (unit_type (get Examples.lone_prey 0))) 3 = [(1%nat, 20)] /\
  (Py.floats (Examples.tape [0.99]) 0 <? 0.95) = false /\
  find_target Examples.lone_prey 0 (Examples.tape [0.99])
  = (Some 1%nat, Py.advance (Examples.tape [0.99])).
Proof. vm_compute. repeat split. Qed.

(** ** The loop stops by itself *)

Lemma frame_time_limit (s s' : State) :
  frame s = inr s' ->
  time_steps s' = S (time_steps s) /\
  ((MAX_TIME <= time_steps s')%nat -> running s' = false).
Proof.
  unfold frame.
  destruct (SpatialTree_init (units s)) as [e|spatial_tree]; [discriminate|].
  cbn [Py.bind].
  destruct (update_targets (units s) (rng s)) as [us1 g1].
  destruct (update_positions us1 spatial_tree g1) as [us2 g2].
  destruct (collect_new_types us2 spatial_tree g2) as [new_types g3].
  destruct (MAX_TIME <=? S (time_steps s))%nat eqn:E.
  - destruct (check_end_condition _); [destruct (apply_new_types _ _)|];
      intros H; injection H as <-; cbn; auto.
  - apply Nat.leb_gt in E.
    destruct (check_end_condition _); [destruct (apply_new_types _ _)|];
      intros H; injection H as <-; cbn; split; auto; intros; lia.
Qed.

Lemma loop_stops (fuel : nat) (events : nat -> list Py.Event)
  (s s' : State) :
  (MAX_TIME <= time_steps s + fuel)%nat ->
  ((MAX_TIME <= time_steps s)%nat -> running s = false) ->
  loop fuel events s = inr s' -> running s' = false.
Proof.
  revert s; induction fuel as [|fuel IH]; intros s Hf Hr.
  - cbn [loop]. intros H. injection H as <-. apply Hr. lia.
  - destruct (running s) eqn:R.
    + rewrite loop_S by exact R.
      destruct (frame _) as [e|s1] eqn:F; cbn [Py.bind]; [discriminate|].
      destruct (frame_time_limit _ _ F) as [Ht Hl].
      cbn [time_steps set_running] in Ht.
      apply IH; [lia|exact Hl].
    + rewrite loop_stopped by exact R. intros H. injection H as <-. exact R.
Qed.

(** Whenever [main] returns, the loop has stopped: [MAX_TIME] frames are
    enough fuel. *)
Lemma main_stops (samples : nat -> float * float)
  (events : nat -> list Py.Event) (g : Py.Rng) (a b c : Z) (s' : State) :
  main samples events g a b c = inr s' -> running s' = false.
Proof.
  unfold main.
  destruct (initialize_units samples a b c) as [e|us]; cbn [Py.bind];
    [discriminate|].
  apply loop_stops; cbn [time_steps]; [lia|].
  unfold MAX_TIME. lia.
Qed.

(** * Further properties of the program *)

(** ** What a move touches *)

Lemma upd_keeps {A : Type} (f : Unit -> A) (i : nat) (h : Unit -> Unit)
  (us : list Unit) :
  (forall u, f (h u) = f u) -> map f (upd i h us) = map f us.
Proof.
  intros Hf. revert i; induction us as [|u us IH]; intros [|i]; cbn;
    f_equal; auto.
Qed.

Lemma move_towards_target_tape (us : list Unit) (st : SpatialTree)
  (self : nat) (g : Py.Rng) :
  snd (move_towards_target us st self g) = Py.advance (Py.advance g).
Proof. reflexivity. Qed.

Lemma update_positions_upto_cursor (n : nat) (us : list Unit)
  (st : SpatialTree) (g : Py.Rng) :
  Py.floats (snd (update_positions_upto n us st g)) = Py.floats g /\
  Py.ints (snd (update_positions_upto n us st g)) = Py.ints g /\
  Py.cursor (snd (update_positions_upto n us st g))
  = (Py.cursor g + 2 * n)%nat.
Proof.
  induction n as [|n IH].
  - cbn. repeat split. lia.
  - rewrite update_positions_upto_S, move_towards_target_tape.
    destruct IH as (Hf & Hi & Hc). cbn [Py.advance Py.floats Py.ints Py.cursor].
    repeat split; try assumption. lia.
Qed.

Lemma update_positions_upto_targets (n : nat) (us : list Unit)
  (st : SpatialTree) (g : Py.Rng) :
  map target (fst (update_positions_upto n us st g)) = map target us.
Proof.
  induction n as [|n IH]; [reflexivity|].
  rewrite update_positions_upto_S.
  destruct (move_towards_target_writes
              (fst (update_positions_upto n us st g)) st n
              (snd (update_positions_upto n us st g)))
    as (px & py & wx & wy & ->).
  rewrite upd_keeps by reflexivity. exact IH.
Qed.

(** X1. A call of [move_towards_target] rewrites the position and the velocity
    of its own unit and nothing else: the list keeps its length, every unit
    keeps its type and its target, every other unit is untouched; it makes
    exactly two draws.  So the movement loop of a frame makes two draws for
    each unit and changes no type and no target. *)
Theorem move_towards_target_footprint (us : list Unit) (st : SpatialTree)
  (self : nat) (g : Py.Rng) :
  let r := move_towards_target us st self g in
  length (fst r) = length us /\
  map unit_type (fst r) = map unit_type us /\
  map target (fst r) = map target us /\
  (forall j, j <> self -> get (fst r) j = get us j) /\
  Py.cursor (snd r) = (Py.cursor g + 2)%nat /\
  Py.floats (snd r) = Py.floats g /\ Py.ints (snd r) = Py.ints g /\
  let r' := update_positions us st g in
  length (fst r') = length us /\
  map unit_type (fst r') = map unit_type us /\
  map target (fst r') = map target us /\
  Py.cursor (snd r') = (Py.cursor g + 2 * length us)%nat.
Proof.
  cbv zeta.
  split; [apply move_towards_target_length|].
  split; [apply move_towards_target_types|].
  split.
  { destruct (move_towards_target_writes us st self g)
      as (px & py & wx & wy & ->).
    apply upd_keeps. reflexivity. }
  split; [intros j Hj; apply move_towards_target_other; congruence|].
  rewrite move_towards_target_tape. cbn [Py.advance Py.floats Py.ints Py.cursor].
  split; [lia|]. split; [reflexivity|]. split; [reflexivity|].
  rewrite update_positions_eq.
  split; [apply update_positions_upto_length|].
  split; [apply update_positions_upto_types|].
  split; [apply update_positions_upto_targets|].
  apply update_positions_upto_cursor.
Qed.

(** ** What a frame does to the population *)

Lemma apply_new_types_targets (l : list (nat * Z)) (vs : list Unit) :
  map target (apply_new_types l vs) = map target vs.
Proof.
  revert vs; induction l as [|[i t] l IH]; intros vs; cbn; [reflexivity|].
  unfold apply_new_types in IH. rewrite IH.
  apply upd_keeps. reflexivity.
Qed.

(** The type of a unit after the two collision loops. *)
Lemma converted_type (us : list Unit) (st : SpatialTree) (g : Py.Rng)
  (i : nat) :
  (i < length us)%nat ->
  let t' := unit_type (get (apply_new_types
                              (fst (collect_new_types us st g)) us) i) in
  t' = unit_type (get us i) \/ t' = predator_type (unit_type (get us i)).
Proof.
  intros Hi. cbv zeta.
  change (collect_new_types us st g) with (collect_upto (length us) us st g).
  rewrite apply_collect_upto by exact Hi.
  replace (i <? length us)%nat with true
    by (symmetry; apply Nat.ltb_lt; exact Hi).
  destruct (check_collision us st i (snd (collect_upto i us st g)))
    as [[t'|] g'] eqn:E; cbn [fst]; [|now left].
  right. rewrite check_collision_draws in E.
  assert (H1 : fst (draws_until_success
                      (predator_type (unit_type (get us i)))
                      (length (qualifying us st i))
                      (snd (collect_upto i us st g))) = Some t')
    by (rewrite E; reflexivity).
  apply draws_some in H1. apply H1.
Qed.

Lemma frame_length (s s' : State) :
  frame s = inr s' -> length (units s') = length (units s).
Proof.
  intros Hf. apply frame_phases in Hf. destruct Hf as (st & _ & Hf).
  cbv zeta in Hf. destruct Hf as (Hu & _).
  rewrite Hu, apply_new_types_length, update_positions_eq,
    update_positions_upto_length.
  apply update_targets_keeps.
Qed.

(** X2. A frame neither adds nor removes a unit, and a unit ends the frame
    with the type it had or with the type of its predator; so a population
    whose types are all 0, 1 or 2 stays one. *)
Theorem frame_keeps_population (s s' : State) (Hf : frame s = inr s') :
  length (units s') = length (units s) /\
  (forall i, (i < length (units s))%nat ->
     unit_type (get (units s') i) = unit_type (get (units s) i) \/
     unit_type (get (units s') i)
     = predator_type (unit_type (get (units s) i))) /\
  (Forall (fun u => (0 <= unit_type u < 3)%Z) (units s) ->
   Forall (fun u => (0 <= unit_type u < 3)%Z) (units s')).
Proof.
  apply frame_phases in Hf. destruct Hf as (st & _ & Hf). cbv zeta in Hf.
  destruct Hf as (Hu & _).
  set (r1 := update_targets (units s) (rng s)) in *.
  set (r2 := update_positions (fst r1) st (snd r1)) in *.
  destruct (update_targets_keeps (units s) (rng s)) as (T1 & _ & L1).
  fold r1 in T1, L1.
  assert (T2 : map unit_type (fst r2) = map unit_type (units s)).
  { unfold r2. rewrite update_positions_eq, update_positions_upto_types.
    exact T1. }
  assert (L2 : length (fst r2) = length (units s)).
  { unfold r2. rewrite update_positions_eq, update_positions_upto_length.
    exact L1. }
  assert (L3 : length (units s') = length (units s))
    by (rewrite Hu, apply_new_types_length; exact L2).
  assert (Hstep : forall i, (i < length (units s))%nat ->
            unit_type (get (units s') i) = unit_type (get (units s) i) \/
            unit_type (get (units s') i)
            = predator_type (unit_type (get (units s) i))).
  { intros i Hi. rewrite Hu.
    rewrite <- (get_map unit_type (fst r2) (units s) i T2).
    apply converted_type. lia. }
  split; [exact L3|]. split; [exact Hstep|].
  intros Hall. apply Forall_forall. intros u Hu'.
  destruct (In_nth _ _ (Unit_init 0 0 0) Hu') as (i & Hi & <-).
  fold (get (units s') i).
  destruct (Hstep i ltac:(lia)) as [-> | ->].
  - rewrite Forall_forall in Hall. apply Hall. apply nth_In. lia.
  - apply predator_type_range.
Qed.

Lemma frame_keeps_population_witness :
  exists s',
    frame (mkState Examples.two_rocks 0 true Running Examples.steady) = inr s'
    /\ length (units s') = 3%nat.
Proof.
  destruct (frame_total
              (mkState Examples.two_rocks 0 true Running Examples.steady))
    as [s' Hs']; [discriminate|].
  exists s'. split; [exact Hs'|].
  rewrite (proj1 (frame_keeps_population _ s' Hs')). reflexivity.
Defined.

(** ** What a target is *)

Lemma find_nearest_of_type_range (us : list Unit) (self : nat) (t : Z)
  (k : nat) (c : nat * float) :
  In c (find_nearest_of_type us self t k) -> (fst c < length us)%nat.
Proof.
  unfold find_nearest_of_type.
  set (tu := filter _ _).
  destruct tu as [|u0 tu'] eqn:Etu; [intros []|].
  rewrite <- Etu. clear Etu u0 tu'.
  destruct (0 <? length (map (fun u => pos (get us u)) tu))%nat; [|intros []].
  intros H. apply in_map_iff in H. destruct H as [r [<- Hr]].
  apply query_In in Hr. rewrite length_map in Hr. cbn [fst].
  assert (Hin : In (nth (fst r) tu 0%nat) tu) by (apply nth_In; exact Hr).
  unfold tu in Hin at 2. apply filter_In in Hin.
  destruct Hin as [Hin _]. apply in_seq in Hin. lia.
Qed.

(** A target is another unit of the list, of the prey type. *)
Lemma find_target_some (us : list Unit) (self : nat) (g g' : Py.Rng)
  (tg : nat) :
  find_target us self g = (Some tg, g') ->
  (tg < length us)%nat /\ tg <> self /\
  unit_type (get us tg) = prey_type (unit_type (get us self)).
Proof.
  intros H. apply find_target_In in H. destruct H as [d H].
  pose proof (find_nearest_of_type_range _ _ _ _ _ H) as Hr.
  apply find_nearest_of_type_In in H. cbn [fst] in *.
  destruct H as [Ht Hs]. repeat split; assumption.
Qed.

(** There is no target exactly when the prey type has no other unit. *)
Lemma find_target_none_iff (us : list Unit) (self : nat) (g : Py.Rng) :
  fst (find_target us self g) = None <->
  forall u, (u < length us)%nat -> u <> self ->
            unit_type (get us u) <> prey_type (unit_type (get us self)).
Proof.
  split.
  - intros H u Hu Hs Ht.
    destruct (nearest_is_minimal us self _ 3 u ltac:(lia) Hu Ht Hs)
      as [Hne _].
    unfold find_target in H. unfold prey_type in Hne.
    destruct (find_nearest_of_type us self _ 3) as [|c pts];
      [contradiction|].
    cbn [length Nat.ltb Nat.leb] in H. unfold Py.random, Py.randint in H.
    destruct (_ || _) in H; discriminate.
  - intros H. unfold find_target.
    destruct (find_nearest_of_type us self _ 3) as [|c pts] eqn:E;
      [reflexivity|].
    assert (Hc : In c (find_nearest_of_type us self
                         ((unit_type (get us self) + 2) mod 3)%Z 3))
      by (rewrite E; now left).
    pose proof (find_nearest_of_type_range _ _ _ _ _ Hc) as Hr.
    apply find_nearest_of_type_In in Hc. destruct Hc as [Ht Hs].
    exfalso. exact (H (fst c) Hr Hs Ht).
Qed.

Lemma find_target_tape (us : list Unit) (self : nat) (g : Py.Rng) :
  let r := find_target us self g in
  Py.floats (snd r) = Py.floats g /\ Py.ints (snd r) = Py.ints g /\
  (fst r = None -> snd r = g) /\
  (fst r <> None ->
   Py.cursor (snd r) = (Py.cursor g + 1)%nat \/
   Py.cursor (snd r) = (Py.cursor g + 2)%nat).
Proof.
  cbv zeta. unfold find_target.
  destruct (find_nearest_of_type us self _ 3) as [|c pts].
  - cbn. repeat split. intros H; contradiction.
  - cbn [length Nat.ltb Nat.leb]. unfold Py.random, Py.randint.
    destruct (_ || _); cbn [fst snd Py.advance Py.floats Py.ints Py.cursor];
      repeat split; try discriminate; intros _; [left|right]; lia.
Qed.

(** X3. [find_target] returns no target exactly when no other unit of the
    list has the prey type, and then it makes no draw; a target it returns is
    another unit of the list, of the prey type, and costs one or two draws. *)
Theorem find_target_finds_prey (us : list Unit) (self : nat) (g : Py.Rng) :
  let t := prey_type (unit_type (get us self)) in
  let r := find_target us self g in
  (fst r = None <->
   forall u, (u < length us)%nat -> u <> self -> unit_type (get us u) <> t) /\
  (fst r = None -> snd r = g) /\
  (forall tg, fst r = Some tg ->
     (tg < length us)%nat /\ tg <> self /\ unit_type (get us tg) = t /\
     (Py.cursor (snd r) = (Py.cursor g + 1)%nat \/
      Py.cursor (snd r) = (Py.cursor g + 2)%nat)) /\
  Py.floats (snd r) = Py.floats g /\ Py.ints (snd r) = Py.ints g.
Proof.
  cbv zeta.
  destruct (find_target_tape us self g) as (Hf & Hi & Hn & Hd).
  split; [apply find_target_none_iff|].
  split; [exact Hn|]. split; [|split; assumption].
  intros tg H.
  assert (E : find_target us self g = (Some tg, snd (find_target us self g)))
    by (rewrite <- H; apply surjective_pairing).
  destruct (find_target_some _ _ _ _ _ E) as (H1 & H2 & H3).
  repeat split; try assumption. apply Hd. rewrite H. discriminate.
Qed.

(** X4. After a frame every unit holds the target its own call of
    [find_target] returned in that frame: another unit of the population,
    which had the prey type when the frame began; and it holds none exactly
    when no other unit had the prey type then. *)
Theorem targets_after_frame (s s' : State) (Hf : frame s = inr s')
  (i : nat) (Hi : (i < length (units s))%nat) :
  let t := prey_type (unit_type (get (units s) i)) in
  (forall tg, target (get (units s') i) = Some tg ->
     (tg < length (units s'))%nat /\ tg <> i /\
     unit_type (get (units s) tg) = t) /\
  (target (get (units s') i) = None <->
   forall u, (u < length (units s))%nat -> u <> i ->
             unit_type (get (units s) u) <> t).
Proof.
  cbv zeta.
  pose proof (frame_length s s' Hf) as L3.
  apply frame_phases in Hf. destruct Hf as (st & _ & Hf). cbv zeta in Hf.
  destruct Hf as (Hu & _).
  set (r1 := update_targets (units s) (rng s)) in *.
  set (r2 := update_positions (fst r1) st (snd r1)) in *.
  assert (E : target (get (units s') i)
              = fst (find_target (units s) i
                       (snd (update_targets_upto i (units s) (rng s))))).
  { rewrite Hu.
    rewrite (get_map target _ (fst r2) i (apply_new_types_targets _ _)).
    unfold r2. rewrite update_positions_eq.
    rewrite (get_map target _ (fst r1) i
               (update_positions_upto_targets _ _ _ _)).
    unfold r1.
    change (update_targets (units s) (rng s))
      with (update_targets_upto (length (units s)) (units s) (rng s)).
    rewrite (update_targets_upto_target (S i) (length (units s))) by lia.
    rewrite update_targets_upto_S. cbv zeta. cbn [fst].
    destruct (update_targets_upto_keeps i (units s) (rng s))
      as (Ht & Hp & Hl).
    rewrite get_upd_same by lia. cbn [target set_target].
    f_equal. apply find_target_ext; assumption. }
  rewrite E. split.
  - intros tg H.
    assert (E' : find_target (units s) i
                   (snd (update_targets_upto i (units s) (rng s)))
                 = (Some tg, snd (find_target (units s) i
                       (snd (update_targets_upto i (units s) (rng s))))))
      by (rewrite <- H; apply surjective_pairing).
    destruct (find_target_some _ _ _ _ _ E') as (H1 & H2 & H3).
    rewrite L3. repeat split; assumption.
  - apply find_target_none_iff.
Qed.

Lemma targets_after_frame_witness :
  exists s',
    frame (mkState Examples.lone_prey 0 true Running Examples.steady) = inr s'
    /\ target (get (units s') 1) = None.
Proof.
  destruct (frame_total
              (mkState Examples.lone_prey 0 true Running Examples.steady))
    as [s' Hs']; [discriminate|].
  exists s'. split; [exact Hs'|].
  apply (targets_after_frame _ s' Hs' 1); [cbn; lia|].
  intros [|[|u]] Hu Hne; cbn in Hu; try lia.
  vm_compute. discriminate.
Defined.

(** ** How a frame decides *)

Lemma winner_index_first_max (c0 c1 c2 : nat) :
  let w := winner_index c0 c1 c2 in
  let counts := [c0; c1; c2] in
  (w < 3)%nat /\
  (forall j, (j < 3)%nat -> (nth j counts 0 <= nth w counts 0)%nat) /\
  (forall j, (j < w)%nat -> (nth j counts 0 < nth w counts 0)%nat).
Proof.
  cbv zeta. unfold winner_index.
  destruct (Nat.eqb_spec c0 (Nat.max c0 (Nat.max c1 c2))) as [E0|E0].
  - repeat split; [lia| |intros j Hj; lia].
    intros [|[|[|j]]] Hj; cbn; lia.
  - destruct (Nat.eqb_spec c1 (Nat.max c0 (Nat.max c1 c2))) as [E1|E1].
    + repeat split; [lia| |].
      * intros [|[|[|j]]] Hj; cbn; lia.
      * intros [|j] Hj; cbn; lia.
    + repeat split; [lia| |].
      * intros [|[|[|j]]] Hj; cbn; lia.
      * intros [|[|j]] Hj; cbn; lia.
Qed.

(** X5. How a frame that completes decides.  The population is not empty.
    When all units share one type the loop stops with the message that this
    type wins, also in the frame that reaches [MAX_TIME].  Otherwise, in the
    frame that reaches [MAX_TIME], the loop stops with the time-limit message
    for the first type, in the order scissors, rock, paper, whose count is
    the largest, together with that count.  Otherwise nothing is decided. *)
Theorem frame_verdict (s s' : State) (Hf : frame s = inr s') :
  let counts := [count_type 0 (units s'); count_type 1 (units s');
                 count_type 2 (units s')] in
  units s' <> [] /\
  (check_end_condition (units s') = true ->
   running s' = false /\
   status_message s' = GameOverWins (unit_type (get (units s') 0))) /\
  (check_end_condition (units s') = false ->
   (MAX_TIME <= time_steps s')%nat ->
   running s' = false /\
   exists w, (w < 3)%nat /\
     status_message s' = TimeLimit w (nth w counts 0%nat) /\
     (forall j, (j < 3)%nat -> (nth j counts 0 <= nth w counts 0)%nat) /\
     (forall j, (j < w)%nat -> (nth j counts 0 < nth w counts 0)%nat)) /\
  (check_end_condition (units s') = false ->
   (time_steps s' < MAX_TIME)%nat ->
   running s' = running s /\ status_message s' = status_message s).
Proof.
  cbv zeta.
  assert (Hne : units s' <> []).
  { pose proof (frame_length s s' Hf) as L.
    apply frame_phases in Hf. destruct Hf as (st & Hst & _).
    apply SpatialTree_init_tree in Hst. destruct Hst as [_ Hs].
    intros E. rewrite E in L. destruct (units s); [congruence|discriminate]. }
  split; [exact Hne|].
  revert Hf. unfold frame.
  destruct (SpatialTree_init (units s)) as [e|spatial_tree]; [discriminate|].
  cbn [Py.bind].
  destruct (update_targets (units s) (rng s)) as [us1 g1].
  destruct (update_positions us1 spatial_tree g1) as [us2 g2].
  destruct (collect_new_types us2 spatial_tree g2) as [new_types g3].
  set (us3 := apply_new_types new_types us2).
  destruct (check_end_condition us3) eqn:E.
  - destruct (if (MAX_TIME <=? S (time_steps s))%nat then _ else _)
      as [running1 status1].
    destruct us3 as [|u0 us3'] eqn:E3; intros H; injection H as <-;
      cbn [units running status_message time_steps] in *;
      [congruence|].
    rewrite E. repeat split; discriminate.
  - destruct (MAX_TIME <=? S (time_steps s))%nat eqn:T;
      intros H; injection H as <-;
      cbn [units running status_message time_steps fst snd] in *;
      rewrite E.
    + split; [discriminate|]. split.
      * intros _ _. split; [reflexivity|].
        exists (winner_index (count_type 0 us3) (count_type 1 us3)
                             (count_type 2 us3)).
        destruct (winner_index_first_max (count_type 0 us3)
                    (count_type 1 us3) (count_type 2 us3)) as (H1 & H2 & H3).
        repeat split; assumption.
      * intros _ Hlt. apply Nat.leb_le in T. lia.
    + split; [discriminate|]. split.
      * intros _ Hge. apply Nat.leb_gt in T. lia.
      * intros _ _. split; reflexivity.
Qed.

Lemma frame_verdict_witness :
  exists s',
    frame (mkState Examples.two_preys 2999 true Running Examples.steady)
    = inr s' /\ units s' <> [].
Proof.
  destruct (frame_total
              (mkState Examples.two_preys 2999 true Running Examples.steady))
    as [s' Hs']; [discriminate|].
  exists s'. split; [exact Hs'|].
  apply (frame_verdict _ s' Hs').
Defined.

(** At the time limit the two papers outnumber the scissors unit. *)
Example time_limit_plurality :
  exists s',
    frame (mkState Examples.two_preys 2999 true Running Examples.steady)
    = inr s' /\ running s' = false /\ status_message s' = TimeLimit 2 2.
Proof. vm_compute. eexists. repeat split. Qed.

(** X6. [check_end_condition] holds exactly when no two units differ in
    type; in a population that is not empty this is when one type counts all
    the units, and that type is the type of the first unit. *)
Theorem check_end_condition_iff (us : list Unit) :
  (check_end_condition us = true <->
   forall u v, In u us -> In v us -> unit_type u = unit_type v) /\
  (us <> [] ->
   (check_end_condition us = true <->
    exists t, count_type t us = length us)) /\
  (forall t, us <> [] -> count_type t us = length us ->
             unit_type (get us 0) = t).
Proof.
  assert (Hcount : forall t l, count_type t l = length l ->
                               Forall (fun u => unit_type u = t) l).
  { intros t l. unfold count_type. induction l as [|u l IH]; cbn [filter].
    - constructor.
    - destruct (Z.eqb_spec (unit_type u) t) as [E|E]; cbn [length].
      + intros H. constructor; [exact E|]. apply IH. lia.
      + intros H. pose proof (filter_length_le
                                (fun u => (unit_type u =? t)%Z) l). lia. }
  split; [|split].
  - destruct us as [|u0 us]; cbn [check_end_condition].
    + split; [intros _ u v []|reflexivity].
    + rewrite forallb_forall. split.
      * intros H u v Hu Hv.
        apply H in Hu. apply H in Hv. apply Z.eqb_eq in Hu, Hv. congruence.
      * intros H u Hu. apply Z.eqb_eq. apply H; [exact Hu|now left].
  - intros Hne. split.
    + intros H. destruct us as [|u0 us]; [contradiction|].
      exists (unit_type u0). apply count_type_single.
      cbn [check_end_condition] in H. rewrite forallb_forall in H.
      apply Forall_forall. intros u Hu. apply Z.eqb_eq. now apply H.
    + intros [t Ht]. apply (check_end_condition_single t).
      apply Hcount. exact Ht.
  - intros t Hne Ht. apply Hcount in Ht.
    destruct us as [|u0 us]; [contradiction|].
    inversion Ht; subst. reflexivity.
Qed.

Lemma check_end_condition_iff_witness :
  check_end_condition Examples.pair_ab = true /\
  unit_type (get Examples.pair_ab 0) = 0%Z.
Proof.
  destruct (check_end_condition_iff Examples.pair_ab) as (_ & H1 & H2).
  split.
  - apply H1; [discriminate|]. exists 0%Z. reflexivity.
  - apply H2; [discriminate|reflexivity].
Defined.

(** ** The whole run *)

(** A frame either leaves a verdict and stops the loop, or leaves both the
    flag and the message as the event handling left them. *)
Lemma frame_verdict_or_unchanged (s s' : State) :
  frame s = inr s' ->
  (running s' = false /\
   ((exists t, status_message s' = GameOverWins t) \/
    (exists w c, status_message s' = TimeLimit w c))) \/
  (running s' = running s /\ status_message s' = status_message s).
Proof.
  intros Hf. pose proof (frame_length s s' Hf) as L.
  revert Hf. unfold frame.
  destruct (SpatialTree_init (units s)) as [e|spatial_tree] eqn:Hst;
    [discriminate|].
  apply SpatialTree_init_tree in Hst. destruct Hst as [_ Hne].
  cbn [Py.bind].
  destruct (update_targets (units s) (rng s)) as [us1 g1].
  destruct (update_positions us1 spatial_tree g1) as [us2 g2].
  destruct (collect_new_types us2 spatial_tree g2) as [new_types g3].
  destruct (check_end_condition (apply_new_types new_types us2)).
  - destruct (if (MAX_TIME <=? S (time_steps s))%nat then _ else _)
      as [running1 status1].
    destruct (apply_new_types new_types us2) as [|u0 us3];
      intros H; injection H as <-; cbn in *.
    + destruct (units s); [congruence|discriminate].
    + left. split; [reflexivity|]. left. eexists. reflexivity.
  - destruct (MAX_TIME <=? S (time_steps s))%nat;
      intros H; injection H as <-; cbn in *.
    + left. split; [reflexivity|]. right. do 2 eexists. reflexivity.
    + right. split; reflexivity.
Qed.

Lemma process_events_false (evs : list Py.Event) :
  process_events evs false = false.
Proof.
  unfold process_events.
  induction evs as [|[|] evs IH]; cbn [fold_left]; auto.
Qed.

Lemma process_events_quit (evs : list Py.Event) (r : bool) :
  In Py.QUIT evs -> process_events evs r = false.
Proof.
  unfold process_events. revert r.
  induction evs as [|[|] evs IH]; intros r; cbn [fold_left In].
  - intros [].
  - intros _. apply process_events_false.
  - intros [H|H]; [discriminate|]. now apply IH.
Qed.

Lemma process_events_none (evs : list Py.Event) (r : bool) :
  ~ In Py.QUIT evs -> process_events evs r = r.
Proof.
  unfold process_events. revert r.
  induction evs as [|[|] evs IH]; intros r; cbn [fold_left In].
  - reflexivity.
  - intros H. exfalso. apply H. now left.
  - intros H. apply IH. intros K. apply H. now right.
Qed.

Lemma process_events_stops (evs : list Py.Event) :
  process_events evs true = false -> In Py.QUIT evs.
Proof.
  intros H. destruct (in_dec (fun a b : Py.Event =>
                                ltac:(decide equality) : {a = b} + {a <> b})
                             Py.QUIT evs) as [K|K]; [exact K|].
  rewrite process_events_none in H by exact K. discriminate.
Qed.

(** The loop returns, and what it returns: the frames it ran, and why it
    stopped. *)
Lemma loop_returns (fuel : nat) (events : nat -> list Py.Event) (s : State) :
  units s <> [] ->
  exists s',
    loop fuel events s = inr s' /\ length (units s') = length (units s) /\
    (time_steps s <= time_steps s' <= time_steps s + fuel)%nat /\
    (running s = true -> (0 < fuel)%nat ->
     (time_steps s < time_steps s')%nat) /\
    (running s = true -> running s' = false ->
     (exists t, status_message s' = GameOverWins t) \/
     (exists w c, status_message s' = TimeLimit w c) \/
     (status_message s' = status_message s /\
      In Py.QUIT (events (pred (time_steps s'))))) /\
    (forall n, (time_steps s <= n)%nat -> In Py.QUIT (events n) ->
               (time_steps s' <= S n)%nat).
Proof.
  revert s; induction fuel as [|fuel IH]; intros s Hne.
  - exists s. cbn [loop]. repeat split; try lia. intros H1 H2. congruence.
  - destruct (running s) eqn:R.
    + rewrite loop_S by exact R.
      set (s0 := set_running (process_events (events (time_steps s)) true) s).
      destruct (frame_total s0 Hne) as [s1 F]. rewrite F. cbn [Py.bind].
      pose proof (frame_length s0 s1 F) as L1.
      destruct (frame_time_limit s0 s1 F) as [T1 _].
      cbn [units time_steps set_running s0] in L1, T1.
      assert (Hne1 : units s1 <> []).
      { intros E. rewrite E in L1.
        destruct (units s); [congruence|discriminate]. }
      destruct (IH s1 Hne1) as (s' & Hl & Hlen & Ht & _ & Hv & Hq).
      pose proof (frame_verdict_or_unchanged s0 s1 F) as V.
      cbn [running status_message set_running s0] in V.
      exists s'. split; [exact Hl|]. split; [lia|]. split; [lia|].
      split; [intros; lia|]. split.
      * intros _ Hr'. destruct (running s1) eqn:R1.
        -- destruct V as [[V _]|[_ V]]; [discriminate|].
           destruct (Hv eq_refl Hr') as [H|[H|[H1 H2]]]; auto.
           right. right. split; [congruence|exact H2].
        -- rewrite loop_stopped in Hl by exact R1. injection Hl as <-.
           destruct V as [[_ [V|V]]|[V1 V2]]; auto.
           right. right. split; [exact V2|].
           rewrite T1. cbn [pred]. apply process_events_stops. congruence.
      * intros n Hn Hin.
        destruct (Nat.eq_dec n (time_steps s)) as [->|Hd].
        -- assert (R1 : running s1 = false).
           { destruct V as [[V _]|[V _]]; [exact V|].
             rewrite V. apply process_events_quit. exact Hin. }
           rewrite loop_stopped in Hl by exact R1. injection Hl as <-. lia.
        -- apply Hq; [lia|exact Hin].
    + rewrite loop_stopped by exact R.
      exists s. repeat split; try lia; try discriminate.
Qed.

(** X7. With three non-negative counts that are not all zero, [main] returns
    whatever the event queue holds: nothing raises, the loop has stopped after
    at least one and at most [MAX_TIME] frames, and the population has the
    size it started with.  The loop stops in the frame that finds [QUIT] in
    the queue, if it has not stopped before.  The message is that a type
    wins, or that the time limit was reached, or it is still the initial one,
    and then the last frame found [QUIT] in the queue; so when the window is
    never closed the message is one of the first two. *)
Theorem main_returns (samples : nat -> float * float)
  (events : nat -> list Py.Event) (g : Py.Rng)
  (a b c : Z) (Ha : (0 <= a)%Z) (Hb : (0 <= b)%Z) (Hc : (0 <= c)%Z)
  (Hpos : (0 < a + b + c)%Z) :
  exists s',
    main samples events g a b c = inr s' /\
    running s' = false /\
    (1 <= time_steps s' <= MAX_TIME)%nat /\
    length (units s') = Z.to_nat (a + b + c) /\
    ((exists t, status_message s' = GameOverWins t) \/
     (exists w n, status_message s' = TimeLimit w n) \/
     (status_message s' = Running /\
      In Py.QUIT (events (pred (time_steps s'))))) /\
    (forall n, In Py.QUIT (events n) -> (time_steps s' <= S n)%nat) /\
    ((forall n, ~ In Py.QUIT (events n)) ->
     (exists t, status_message s' = GameOverWins t) \/
     (exists w n, status_message s' = TimeLimit w n)).
Proof.
  unfold main. rewrite initialize_units_blocks by assumption.
  cbn [Py.bind].
  set (us := map (initial_unit samples a b) (seq 0 (Z.to_nat (a + b + c)))).
  assert (Hlen : length us = Z.to_nat (a + b + c))
    by (unfold us; now rewrite length_map, length_seq).
  assert (Hne : us <> []).
  { intros E. rewrite E in Hlen. cbn in Hlen. lia. }
  destruct (loop_returns MAX_TIME events (mkState us 0 true Running g) Hne)
    as (s' & Hl & Hlen' & Ht & Hstep & Hv & Hq).
  cbn [units time_steps running status_message] in *.
  exists s'. split; [exact Hl|].
  assert (Hr : running s' = false).
  { apply (loop_stops MAX_TIME events (mkState us 0 true Running g));
      cbn [time_steps]; [lia| |exact Hl].
    unfold MAX_TIME. lia. }
  split; [exact Hr|]. split.
  - split; [|lia]. assert (0 < MAX_TIME)%nat by (unfold MAX_TIME; lia).
    specialize (Hstep eq_refl H). lia.
  - split; [lia|]. specialize (Hv eq_refl Hr). split; [exact Hv|]. split.
    + intros n Hn. apply Hq; [lia|exact Hn].
    + intros Hnone. destruct Hv as [H|[H|[_ H]]]; auto.
      exfalso. exact (Hnone _ H).
Qed.

Lemma main_returns_witness :
  exists s', main Examples.same_spot (Examples.quit_at 1) Examples.steady
               1 1 1 = inr s'
             /\ running s' = false /\ (time_steps s' <= 2)%nat.
Proof.
  destruct (main_returns Examples.same_spot (Examples.quit_at 1)
              Examples.steady 1 1 1)
    as (s' & H & Hr & _ & _ & _ & Hq & _); try lia.
  exists s'. split; [exact H|]. split; [exact Hr|].
  apply Hq. cbn. right. now left.
Defined.

Lemma main_single_type (samples : nat -> float * float)
  (events : nat -> list Py.Event) (g : Py.Rng) (a b c t : Z) :
  (0 <= a)%Z -> (0 <= b)%Z -> (0 <= c)%Z -> (0 < a + b + c)%Z ->
  (forall i, (i < Z.to_nat (a + b + c))%nat ->
             unit_type (initial_unit samples a b i) = t) ->
  exists s',
    main samples events g a b c = inr s' /\ running s' = false /\
    status_message s' = GameOverWins t /\ time_steps s' = 1%nat /\
    length (units s') = Z.to_nat (a + b + c) /\
    count_type t (units s') = Z.to_nat (a + b + c).
Proof.
  intros Ha Hb Hc Hpos Ht.
  unfold main. rewrite initialize_units_blocks by assumption.
  cbn [Py.bind].
  set (us := map (initial_unit samples a b) (seq 0 (Z.to_nat (a + b + c)))).
  assert (Hlen : length us = Z.to_nat (a + b + c))
    by (unfold us; now rewrite length_map, length_seq).
  assert (Hne : us <> []).
  { intros E. rewrite E in Hlen. cbn in Hlen. lia. }
  assert (Hall : Forall (fun u => unit_type u = t) us).
  { unfold us. apply Forall_map. apply Forall_forall. intros i Hi.
    apply in_seq in Hi. apply Ht. lia. }
  destruct (single_type_wins
              (set_running (process_events (events 0%nat) true)
                 (mkState us 0 true Running g)) t Hne Hall)
    as (s' & Hf & Hr & Hm & Hts & Hl & Hcnt).
  cbn [units time_steps set_running] in *.
  exists s'. unfold MAX_TIME. rewrite loop_S by reflexivity.
  cbn [time_steps]. rewrite Hf.
  cbn [Py.bind]. rewrite loop_stopped by exact Hr.
  repeat split; try assumption; lia.
Qed.

(** X8. A run that starts with units of one type only ends after its first
    frame: the message is that this type wins, and every unit still has it.
    This holds for scissors, for rocks and for papers alike, and whatever the
    event queue holds. *)
Theorem single_type_run_ends_at_once (samples : nat -> float * float)
  (events : nat -> list Py.Event) (g : Py.Rng) (n : Z) (Hn : (0 < n)%Z) :
  (exists s', main samples events g n 0 0 = inr s' /\ running s' = false /\
     status_message s' = GameOverWins 0 /\ time_steps s' = 1%nat /\
     count_type 0 (units s') = Z.to_nat n /\
     length (units s') = Z.to_nat n) /\
  (exists s', main samples events g 0 n 0 = inr s' /\ running s' = false /\
     status_message s' = GameOverWins 1 /\ time_steps s' = 1%nat /\
     count_type 1 (units s') = Z.to_nat n /\
     length (units s') = Z.to_nat n) /\
  (exists s', main samples events g 0 0 n = inr s' /\ running s' = false /\
     status_message s' = GameOverWins 2 /\ time_steps s' = 1%nat /\
     count_type 2 (units s') = Z.to_nat n /\
     length (units s') = Z.to_nat n).
Proof.
  split; [|split].
  - destruct (main_single_type samples events g n 0 0 0) as (s' & H);
      try lia.
    + intros i Hi. unfold initial_unit. cbn [unit_type Unit_init].
      replace (Z.of_nat i <? n)%Z with true
        by (symmetry; apply Z.ltb_lt; lia).
      reflexivity.
    + exists s'. replace (n + 0 + 0)%Z with n in H by lia. intuition.
  - destruct (main_single_type samples events g 0 n 0 1) as (s' & H);
      try lia.
    + intros i Hi. unfold initial_unit. cbn [unit_type Unit_init].
      replace (Z.of_nat i <? 0)%Z with false
        by (symmetry; apply Z.ltb_ge; lia).
      replace (Z.of_nat i <? 0 + n)%Z with true
        by (symmetry; apply Z.ltb_lt; lia).
      reflexivity.
    + exists s'. replace (0 + n + 0)%Z with n in H by lia. intuition.
  - destruct (main_single_type samples events g 0 0 n 2) as (s' & H);
      try lia.
    + intros i Hi. unfold initial_unit. cbn [unit_type Unit_init].
      replace (Z.of_nat i <? 0)%Z with false
        by (symmetry; apply Z.ltb_ge; lia).
      replace (Z.of_nat i <? 0 + 0)%Z with false
        by (symmetry; apply Z.ltb_ge; lia).
      reflexivity.
    + exists s'. replace (0 + 0 + n)%Z with n in H by lia. intuition.
Qed.

Lemma single_type_run_ends_at_once_witness :
  exists s', main Examples.same_spot (Examples.quit_at 0) Examples.steady
               0 3 0 = inr s'
             /\ status_message s' = GameOverWins 1.
Proof.
  destruct (single_type_run_ends_at_once Examples.same_spot
              (Examples.quit_at 0) Examples.steady
              3 ltac:(lia)) as (_ & (s' & H & _ & Hm & _) & _).
  exists s'. split; [exact H|exact Hm].
Defined.

(** ** The list of nearest candidates *)

Section Candidates.

Lemma ltb_asym (a b : float) : (a <? b) = true -> (b <? a) = false.
Proof.
  intros H. destruct (b <? a) eqn:E; [|reflexivity].
  pose proof (FloatOrder.ltb_trans _ _ _ H E) as C.
  rewrite FloatOrder.ltb_irrefl in C. discriminate.
Qed.

Lemma insert_by_dist_perm (e : nat * float) (l : list (nat * float)) :
  Permutation (Py.insert_by_dist e l) (e :: l).
Proof.
  induction l as [|e' l IH]; cbn [Py.insert_by_dist]; [reflexivity|].
  destruct (snd e <? snd e'); [reflexivity|].
  rewrite IH. apply perm_swap.
Qed.

Lemma sort_by_dist_perm (l : list (nat * float)) :
  Permutation (Py.sort_by_dist l) l.
Proof.
  unfold Py.sort_by_dist.
  assert (G : forall acc,
             Permutation
               (fold_left (fun acc e => Py.insert_by_dist e acc) l acc)
               (l ++ acc)).
  { induction l as [|e l IH]; intros acc; cbn [fold_left app]; [reflexivity|].
    rewrite IH, insert_by_dist_perm. symmetry. apply Permutation_middle. }
  rewrite G. now rewrite app_nil_r.
Qed.

Lemma insert_by_dist_sorted (e : nat * float) (l : list (nat * float)) :
  Sorted Py.not_nearer l -> Sorted Py.not_nearer (Py.insert_by_dist e l).
Proof.
  induction l as [|e' l IH]; intros H; cbn [Py.insert_by_dist].
  - repeat constructor.
  - destruct (snd e <? snd e') eqn:E.
    + constructor; [exact H|]. constructor. unfold Py.not_nearer.
      apply ltb_asym. exact E.
    + inversion H as [|? ? Hs Hh]; subst. constructor; [apply IH; exact Hs|].
      destruct l as [|e'' l]; cbn [Py.insert_by_dist].
      * constructor. exact E.
      * destruct (snd e <? snd e''); constructor; [exact E|].
        inversion Hh; subst. assumption.
Qed.

Lemma sort_by_dist_sorted (l : list (nat * float)) :
  Sorted Py.not_nearer (Py.sort_by_dist l).
Proof.
  unfold Py.sort_by_dist.
  assert (G : forall acc, Sorted Py.not_nearer acc ->
             Sorted Py.not_nearer
               (fold_left (fun acc e => Py.insert_by_dist e acc) l acc)).
  { induction l as [|e l IH]; intros acc H; cbn [fold_left]; [exact H|].
    apply IH. apply insert_by_dist_sorted. exact H. }
  apply G. constructor.
Qed.

Lemma firstn_sorted {A} (R : A -> A -> Prop) (k : nat) (l : list A) :
  Sorted R l -> Sorted R (firstn k l).
Proof.
  revert k; induction l as [|a l IH]; intros [|k] H; cbn [firstn];
    try constructor.
  - apply IH. now inversion H.
  - inversion H as [|? ? _ Hh]; subst.
    destruct l as [|b l]; destruct k; cbn [firstn]; constructor.
    now inversion Hh.
Qed.

Lemma map_sorted (f : nat -> nat) (l : list (nat * float)) :
  Sorted Py.not_nearer l ->
  Sorted Py.not_nearer (map (fun r => (f (fst r), snd r)) l).
Proof.
  induction 1 as [|a l Hs IH Hh]; cbn [map]; constructor; [exact IH|].
  destruct Hh; cbn [map]; constructor. assumption.
Qed.

Lemma sorted_adjacent (l : list (nat * float)) (i : nat) :
  Sorted Py.not_nearer l -> (S i < length l)%nat ->
  Py.not_nearer (nth i l (0%nat, 0)) (nth (S i) l (0%nat, 0)).
Proof.
  intros H. revert i; induction H as [|a l Hs IH Hh]; intros i Hi;
    [cbn in Hi; lia|].
  destruct i as [|i].
  - destruct Hh; [cbn in Hi; lia|]. assumption.
  - cbn [nth] in *. apply IH. cbn in Hi. lia.
Qed.

Lemma firstn_NoDup {A} (k : nat) (l : list A) :
  NoDup l -> NoDup (firstn k l).
Proof.
  intros H. rewrite <- (firstn_skipn k l) in H.
  apply NoDup_app_remove_r in H. exact H.
Qed.

Lemma query_NoDup (data : list (float * float)) (q : float * float)
  (k : nat) :
  NoDup (map fst (Py.query data q k)).
Proof.
  unfold Py.query. rewrite <- firstn_map. apply firstn_NoDup.
  eapply Permutation_NoDup.
  - symmetry. apply Permutation_map. apply sort_by_dist_perm.
  - rewrite map_map. cbn [fst]. rewrite map_id. apply seq_NoDup.
Qed.

Lemma query_length (data : list (float * float)) (q : float * float)
  (k : nat) :
  length (Py.query data q k) = Nat.min k (length data).
Proof.
  unfold Py.query. rewrite length_firstn.
  rewrite (Permutation_length (sort_by_dist_perm _)).
  now rewrite length_map, length_seq.
Qed.

(** X9. [find_nearest_of_type] returns as many candidates as asked for, or
    all the other units of the type when there are fewer; no unit comes
    twice; each comes with its distance to the querying unit; and no
    candidate is strictly nearer than the one before it in the list. *)
Theorem nearest_candidates_ordered (us : list Unit) (self : nat) (t : Z)
  (k : nat) :
  let pts := find_nearest_of_type us self t k in
  let others :=
    filter (fun u => (unit_type (get us u) =? t)%Z && negb (Nat.eqb u self))
           (seq 0 (length us)) in
  length pts = Nat.min k (length others) /\
  NoDup (map fst pts) /\
  (forall c, In c pts ->
     In (fst c) others /\
     snd c = Py.dist (pos (get us (fst c))) (pos (get us self))) /\
  (forall i, (S i < length pts)%nat ->
     (snd (nth (S i) pts (0%nat, 0)) <? snd (nth i pts (0%nat, 0))) = false).
Proof.
  cbv zeta.
  assert (Hd : forall c, In c (find_nearest_of_type us self t k) ->
             snd c = Py.dist (pos (get us (fst c))) (pos (get us self)))
    by (intros c; apply find_nearest_of_type_dist).
  revert Hd. unfold find_nearest_of_type.
  set (tu := filter _ (seq 0 (length us))).
  assert (Htu : NoDup tu) by (apply NoDup_filter, seq_NoDup).
  destruct tu as [|u0 tu'] eqn:Etu.
  { intros _. cbn. rewrite Nat.min_0_r. repeat split.
    - constructor.
    - destruct H.
    - destruct H.
    - intros i Hi. lia. }
  rewrite <- Etu in *.
  assert (Hpos : (0 < length tu)%nat) by (rewrite Etu; cbn; lia).
  clear Etu u0 tu'.
  set (ps := map (fun u => pos (get us u)) tu).
  assert (Hps : length ps = length tu) by (unfold ps; apply length_map).
  replace (0 <? length ps)%nat with true
    by (symmetry; apply Nat.ltb_lt; lia).
  set (k' := if (length ps <? k)%nat then length ps else k).
  assert (Hk' : Nat.min k' (length ps) = Nat.min k (length tu)).
  { unfold k'. destruct (length ps <? k)%nat eqn:E.
    - apply Nat.ltb_lt in E. lia.
    - apply Nat.ltb_ge in E. lia. }
  set (q := Py.query ps (pos (get us self)) k').
  intros Hd.
  split; [rewrite length_map; unfold q; rewrite query_length; exact Hk'|].
  split; [|split].
  - rewrite map_map. cbn [fst].
    rewrite <- (map_map fst (fun i => nth i tu 0%nat)).
    assert (Hq : NoDup (map fst q)) by apply query_NoDup.
    assert (Hr : forall i, In i (map fst q) -> (i < length tu)%nat).
    { intros i Hi. apply in_map_iff in Hi. destruct Hi as [r [<- Hr]].
      apply query_In in Hr. lia. }
    induction (map fst q) as [|i l IH]; cbn [map]; [constructor|].
    inversion Hq as [|? ? Hni Hnd]; subst. constructor.
    + intros Hin. apply in_map_iff in Hin. destruct Hin as [j [Ej Hj]].
      assert (j = i).
      { apply (proj1 (NoDup_nth tu 0%nat) Htu);
          [apply Hr; now right|apply Hr; now left|exact Ej]. }
      subst. contradiction.
    + apply IH; [exact Hnd|]. intros j Hj. apply Hr. now right.
  - intros c Hc. split; [|apply Hd; exact Hc].
    apply in_map_iff in Hc. destruct Hc as [r [<- Hr]]. cbn [fst].
    apply nth_In. apply query_In in Hr. lia.
  - intros i Hi.
    apply (sorted_adjacent
             (map (fun r => (nth (fst r) tu 0%nat, snd r)) q) i); [|exact Hi].
    apply (map_sorted (fun j => nth j tu 0%nat)).
    unfold q, Py.query. apply firstn_sorted. apply sort_by_dist_sorted.
Qed.

End Candidates.

(** ** Radius queries, continued *)

Lemma query_radius_mono (us : list Unit) (st : SpatialTree) (self : nat)
  (r1 r2 : float) (u : nat) :
  (r1 <=? r2) = true ->
  In u (query_radius us st self r1) -> In u (query_radius us st self r2).
Proof.
  intros H. rewrite !query_radius_In. intros (H1 & H2 & H3).
  repeat split; try assumption. exact (FloatOrder.leb_trans _ _ _ H3 H).
Qed.

(** X10. A radius query with a larger radius returns every unit the smaller
    one returns, for [query_radius] and for [query_by_type]; no unit comes
    twice.  So every predator in contact that [check_collision] draws for is
    also one of the threats [find_threats] reports for the same unit. *)
Theorem query_grows_with_radius (us : list Unit) (st : SpatialTree)
  (self : nat) (r1 r2 : float) (t : Z) (H : (r1 <=? r2) = true) :
  (forall u, In u (query_radius us st self r1) ->
             In u (query_radius us st self r2)) /\
  (forall u, In u (query_by_type us st self r1 t) ->
             In u (query_by_type us st self r2 t)) /\
  NoDup (query_radius us st self r2) /\
  NoDup (query_by_type us st self r2 t) /\
  (forall p, In p (qualifying us st self) ->
             In p (map fst (find_threats us st self))).
Proof.
  split; [intros u; apply query_radius_mono; exact H|].
  split.
  { intros u. unfold query_by_type. rewrite !filter_In.
    intros [H1 H2]. split; [|exact H2].
    apply (query_radius_mono us st self r1 r2 u H H1). }
  assert (N : forall r, NoDup (query_radius us st self r)).
  { intros r. unfold query_radius, Py.query_ball_point.
    do 2 apply NoDup_filter. apply seq_NoDup. }
  split; [apply N|]. split; [apply NoDup_filter, N|].
  intros p Hp. unfold qualifying in Hp. apply filter_In in Hp.
  destruct Hp as [Hq _]. unfold find_threats. rewrite map_map. cbn [fst].
  rewrite map_id. unfold query_by_type in *. rewrite filter_In in *.
  destruct Hq as [H1 H2]. split; [|exact H2].
  apply (query_radius_mono us st self (MIN_DISTANCE * 2) REPULSION_RADIUS);
    [reflexivity|exact H1].
Qed.

Lemma query_grows_with_radius_witness :
  In 1%nat (query_radius Examples.on_the_rim
              (Examples.index_of Examples.on_the_rim) 0 REPULSION_RADIUS).
Proof.
  destruct (query_grows_with_radius Examples.on_the_rim
              (Examples.index_of Examples.on_the_rim) 0
              (MIN_DISTANCE * 2) REPULSION_RADIUS 0 eq_refl) as (H & _).
  apply H. left. reflexivity.
Defined.

(** ** Boundary handling, continued *)

(** X11. The boundary handling of one axis leaves a coordinate inside the
    interval as it is, with its velocity; applied to what it returned, it
    changes nothing more; and when it moves the coordinate, to one of the two
    ends, it gives back the velocity reversed and halved. *)
Theorem bounce_settles (p w lo hi : float) :
  (within lo hi p = true -> bounce p w lo hi = (p, w)) /\
  ((lo <=? hi) = true ->
   forall w', bounce (fst (bounce p w lo hi)) w' lo hi
              = (fst (bounce p w lo hi), w')) /\
  (bounce p w lo hi = (p, w) \/
   (bounce p w lo hi = (lo, w * -0.5) /\ (p <? lo) = true) \/
   (bounce p w lo hi = (hi, w * -0.5) /\ (hi <? p) = true)).
Proof.
  assert (G : forall c v, (c <? lo) = false -> (hi <? c) = false ->
                          bounce c v lo hi = (c, v)).
  { intros c v H1 H2. unfold bounce. now rewrite H1, H2. }
  split; [|split].
  - unfold within. intros H. apply andb_true_iff in H. destruct H as [H1 H2].
    apply G.
    + destruct (p <? lo) eqn:E; [|reflexivity].
      apply FloatOrder.ltb_true_leb_false in E. congruence.
    + destruct (hi <? p) eqn:E; [|reflexivity].
      apply FloatOrder.ltb_true_leb_false in E. congruence.
  - intros H w'. destruct (bounce_kept_within p w lo hi H) as (H1 & H2 & _).
    apply G; assumption.
  - unfold bounce. destruct (p <? lo) eqn:E1; [right; left; auto|].
    destruct (hi <? p) eqn:E2; [right; right; auto|]. left. reflexivity.
Qed.

Lemma bounce_settles_witness :
  bounce 400 1 UNIT_RADIUS (WIDTH - UNIT_RADIUS) = (400, 1) /\
  bounce (fst (bounce 3 1 UNIT_RADIUS (WIDTH - UNIT_RADIUS))) 2
         UNIT_RADIUS (WIDTH - UNIT_RADIUS) = (5, 2).
Proof.
  destruct (bounce_settles 400 1 UNIT_RADIUS (WIDTH - UNIT_RADIUS))
    as (H1 & _).
  destruct (bounce_settles 3 1 UNIT_RADIUS (WIDTH - UNIT_RADIUS))
    as (_ & H2 & _).
  split; [apply H1; reflexivity|].
  rewrite (H2 eq_refl 2). reflexivity.
Defined.

(** ** The types array of the Cython front end *)

Section CythonTypes.

Lemma cy_set_at_middle (pre zs : list Z) (z v : Z) :
  Cy.set_at (pre ++ z :: zs) (length pre) v = pre ++ v :: zs.
Proof. induction pre as [|a pre IH]; cbn; [reflexivity|now rewrite IH]. Qed.

(** Filling [n] cells from the cell after [pre]. *)
Lemma cy_fill_block (t : Z) (n : nat) (pre zs : list Z) :
  (n <= length zs)%nat ->
  Cy.fill t (Z.of_nat n) (pre ++ zs, length pre)
  = inr (pre ++ repeat t n ++ skipn n zs, (length pre + n)%nat).
Proof.
  unfold Cy.fill, Py.range. rewrite Z.sub_0_r, Nat2Z.id.
  assert (G : forall (l : list nat) pre zs, (length l <= length zs)%nat ->
             Py.for_each (map (fun k => (0 + Z.of_nat k)%Z) l)
               (fun (_ : Z) (st : list Z * nat) =>
                  types <- Cy.np_set (fst st) (snd st) t ;;
                  Py.ret (types, S (snd st)))
               (pre ++ zs, length pre)
             = inr (pre ++ repeat t (length l) ++ skipn (length l) zs,
                    (length pre + length l)%nat)).
  { clear. induction l as [|k l IH]; intros pre zs H; cbn [map Py.for_each].
    - cbn. now rewrite Nat.add_0_r.
    - destruct zs as [|z zs]; [cbn in H; lia|].
      cbn [fst snd]. unfold Cy.np_set.
      replace (length pre <? length (pre ++ z :: zs))%nat with true
        by (symmetry; apply Nat.ltb_lt; rewrite length_app; cbn; lia).
      cbn [Py.bind Py.ret]. rewrite cy_set_at_middle.
      replace (pre ++ t :: zs) with ((pre ++ [t]) ++ zs)
        by (now rewrite <- app_assoc).
      replace (S (length pre)) with (length (pre ++ [t]))
        by (rewrite length_app; cbn; lia).
      rewrite IH by (cbn in H; lia).
      rewrite length_app. cbn [length repeat skipn app].
      rewrite <- app_assoc. cbn [app]. f_equal. f_equal. lia. }
  intros H.
  pose proof (G (seq 0 n) pre zs) as E. rewrite length_seq in E.
  apply E. exact H.
Qed.

Lemma cy_count_repeat (t t' : Z) (n : nat) :
  Cy.count t (repeat t' n) = if (t' =? t)%Z then n else 0%nat.
Proof.
  unfold Cy.count. induction n as [|n IH]; cbn [repeat filter].
  - now destruct (t' =? t)%Z.
  - destruct (t' =? t)%Z; cbn [length]; now rewrite IH.
Qed.

Lemma cy_count_app (t : Z) (l1 l2 : list Z) :
  Cy.count t (l1 ++ l2) = (Cy.count t l1 + Cy.count t l2)%nat.
Proof. unfold Cy.count. now rewrite filter_app, length_app. Qed.

Lemma cy_skipn_repeat (v : Z) (n m : nat) :
  skipn n (repeat v (n + m)) = repeat v m.
Proof. induction n as [|n IH]; cbn; [reflexivity|exact IH]. Qed.

Lemma cy_initialize_blocks (a b c : Z) :
  (0 <= a)%Z -> (0 <= b)%Z -> (0 <= c)%Z ->
  Cy.initialize_types a b c
  = inr (repeat 0%Z (Z.to_nat a) ++ repeat 1%Z (Z.to_nat b)
         ++ repeat 2%Z (Z.to_nat c)).
Proof.
  intros Ha Hb Hc. unfold Cy.initialize_types, Cy.np_zeros.
  replace (a + b + c <? 0)%Z with false by (symmetry; apply Z.ltb_ge; lia).
  cbn [Py.bind Py.ret].
  replace (Z.to_nat (a + b + c))
    with (Z.to_nat a + (Z.to_nat b + Z.to_nat c))%nat by lia.
  set (na := Z.to_nat a). set (nb := Z.to_nat b). set (nc := Z.to_nat c).
  assert (F1 : Cy.fill 0 a (repeat 0%Z (na + (nb + nc)), 0%nat)
               = inr (repeat 0%Z na ++ repeat 0%Z (nb + nc), na)).
  { rewrite <- (Z2Nat.id a Ha). fold na.
    pose proof (cy_fill_block 0 na [] (repeat 0%Z (na + (nb + nc)))) as E.
    cbn [app length Nat.add] in E.
    rewrite E by (rewrite repeat_length; lia).
    now rewrite cy_skipn_repeat. }
  rewrite F1. cbn [Py.bind].
  assert (F2 : Cy.fill 1 b (repeat 0%Z na ++ repeat 0%Z (nb + nc), na)
               = inr (repeat 0%Z na ++ repeat 1%Z nb ++ repeat 0%Z nc,
                      (na + nb)%nat)).
  { rewrite <- (Z2Nat.id b Hb). fold nb.
    pose proof (cy_fill_block 1 nb (repeat 0%Z na) (repeat 0%Z (nb + nc)))
      as E.
    rewrite !repeat_length in E.
    rewrite E by lia.
    now rewrite cy_skipn_repeat. }
  rewrite F2. cbn [Py.bind].
  assert (F3 : Cy.fill 2 c (repeat 0%Z na ++ repeat 1%Z nb ++ repeat 0%Z nc,
                            (na + nb)%nat)
               = inr (repeat 0%Z na ++ repeat 1%Z nb ++ repeat 2%Z nc,
                      (na + nb + nc)%nat)).
  { rewrite <- (Z2Nat.id c Hc). fold nc.
    pose proof (cy_fill_block 2 nc (repeat 0%Z na ++ repeat 1%Z nb)
                  (repeat 0%Z nc)) as E.
    rewrite length_app, !repeat_length, <- !app_assoc in E.
    rewrite E by lia.
    rewrite skipn_all2 by (rewrite repeat_length; lia).
    now rewrite app_nil_r. }
  rewrite F3. reflexivity.
Qed.

Lemma cy_check_end_condition_iff (types : list Z) :
  Cy.check_end_condition types = true <->
  forall t, In t types -> t = nth 0 types 0%Z.
Proof.
  unfold Cy.check_end_condition.
  destruct types as [|t0 types]; cbn [length Nat.eqb].
  - split; [intros _ t []|reflexivity].
  - rewrite forallb_forall. split; intros H t Ht.
    + apply Z.eqb_eq. apply H. exact Ht.
    + apply Z.eqb_eq. apply H. exact Ht.
Qed.

Lemma cy_count_all (t : Z) (types : list Z) :
  (forall u, In u types -> u = t) -> Cy.count t types = length types.
Proof.
  unfold Cy.count. induction types as [|u types IH]; intros H;
    [reflexivity|].
  cbn [filter]. rewrite (H u (or_introl eq_refl)), Z.eqb_refl. cbn [length].
  f_equal. apply IH. intros v Hv. apply H. now right.
Qed.

Lemma cy_count_none (t : Z) (types : list Z) :
  (forall u, In u types -> u <> t) -> Cy.count t types = 0%nat.
Proof.
  unfold Cy.count. induction types as [|u types IH]; intros H;
    [reflexivity|].
  cbn [filter]. destruct (Z.eqb_spec u t) as [E|E].
  - exfalso. apply (H u); [now left|exact E].
  - apply IH. intros v Hv. apply H. now right.
Qed.

(** X12. With three non-negative counts the Cython front end fills its types
    array in three blocks, zeros, then ones, then twos, without an error, and
    [get_type_counts] gives the three counts back; [check_end_condition]
    holds on that array exactly when at most one of the counts is not
    zero. *)
Theorem cy_counts_round_trip (a b c : Z) (Ha : (0 <= a)%Z) (Hb : (0 <= b)%Z)
  (Hc : (0 <= c)%Z) :
  exists types,
    Cy.initialize_types a b c = inr types /\
    types = repeat 0%Z (Z.to_nat a) ++ repeat 1%Z (Z.to_nat b)
            ++ repeat 2%Z (Z.to_nat c) /\
    length types = Z.to_nat (a + b + c) /\
    Cy.get_type_counts types = (Z.to_nat a, Z.to_nat b, Z.to_nat c) /\
    (Cy.check_end_condition types = true <->
     (b = 0 /\ c = 0)%Z \/ (a = 0 /\ c = 0)%Z \/ (a = 0 /\ b = 0)%Z).
Proof.
  eexists. split; [apply cy_initialize_blocks; assumption|].
  split; [reflexivity|].
  split; [rewrite !length_app, !repeat_length; lia|].
  split.
  { unfold Cy.get_type_counts.
    rewrite !cy_count_app, !cy_count_repeat.
    change (0 =? 0)%Z with true. change (1 =? 1)%Z with true.
    change (2 =? 2)%Z with true. change (0 =? 1)%Z with false.
    change (0 =? 2)%Z with false. change (1 =? 0)%Z with false.
    change (1 =? 2)%Z with false. change (2 =? 0)%Z with false.
    change (2 =? 1)%Z with false. cbv iota.
    apply f_equal2; [apply f_equal2|]; lia. }
  rewrite cy_check_end_condition_iff. split.
  - intros H.
    destruct (Z.to_nat a) as [|na] eqn:Ea.
    + destruct (Z.to_nat b) as [|nb] eqn:Eb; [right; right; lia|].
      destruct (Z.to_nat c) as [|nc] eqn:Ec; [right; left; lia|].
      exfalso. cbn in H.
      specialize (H 2%Z). cbn in H.
      assert (2 = 1)%Z; [|lia]. apply H. right.
      apply in_or_app. right. now left.
    + destruct (Z.to_nat b) as [|nb] eqn:Eb.
      * destruct (Z.to_nat c) as [|nc] eqn:Ec; [left; lia|].
        exfalso. cbn in H. assert (2 = 0)%Z; [|lia]. apply H. right.
        apply in_or_app. right. now left.
      * exfalso. cbn in H. assert (1 = 0)%Z; [|lia]. apply H. right.
        apply in_or_app. right. now left.
  - intros [[-> ->]|[[-> ->]| [-> ->]]]; cbn [Z.to_nat repeat app];
      rewrite ?app_nil_r; intros t Ht.
    + destruct (Z.to_nat a); [destruct Ht|].
      apply repeat_spec in Ht. subst. reflexivity.
    + destruct (Z.to_nat b); [destruct Ht|].
      apply repeat_spec in Ht. subst. reflexivity.
    + destruct (Z.to_nat c); [destruct Ht|].
      apply repeat_spec in Ht. subst. reflexivity.
Qed.

Lemma cy_counts_round_trip_witness :
  exists types, Cy.initialize_types 2 0 1 = inr types /\
                Cy.get_type_counts types = (2%nat, 0%nat, 1%nat).
Proof.
  destruct (cy_counts_round_trip 2 0 1) as (types & H & _ & _ & Hc & _);
    try lia.
  exists types. split; [exact H|exact Hc].
Defined.

(** X13. Once [check_end_condition] holds on an array that is not empty and
    holds only the types 0, 1 and 2, the winner [main] announces is the type
    of the first unit, its count is the size of the population, and the
    three counts add up to that size. *)
Theorem cy_winner_is_the_remaining_type (types : list Z)
  (Hne : types <> []) (Hr : Forall (fun t => (0 <= t < 3)%Z) types)
  (He : Cy.check_end_condition types = true) :
  Cy.winner types = Some (nth 0 types 0%Z) /\
  Cy.count (nth 0 types 0%Z) types = length types /\
  (Cy.count 0 types + Cy.count 1 types + Cy.count 2 types)%nat
  = length types.
Proof.
  rewrite cy_check_end_condition_iff in He.
  set (t0 := nth 0 types 0%Z) in *.
  assert (H0 : In t0 types).
  { unfold t0. apply nth_In. destruct types; [contradiction|cbn; lia]. }
  assert (Hlen : (0 < length types)%nat)
    by (destruct types; [contradiction|cbn; lia]).
  pose proof (cy_count_all t0 types He) as Hall.
  rewrite Forall_forall in Hr. pose proof (Hr t0 H0) as Ht0.
  assert (Hoth : forall t, t <> t0 -> Cy.count t types = 0%nat).
  { intros t Ht. apply cy_count_none. intros u Hu E.
    apply He in Hu. congruence. }
  assert (C : t0 = 0%Z \/ t0 = 1%Z \/ t0 = 2%Z) by lia.
  unfold Cy.winner, Cy.get_type_counts.
  destruct (length types) as [|n] eqn:L; [lia|].
  destruct C as [E|[E|E]]; rewrite E in *.
  - rewrite Hall, (Hoth 1%Z), (Hoth 2%Z) by lia.
    cbn. repeat split; try reflexivity; lia.
  - rewrite Hall, (Hoth 0%Z), (Hoth 2%Z) by lia.
    cbn. repeat split; try reflexivity; lia.
  - rewrite Hall, (Hoth 0%Z), (Hoth 1%Z) by lia.
    cbn. repeat split; try reflexivity; lia.
Qed.

Lemma cy_winner_is_the_remaining_type_witness :
  Cy.winner [1%Z; 1%Z] = Some 1%Z.
Proof.
  apply (cy_winner_is_the_remaining_type [1%Z; 1%Z]).
  - discriminate.
  - repeat constructor; lia.
  - reflexivity.
Defined.

End CythonTypes.

(** ** Extinction and conservation *)

(** A unit that changes type in a frame had a predator in the population
    when the frame began. *)
Lemma frame_type_step (s s' : State) (i : nat) :
  frame s = inr s' -> (i < length (units s))%nat ->
  unit_type (get (units s') i) = unit_type (get (units s) i) \/
  (unit_type (get (units s') i) = predator_type (unit_type (get (units s) i))
   /\ exists p, (p < length (units s))%nat /\ p <> i /\
        unit_type (get (units s) p)
        = predator_type (unit_type (get (units s) i))).
Proof.
  intros Hf Hi. apply frame_phases in Hf.
  destruct Hf as (st & Hst & Hf). cbv zeta in Hf. destruct Hf as (Hu & _).
  apply SpatialTree_init_tree in Hst. destruct Hst as [Htree _].
  set (r1 := update_targets (units s) (rng s)) in *.
  set (r2 := update_positions (fst r1) st (snd r1)) in *.
  destruct (update_targets_keeps (units s) (rng s)) as (T1 & _ & L1).
  fold r1 in T1, L1.
  assert (T2 : map unit_type (fst r2) = map unit_type (units s)).
  { unfold r2. rewrite update_positions_eq, update_positions_upto_types.
    exact T1. }
  assert (L2 : length (fst r2) = length (units s)).
  { unfold r2. rewrite update_positions_eq, update_positions_upto_length.
    exact L1. }
  rewrite Hu.
  change (collect_new_types (fst r2) st (snd r2))
    with (collect_upto (length (fst r2)) (fst r2) st (snd r2)).
  rewrite apply_collect_upto by lia.
  replace (i <? length (fst r2))%nat with true
    by (symmetry; apply Nat.ltb_lt; lia).
  rewrite <- (get_map unit_type (fst r2) (units s) i T2).
  destruct (check_collision (fst r2) st i
              (snd (collect_upto i (fst r2) st (snd r2))))
    as [[t'|] g'] eqn:E; cbn [fst]; [|now left].
  right. pose proof E as E'. apply check_collision_contact in E'.
  destruct E' as (p & Hne & Hlt & Ht & _).
  rewrite Htree, length_map in Hlt.
  rewrite check_collision_draws in E.
  assert (H1 : fst (draws_until_success
                      (predator_type (unit_type (get (fst r2) i)))
                      (length (qualifying (fst r2) st i))
                      (snd (collect_upto i (fst r2) st (snd r2)))) = Some t')
    by (rewrite E; reflexivity).
  apply draws_some in H1. destruct H1 as [-> _].
  split; [reflexivity|]. exists p. repeat split; try assumption.
  rewrite <- (get_map unit_type (fst r2) (units s) p T2). exact Ht.
Qed.

Lemma count_type_zero_iff (t : Z) (us : list Unit) :
  count_type t us = 0%nat <->
  forall i, (i < length us)%nat -> unit_type (get us i) <> t.
Proof.
  unfold count_type. split.
  - intros H i Hi E.
    assert (Hin : In (get us i)
                     (filter (fun u => (unit_type u =? t)%Z) us)).
    { apply filter_In. split; [apply nth_In; exact Hi|now apply Z.eqb_eq]. }
    destruct (filter _ us); [destruct Hin|discriminate].
  - intros H. destruct (filter _ us) as [|u l] eqn:E; [reflexivity|].
    assert (Hin : In u (filter (fun u => (unit_type u =? t)%Z) us))
      by (rewrite E; now left).
    apply filter_In in Hin. destruct Hin as [Hin Ht]. apply Z.eqb_eq in Ht.
    destruct (In_nth _ _ (Unit_init 0 0 0) Hin) as (i & Hi & Ei).
    exfalso. apply (H i Hi). unfold get. now rewrite Ei.
Qed.

Lemma frame_keeps_extinct (s s' : State) (t : Z) :
  frame s = inr s' -> count_type t (units s) = 0%nat ->
  count_type t (units s') = 0%nat.
Proof.
  intros Hf H0. pose proof (frame_length s s' Hf) as L.
  rewrite count_type_zero_iff in *. intros i Hi E.
  destruct (frame_type_step s s' i Hf ltac:(lia)) as [H|[H (p & Hp & _ & Ht)]].
  - apply (H0 i); [lia|congruence].
  - apply (H0 p Hp). congruence.
Qed.

Lemma frame_keeps_types_in_range (s s' : State) :
  frame s = inr s' ->
  Forall (fun u => (0 <= unit_type u < 3)%Z) (units s) ->
  Forall (fun u => (0 <= unit_type u < 3)%Z) (units s').
Proof.
  intros Hf Hall. pose proof (frame_length s s' Hf) as L.
  apply Forall_forall. intros u Hu.
  destruct (In_nth _ _ (Unit_init 0 0 0) Hu) as (i & Hi & <-).
  fold (get (units s') i).
  destruct (frame_type_step s s' i Hf ltac:(lia)) as [-> | [-> _]].
  - rewrite Forall_forall in Hall. apply Hall. apply nth_In. lia.
  - apply predator_type_range.
Qed.

(** X14. A type that has no unit when a frame begins has none when it ends:
    a unit changes type only next to a predator, and takes the type of that
    predator.  So the units of a type whose predator type has no unit keep
    their type, and their number does not go down. *)
Theorem extinct_types_stay_extinct (s s' : State) (Hf : frame s = inr s')
  (t : Z) :
  (count_type t (units s) = 0%nat -> count_type t (units s') = 0%nat) /\
  (count_type (predator_type t) (units s) = 0%nat ->
   (forall i, (i < length (units s))%nat ->
              unit_type (get (units s) i) = t ->
              unit_type (get (units s') i) = t)) /\
  (forall i, (i < length (units s))%nat ->
     unit_type (get (units s') i) <> unit_type (get (units s) i) ->
     exists p, (p < length (units s))%nat /\ p <> i /\
       unit_type (get (units s) p) = unit_type (get (units s') i) /\
       unit_type (get (units s') i)
       = predator_type (unit_type (get (units s) i))).
Proof.
  split; [apply frame_keeps_extinct; exact Hf|]. split.
  - intros H0 i Hi Et. rewrite count_type_zero_iff in H0.
    destruct (frame_type_step s s' i Hf Hi) as [H|[_ (p & Hp & _ & Ht)]].
    + congruence.
    + exfalso. apply (H0 p Hp). congruence.
  - intros i Hi Hch.
    destruct (frame_type_step s s' i Hf Hi) as [H|[H (p & Hp & Hne & Ht)]].
    + contradiction.
    + exists p. repeat split; try assumption. congruence.
Qed.

Lemma extinct_types_stay_extinct_witness :
  exists s',
    frame (mkState Examples.two_rocks 0 true Running
             (Examples.tape [0.5; 0.5; 0.5; 0.5; 0.5; 0.5; 0.1]))
    = inr s' /\ count_type 2 (units s') = 0%nat.
Proof.
  destruct (frame_total
              (mkState Examples.two_rocks 0 true Running
                 (Examples.tape [0.5; 0.5; 0.5; 0.5; 0.5; 0.5; 0.1])))
    as [s' Hs']; [discriminate|].
  exists s'. split; [exact Hs'|].
  apply (extinct_types_stay_extinct _ s' Hs' 2). reflexivity.
Defined.

Lemma count_types_partition (us : list Unit) :
  Forall (fun u => (0 <= unit_type u < 3)%Z) us ->
  (count_type 0 us + count_type 1 us + count_type 2 us)%nat = length us.
Proof.
  unfold count_type. induction 1 as [|u us Hu _ IH]; [reflexivity|].
  cbn [filter length].
  assert (C : unit_type u = 0%Z \/ unit_type u = 1%Z \/ unit_type u = 2%Z)
    by lia.
  destruct C as [->|[->| ->]]; cbn [Z.eqb Pos.eqb length]; lia.
Qed.

(** A property of the units that every frame keeps holds when the loop
    returns. *)
Lemma loop_keeps (P : list Unit -> Prop) (fuel : nat)
  (events : nat -> list Py.Event) (s s' : State) :
  (forall s1 s2, frame s1 = inr s2 -> P (units s1) -> P (units s2)) ->
  loop fuel events s = inr s' -> P (units s) -> P (units s').
Proof.
  intros HP. revert s; induction fuel as [|fuel IH]; intros s; cbn [loop].
  - intros H. injection H as <-. auto.
  - destruct (running s); [|intros H; injection H as <-; auto].
    cbv zeta.
    destruct (frame _) as [e|s1] eqn:F; cbn [Py.bind]; [discriminate|].
    intros H Hs. apply (IH s1 H). apply (HP _ s1 F). exact Hs.
Qed.

(** X15. Over a whole run nothing is lost: when [main] returns after
    starting from three non-negative counts, however the run ended, the
    counts of scissors, rocks and papers add up to the number of units it
    started with, and a type that started with no unit ends with none. *)
Theorem run_conserves_units (samples : nat -> float * float)
  (events : nat -> list Py.Event) (g : Py.Rng)
  (a b c : Z) (s' : State) (Ha : (0 <= a)%Z) (Hb : (0 <= b)%Z)
  (Hc : (0 <= c)%Z) (Hm : main samples events g a b c = inr s') :
  (count_type 0 (units s') + count_type 1 (units s')
   + count_type 2 (units s'))%nat = Z.to_nat (a + b + c) /\
  length (units s') = Z.to_nat (a + b + c) /\
  (a = 0%Z -> count_type 0 (units s') = 0%nat) /\
  (b = 0%Z -> count_type 1 (units s') = 0%nat) /\
  (c = 0%Z -> count_type 2 (units s') = 0%nat).
Proof.
  unfold main in Hm. rewrite initialize_units_blocks in Hm by assumption.
  cbn [Py.bind] in Hm.
  set (us := map (initial_unit samples a b) (seq 0 (Z.to_nat (a + b + c))))
    in *.
  assert (Hlen : length us = Z.to_nat (a + b + c))
    by (unfold us; now rewrite length_map, length_seq).
  assert (Hty : forall i, (i < Z.to_nat (a + b + c))%nat ->
             unit_type (get us i)
             = if (Z.of_nat i <? a)%Z then 0%Z
               else if (Z.of_nat i <? a + b)%Z then 1%Z else 2%Z).
  { intros i Hi. unfold us, get. rewrite nth_map_seq by exact Hi.
    reflexivity. }
  assert (Hrange : Forall (fun u => (0 <= unit_type u < 3)%Z) us).
  { apply Forall_forall. intros u Hu.
    destruct (In_nth _ _ (Unit_init 0 0 0) Hu) as (i & Hi & <-).
    fold (get us i). rewrite Hty by lia.
    destruct (_ <? a)%Z; [lia|]. destruct (_ <? a + b)%Z; lia. }
  pose proof (loop_keeps (fun l => Forall (fun u => (0 <= unit_type u < 3)%Z) l)
                _ _ _ _ frame_keeps_types_in_range Hm Hrange) as R.
  pose proof (loop_keeps (fun l => length l = Z.to_nat (a + b + c)) _ _ _ _
                (fun s1 s2 F H => eq_trans (frame_length s1 s2 F) H)
                Hm Hlen) as L.
  cbn beta in R, L.
  split; [rewrite count_types_partition by exact R; exact L|].
  split; [exact L|].
  assert (Ext : forall t, count_type t us = 0%nat ->
                          count_type t (units s') = 0%nat).
  { intros t H0.
    apply (loop_keeps (fun l => count_type t l = 0%nat) _ _ _ _
             (fun s1 s2 F H => frame_keeps_extinct s1 s2 t F H) Hm H0). }
  repeat split; intros E; apply Ext; apply count_type_zero_iff;
    intros i Hi; rewrite Hlen in Hi; rewrite Hty by exact Hi; subst.
  - replace (Z.of_nat i <? 0)%Z with false
      by (symmetry; apply Z.ltb_ge; lia).
    destruct (_ <? 0 + b)%Z; discriminate.
  - destruct (Z.of_nat i <? a)%Z eqn:E1; [discriminate|].
    apply Z.ltb_ge in E1.
    replace (Z.of_nat i <? a + 0)%Z with false
      by (symmetry; apply Z.ltb_ge; lia).
    discriminate.
  - destruct (Z.of_nat i <? a)%Z; [discriminate|].
    replace (Z.of_nat i <? a + b)%Z with true
      by (symmetry; apply Z.ltb_lt; lia).
    discriminate.
Qed.

Lemma run_conserves_units_witness :
  exists s', main Examples.same_spot (Examples.quit_at 5) Examples.steady
               2 1 0 = inr s'
             /\ count_type 2 (units s') = 0%nat.
Proof.
  destruct (loop_returns MAX_TIME (Examples.quit_at 5)
              (mkState [Unit_init 0 10 20; Unit_init 0 10 20;
                        Unit_init 1 10 20] 0 true Running Examples.steady))
    as (s' & Hl & _); [discriminate|].
  exists s'. split; [exact Hl|].
  destruct (run_conserves_units Examples.same_spot (Examples.quit_at 5)
              Examples.steady 2 1 0 s'
              ltac:(lia) ltac:(lia) ltac:(lia) Hl) as (_ & _ & _ & _ & H).
  apply H. reflexivity.
Defined.

(** * Positions stay inside the play area *)

(** ** Magnitudes in a move

    Every quantity a move computes is a number: offsets between units are
    at most [2^11], a distance is at most [2^12], an offset divided by a
    distance that is not zero is at most [2^37], sums run over fewer than
    [2^53] units, and normalization brings the velocity back to components
    of at most four. *)

Module Magnitude.

Import Binary64 FloatValue.

Local Open Scope R_scope.

Lemma finite_0 : finite 0%float.
Proof. reflexivity. Qed.

Lemma FR_0 : FR 0%float = 0.
Proof. reflexivity. Qed.

(** A float between two numbers is a number. *)
Lemma between_finite (a b c : float) :
  finite a -> finite b -> (a <=? c)%float = true -> (c <=? b)%float = true ->
  finite c /\ FR a <= FR c <= FR b.
Proof.
  intros Fa Fb H1 H2.
  assert (Fc : finite c).
  { rewrite leb_spec in H1, H2. unfold finite in *.
    destruct (Prim2SF c) as [s|[|]| |s m e]; try reflexivity.
    - destruct (Prim2SF a) as [?|?| |[|] ? ?]; discriminate.
    - destruct (Prim2SF b) as [?|?| |[|] ? ?]; discriminate.
    - destruct (Prim2SF a); discriminate. }
  split; [exact Fc|].
  split; apply leb_finite; assumption.
Qed.

Lemma SF2R_abs (x : spec_float) :
  is_finite_SF x = true -> SF2R (SFabs x) = Rabs (SF2R x).
Proof.
  destruct x as [s|s| |s m e]; try discriminate; intros _; cbn [SFabs SF2R].
  - now rewrite Rabs_R0.
  - rewrite Rmult_1_l, Rabs_signed; [reflexivity|].
    pose proof (finite_pos m e). lra.
Qed.

Lemma abs_leb_bounded (v b : float) :
  finite b -> (abs v <=? b)%float = true -> bounded (FR b) v.
Proof.
  intros Fb H. rewrite leb_spec, abs_spec in H. unfold bounded, finite, FR in *.
  assert (Fv : is_finite_SF (Prim2SF v) = true).
  { destruct (Prim2SF v) as [s|[|]| |s m e]; try reflexivity;
      cbn [SFabs] in H;
      destruct (Prim2SF b) as [?|?| |[|] ? ?]; discriminate. }
  split; [exact Fv|]. rewrite <- SF2R_abs by exact Fv.
  assert (Fa : is_finite_SF (SFabs (Prim2SF v)) = true)
    by (destruct (Prim2SF v); auto).
  assert (Va : valid_binary (SFabs (Prim2SF v)) = true).
  { pose proof (Prim2SF_valid v) as V. destruct (Prim2SF v); auto. }
  pose proof (SFcompare_spec _ _ Va (Prim2SF_valid b) Fa Fb) as C.
  unfold SFleb in H.
  destruct (SFcompare (SFabs (Prim2SF v)) (Prim2SF b)) as [[ | | ]|];
    try discriminate; lra.
Qed.

Lemma bounded_abs_leb (v b : float) :
  finite b -> bounded (FR b) v -> (abs v <=? b)%float = true.
Proof.
  intros Fb [Fv H]. rewrite leb_spec, abs_spec. unfold finite, FR in *.
  rewrite <- SF2R_abs in H by exact Fv.
  assert (Fa : is_finite_SF (SFabs (Prim2SF v)) = true)
    by (destruct (Prim2SF v); auto).
  assert (Va : valid_binary (SFabs (Prim2SF v)) = true).
  { pose proof (Prim2SF_valid v) as V. destruct (Prim2SF v); auto. }
  pose proof (SFcompare_spec _ _ Va (Prim2SF_valid b) Fa Fb) as C.
  unfold SFleb.
  destruct (SFcompare (SFabs (Prim2SF v)) (Prim2SF b)) as [[ | | ]|];
    try reflexivity; try contradiction. lra.
Qed.

(** [len(neighbors)] as a float is exact. *)
Lemma float_of_nat_exact (n : nat) :
  (Z.of_nat n < 2 ^ 53)%Z ->
  finite (Py.float_of_nat n) /\ FR (Py.float_of_nat n) = INR n.
Proof.
  intros H. unfold Py.float_of_nat, finite, FR.
  rewrite of_uint63_spec, Uint63.of_Z_spec.
  rewrite Z.mod_small
    by (change Uint63.wB with (2 ^ 63)%Z; split; [lia|];
        assert (2 ^ 53 < 2 ^ 63)%Z by (apply Z.pow_lt_mono_r; lia); lia).
  destruct (binary_normalize_spec (Z.of_nat n) 0 false) as [_ K].
  rewrite bpow_0, Rmult_1_r in K.
  assert (N0 : 0 <= IZR (Z.of_nat n)) by (apply IZR_le; lia).
  assert (Fm : format (IZR (Z.of_nat n))).
  { exists (Z.of_nat n), 0%Z. rewrite bpow_0. split; [ring|lia]. }
  destruct (K _ _ Fm Fm) as (F & [L U] & P & _).
  - rewrite Rabs_pos_eq by exact N0. lra.
  - apply Rle_lt_trans with (IZR (2 ^ 53)); [apply IZR_le; lia|].
    rewrite <- bpow_IZR by lia. apply bpow_lt. lia.
  - split; [exact F|]. specialize (P N0).
    rewrite Rabs_pos_eq in L, U by exact P. rewrite INR_IZR_INZ. lra.
Qed.

(** Sums of at most [2^53] numbers of magnitude at most [2^t]. *)
Lemma add_counted (c : Z) (t : Z) (acc x : float) :
  bounded (IZR c * bpow t) acc -> bounded (bpow t) x ->
  (0 <= c < 2 ^ 53)%Z -> (-1074 <= t <= 900)%Z ->
  bounded (IZR (c + 1) * bpow t) (acc + x)%float.
Proof.
  intros [Fa Ha] [Fx Hx] Hc Ht.
  apply (enclosed_bounded _ _ _ (add_enclosed acc x Fa Fx)).
  - apply format_scaled; lia.
  - pose proof (Rabs_triang (FR acc) (FR x)). rewrite plus_IZR. lra.
  - apply Rle_lt_trans with (IZR (2 ^ 53) * bpow t).
    + apply scaled_le. lia.
    + rewrite <- (bpow_IZR 53), <- bpow_add by lia. apply bpow_lt. lia.
Qed.

Lemma counted_bounded (c t : Z) (x : float) :
  bounded (IZR c * bpow t) x -> (c <= 2 ^ 53)%Z ->
  bounded (bpow (t + 53)) x.
Proof.
  intros H Hc. apply (bounded_le _ _ _ H).
  rewrite Z.add_comm, bpow_add, (bpow_IZR 53) by lia. apply scaled_le. exact Hc.
Qed.

Lemma counted_mono (c c' t : Z) (x : float) :
  bounded (IZR c * bpow t) x -> (c <= c')%Z ->
  bounded (IZR c' * bpow t) x.
Proof. intros H Hc. apply (bounded_le _ _ _ H). now apply scaled_le. Qed.

Lemma bounded_counted (t : Z) (x : float) :
  bounded (bpow t) x -> bounded (IZR 1 * bpow t) x.
Proof. intros H. apply (bounded_le _ _ _ H). lra. Qed.

Lemma sum_from (l : list float) (t c : Z) (acc : float) :
  Forall (bounded (bpow t)) l -> bounded (IZR c * bpow t) acc ->
  (0 <= c)%Z -> (c + Z.of_nat (length l) <= 2 ^ 53)%Z ->
  (-1074 <= t <= 900)%Z ->
  bounded (IZR (c + Z.of_nat (length l)) * bpow t)
          (fold_left PrimFloat.add l acc).
Proof.
  intros Hl. revert c acc.
  induction Hl as [|x l Hx _ IH]; intros c acc Hacc Hc Hn Ht.
  - cbn [fold_left length]. now rewrite Z.add_0_r.
  - cbn [fold_left length] in *.
    replace (c + Z.of_nat (S (length l)))%Z
      with ((c + 1) + Z.of_nat (length l))%Z by lia.
    apply IH; try lia. apply add_counted; auto. lia.
Qed.

Lemma sum_bounded (l : list float) (t : Z) :
  Forall (bounded (bpow t)) l -> (Z.of_nat (length l) <= 2 ^ 53)%Z ->
  (-1074 <= t <= 900)%Z ->
  bounded (IZR (Z.of_nat (length l)) * bpow t) (Py.sum l).
Proof.
  intros Hl Hn Ht. unfold Py.sum.
  apply (sum_from l t 0 0%float Hl); try lia.
  split; [exact finite_0|]. rewrite FR_0, Rabs_R0. lra.
Qed.

(** The mean of numbers of magnitude at most [2^t] is one. *)
Lemma mean_bounded (l : list float) (t : Z) :
  Forall (bounded (bpow t)) l -> l <> [] ->
  (Z.of_nat (length l) < 2 ^ 53)%Z -> (-1074 <= t <= 900)%Z ->
  bounded (bpow t) (Py.sum l / Py.float_of_nat (length l))%float.
Proof.
  intros Hl Hne Hn Ht.
  destruct (sum_bounded l t Hl ltac:(lia) Ht) as [Fs Hs].
  destruct (float_of_nat_exact (length l) Hn) as [Fn En].
  assert (N1 : 1 <= INR (length l)).
  { destruct l as [|x l]; [contradiction|].
    rewrite <- INR_1. apply le_INR. cbn. lia. }
  rewrite <- INR_IZR_INZ in Hs.
  apply (enclosed_bounded _ _ _
           (div_enclosed _ _ Fs Fn ltac:(rewrite En; lra))).
  - apply format_bpow. lia.
  - rewrite En. unfold Rdiv. rewrite Rabs_mult, Rabs_inv.
    rewrite (Rabs_pos_eq (INR (length l))) by lra.
    apply (Rmult_le_reg_r (INR (length l))); [lra|].
    rewrite Rmult_assoc, Rinv_l, Rmult_1_r by lra.
    pose proof (bpow_pos t). nra.
  - apply bpow_lt. lia.
Qed.

(** ** Distances *)

Lemma bpow_double (k : Z) : bpow (2 * k) = bpow k * bpow k.
Proof. rewrite <- bpow_add. f_equal. lia. Qed.

Lemma square_spec (a : float) (j : Z) :
  bounded (bpow j) a -> (-537 <= j <= 500)%Z ->
  bounded (bpow (2 * j)) (a * a)%float /\ 0 <= FR (a * a)%float /\
  (forall k, (-537 <= k)%Z -> bpow k <= Rabs (FR a) ->
             bpow (2 * k) <= FR (a * a)%float).
Proof.
  intros [Fa Ha] Hj.
  destruct (mul_enclosed a a Fa Fa) as [_ K].
  assert (Sq : Rabs (FR a * FR a) = Rabs (FR a) * Rabs (FR a))
    by apply Rabs_mult.
  pose proof (Rabs_pos (FR a)) as P. pose proof (bpow_pos j) as Pj.
  assert (U : Rabs (FR a * FR a) <= bpow (2 * j))
    by (rewrite Sq, bpow_double; nra).
  assert (N : 0 <= FR a * FR a) by nra.
  assert (L : bpow (2 * j) < bpow 1024) by (apply bpow_lt; lia).
  destruct (K 0 _ format_0 (format_bpow (2 * j) ltac:(lia))
              (conj (Rabs_pos _) U) L) as (F & [_ B] & S & _).
  split; [split; assumption|]. split; [auto|].
  intros k Hk Hl. pose proof (bpow_pos k) as Pk.
  destruct (K _ _ (format_bpow (2 * k) ltac:(lia))
              (format_bpow (2 * j) ltac:(lia))) as (_ & [B' _] & S' & _).
  - split; [|exact U]. rewrite Sq, bpow_double. nra.
  - exact L.
  - rewrite Rabs_pos_eq in B' by auto. exact B'.
Qed.

(** The distance [norm dx dy]: a number that is not negative, at most twice
    the larger offset, at least any power of two below one of the offsets,
    and not smaller than [2^-537] unless it is zero. *)
Lemma norm_spec (a b : float) (j : Z) :
  bounded (bpow j) a -> bounded (bpow j) b -> (0 <= j <= 500)%Z ->
  finite (Py.norm a b) /\ 0 <= FR (Py.norm a b) <= bpow (j + 1) /\
  (forall k, (-537 <= k)%Z ->
     bpow k <= Rabs (FR a) \/ bpow k <= Rabs (FR b) ->
     bpow k <= FR (Py.norm a b)) /\
  (0 < FR (Py.norm a b) -> bpow (-537) <= FR (Py.norm a b)).
Proof.
  intros Ha Hb Hj. unfold Py.norm.
  destruct (square_spec a j Ha ltac:(lia)) as ([Fa Ua] & Na & La).
  destruct (square_spec b j Hb ltac:(lia)) as ([Fb Ub] & Nb & Lb).
  rewrite Rabs_pos_eq in Ua, Ub by assumption.
  destruct (add_enclosed _ _ Fa Fb) as [_ K].
  set (s := (a * a + b * b)%float) in *.
  assert (E2 : bpow (2 * j + 2) = bpow (j + 1) * bpow (j + 1)).
  { rewrite <- bpow_double. f_equal. lia. }
  assert (U : Rabs (FR (a * a)%float + FR (b * b)%float) <= bpow (2 * j + 2)).
  { rewrite Rabs_pos_eq by lra.
    replace (2 * j + 2)%Z with ((2 * j + 1) + 1)%Z by lia.
    rewrite !bpow_S. pose proof (bpow_pos (2 * j)). lra. }
  assert (L : bpow (2 * j + 2) < bpow 1024) by (apply bpow_lt; lia).
  assert (FB : format (bpow (2 * j + 2))) by (apply format_bpow; lia).
  destruct (K 0 _ format_0 FB (conj (Rabs_pos _) U) L) as (Fs & [_ Us] & Ns & _).
  fold (FR s) in Us, Ns, K. fold (finite s) in Fs.
  specialize (Ns ltac:(lra)). rewrite Rabs_pos_eq in Us by exact Ns.
  assert (L1 : bpow (j + 1) < bpow 1024) by (apply bpow_lt; lia).
  assert (F1 : format (bpow (j + 1))) by (apply format_bpow; lia).
  destruct (sqrt_enclosed s 0 (bpow (j + 1)) Fs Ns format_0 F1) as [Fq [Lq Uq]];
    [rewrite <- E2; lra|exact L1|].
  split; [exact Fq|]. split; [split; assumption|]. split.
  - intros k Hk Hor. pose proof (bpow_pos k) as Pk.
    assert (Lk : bpow (2 * k) <= FR s).
    { destruct (K _ _ (format_bpow (2 * k) ltac:(lia)) FB) as (_ & [B' _] & _).
      - split; [|exact U]. rewrite Rabs_pos_eq by lra.
        destruct Hor as [H|H]; [specialize (La k Hk H)|specialize (Lb k Hk H)];
          lra.
      - exact L.
      - rewrite Rabs_pos_eq in B' by exact Ns. exact B'. }
    destruct (sqrt_enclosed s (bpow k) (bpow (j + 1)) Fs Ns
                (format_bpow k ltac:(lia)) F1) as [_ [Lq' _]];
      [rewrite <- bpow_double, <- E2; lra|exact L1|exact Lq'].
  - intros Hpos.
    assert (Spos : 0 < FR s).
    { destruct (Rle_lt_or_eq_dec _ _ Ns) as [G|G]; [exact G|].
      destruct (sqrt_enclosed s 0 0 Fs Ns format_0 format_0) as [_ [_ Z0]];
        [lra|pose proof (bpow_pos 1024); lra|lra]. }
    pose proof (positive_least s Fs Spos) as Ls.
    destruct (sqrt_enclosed s (bpow (-537)) (bpow (j + 1)) Fs Ns
                (format_bpow (-537) ltac:(lia)) F1) as [_ [Lq' _]];
      [|exact L1|exact Lq'].
    rewrite <- (bpow_double (-537)), <- E2. change (2 * -537)%Z with (-1074)%Z.
    lra.
Qed.

(** An offset is at most twice the distance, unless it is tiny. *)
Lemma offset_vs_norm (a b : float) (j : Z) :
  bounded (bpow j) a -> bounded (bpow j) b -> (0 <= j <= 500)%Z ->
  (Rabs (FR a) <= 2 * FR (Py.norm a b) \/ Rabs (FR a) < bpow (-500)) /\
  (Rabs (FR b) <= 2 * FR (Py.norm a b) \/ Rabs (FR b) < bpow (-500)).
Proof.
  intros Ha Hb Hj.
  destruct (norm_spec a b j Ha Hb Hj) as (_ & _ & Lk & _).
  assert (G : forall c, finite c ->
              (forall k, (-537 <= k)%Z -> bpow k <= Rabs (FR c) ->
                         bpow k <= FR (Py.norm a b)) ->
              Rabs (FR c) <= 2 * FR (Py.norm a b) \/
              Rabs (FR c) < bpow (-500)).
  { intros c Fc Hc.
    destruct (Req_dec (FR c) 0) as [E|E].
    - right. rewrite E, Rabs_R0. apply bpow_pos.
    - destruct (binade c Fc E) as (k & Hk & [L U]).
      destruct (Z_lt_le_dec k (-500)) as [G|G].
      + right. apply Rlt_le_trans with (bpow (k + 1)); [exact U|].
        apply bpow_le. lia.
      + left. specialize (Hc k ltac:(lia) L). rewrite bpow_S in U. lra. }
  split; apply G.
  - exact (bounded_finite _ _ Ha).
  - intros k Hk H. apply Lk; auto.
  - exact (bounded_finite _ _ Hb).
  - intros k Hk H. apply Lk; auto.
Qed.

(** An offset divided by a distance that is not zero. *)
Lemma ratio_bounded (a b : float) (j : Z) :
  bounded (bpow j) a -> bounded (bpow j) b -> (0 <= j <= 500)%Z ->
  0 < FR (Py.norm a b) ->
  bounded (bpow 37) (a / Py.norm a b)%float /\
  bounded (bpow 37) (b / Py.norm a b)%float.
Proof.
  intros Ha Hb Hj Hpos.
  destruct (norm_spec a b j Ha Hb Hj) as (Fn & [N0 _] & _ & Ln).
  specialize (Ln Hpos).
  destruct (offset_vs_norm a b j Ha Hb Hj) as [Oa Ob].
  assert (G : forall c, finite c ->
              Rabs (FR c) <= 2 * FR (Py.norm a b) \/
              Rabs (FR c) < bpow (-500) ->
              bounded (bpow 37) (c / Py.norm a b)%float).
  { intros c Fc [H|H].
    - apply (bounded_mono 1); [|lia].
      apply (enclosed_bounded _ _ _
               (div_enclosed _ _ Fc Fn ltac:(lra))).
      + apply format_bpow. lia.
      + unfold Rdiv. rewrite Rabs_mult, Rabs_inv, bpow_1.
        rewrite (Rabs_pos_eq (FR (Py.norm a b))) by lra.
        apply (Rmult_le_reg_r (FR (Py.norm a b))); [lra|].
        rewrite Rmult_assoc, Rinv_l, Rmult_1_r by lra. exact H.
      + apply bpow_lt. lia.
    - apply (div_bounded (-500) (-537)); try lia.
      + split; [exact Fc|lra].
      + exact Fn.
      + rewrite Rabs_pos_eq by lra. exact Ln. }
  split; apply G; auto; eapply bounded_finite; eassumption.
Qed.

(** ** The velocity of a move *)

Ltac known :=
  match goal with
  | H : bounded (bpow ?j) ?e |- bounded (bpow ?k) ?e =>
      apply (bounded_mono j k e H); lia
  | |- bounded (bpow _) _ => apply below_bounded; vm_compute; reflexivity
  end.

Lemma pairb_mono (j k : Z) (v : float * float) :
  pairb j v -> (j <= k)%Z -> pairb k v.
Proof. intros [H1 H2] L. split; eapply bounded_mono; eassumption. Qed.

Lemma pairb_zero (k : Z) : pairb k (0%float, 0%float).
Proof.
  split; cbn [fst snd]; (split; [exact finite_0|]);
    rewrite FR_0, Rabs_R0; pose proof (bpow_pos k); lra.
Qed.

Lemma vadd_bounded (j k l : Z) (v : float * float) (ax ay : float) :
  pairb j v -> bounded (bpow k) ax -> bounded (bpow k) ay ->
  (j < l)%Z -> (k < l)%Z -> (-1074 <= l < 1024)%Z ->
  pairb l (vadd v ax ay).
Proof.
  intros [H1 H2] Hx Hy Hj Hk Hl. unfold vadd. split; cbn [fst snd];
    eapply add_bounded; eauto.
Qed.

Lemma offsets (us : list Unit) (i j : nat) :
  placed us ->
  bounded (bpow 11) (x (get us i) - x (get us j))%float /\
  bounded (bpow 11) (y (get us i) - y (get us j))%float.
Proof.
  intros P. destruct (P i) as [Xi Yi]. destruct (P j) as [Xj Yj].
  split; eapply sub_bounded; eauto; lia.
Qed.

Lemma ltb_gives_pos (c d : float) :
  finite d -> above (-1074) c = true \/ c = 0%float ->
  (c <? d)%float = true -> 0 < FR d /\ FR c < FR d.
Proof.
  intros Fd Hc H.
  assert (Fc : finite c /\ 0 <= FR c).
  { destruct Hc as [Hc| ->].
    - destruct (above_bound _ _ Hc) as [F L].
      split; [exact F|]. pose proof (bpow_pos (-1074)). lra.
    - split; [exact finite_0|]. rewrite FR_0. lra. }
  destruct Fc as [Fc Nc]. apply (ltb_finite c d Fc Fd) in H. lra.
Qed.

Lemma attraction_bounded (us : list Unit) (self : nat) :
  placed us -> pairb 38 (attraction us self).
Proof.
  intros P. unfold attraction. cbv zeta.
  destruct (target (get us self)) as [tg|]; [|apply pairb_zero].
  destruct (offsets us tg self P) as [Dx Dy].
  set (dx := (x (get us tg) - x (get us self))%float) in *.
  set (dy := (y (get us tg) - y (get us self))%float) in *.
  destruct (norm_spec dx dy 11 Dx Dy ltac:(lia)) as (Fn & _).
  destruct (0 <? Py.norm dx dy)%float eqn:E; [|apply pairb_zero].
  destruct (ltb_gives_pos 0 _ Fn (or_intror eq_refl) E) as [Hpos _].
  destruct (ratio_bounded dx dy 11 Dx Dy ltac:(lia) Hpos) as [Rx Ry].
  split; cbn [fst snd].
  - apply (mul_bounded 38 0); try lia; [|known].
    apply (mul_bounded 37 1); try lia; [exact Rx|known].
  - apply (mul_bounded 38 0); try lia; [|known].
    apply (mul_bounded 37 1); try lia; [exact Ry|known].
Qed.

Lemma above_abs (k : Z) (c : float) :
  above k c = true -> finite c /\ bpow k <= Rabs (FR c).
Proof.
  intros H. destruct (above_bound k c H) as [F L]. split; [exact F|].
  pose proof (bpow_pos k). rewrite Rabs_pos_eq; lra.
Qed.

Ltac least :=
  match goal with
  | |- finite _ => apply (above_abs (-1074)); vm_compute; reflexivity
  | |- bpow ?k <= Rabs (FR _) => apply (above_abs k); vm_compute; reflexivity
  end.

Lemma norm_upper (a b : float) (j : Z) :
  bounded (bpow j) a -> bounded (bpow j) b -> (0 <= j <= 500)%Z ->
  bounded (bpow (j + 1)) (Py.norm a b).
Proof.
  intros Ha Hb Hj. destruct (norm_spec a b j Ha Hb Hj) as (F & [L U] & _).
  split; [exact F|]. now rewrite Rabs_pos_eq.
Qed.

Lemma norm_test (c a b : float) (j : Z) :
  bounded (bpow j) a -> bounded (bpow j) b -> (0 <= j <= 500)%Z ->
  above (-1074) c = true \/ c = 0%float ->
  (c <? Py.norm a b)%float = true ->
  bounded (bpow 37) (a / Py.norm a b)%float /\
  bounded (bpow 37) (b / Py.norm a b)%float.
Proof.
  intros Ha Hb Hj Hc H.
  destruct (norm_spec a b j Ha Hb Hj) as (Fn & _).
  destruct (ltb_gives_pos c _ Fn Hc H) as [Hpos _].
  exact (ratio_bounded a b j Ha Hb Hj Hpos).
Qed.

Lemma pairc_skip (c t : Z) (v : float * float) :
  pairc c t v -> pairc (c + 1) t v.
Proof. intros [H1 H2]. split; eapply counted_mono; eauto; lia. Qed.

Lemma vadd_counted (c t : Z) (acc : float * float) (ax ay : float) :
  pairc c t acc -> bounded (bpow t) ax -> bounded (bpow t) ay ->
  (0 <= c < 2 ^ 53)%Z -> (-1074 <= t <= 900)%Z ->
  pairc (c + 1) t (vadd acc ax ay).
Proof.
  intros [H1 H2] Hx Hy Hc Ht. unfold vadd.
  split; cbn [fst snd]; apply add_counted; auto.
Qed.

Lemma fold_counted {B : Type} (f : float * float -> B -> float * float)
  (l : list B) (t : Z) :
  (forall acc b c, In b l -> (0 <= c < 2 ^ 53)%Z -> pairc c t acc ->
                   pairc (c + 1) t (f acc b)) ->
  forall c acc, (0 <= c)%Z -> (c + Z.of_nat (length l) <= 2 ^ 53)%Z ->
    pairc c t acc -> pairc (c + Z.of_nat (length l)) t (fold_left f l acc).
Proof.
  induction l as [|b l IH]; intros Hf c acc Hc Hn Hacc.
  - cbn [fold_left length]. now rewrite Z.add_0_r.
  - cbn [fold_left length] in *.
    replace (c + Z.of_nat (S (length l)))%Z
      with ((c + 1) + Z.of_nat (length l))%Z by lia.
    apply IH; try lia.
    + intros acc' b' c' Hb. apply Hf. now right.
    + apply Hf; [now left|lia|exact Hacc].
Qed.

Lemma pairc_bounded (c t : Z) (v : float * float) :
  pairc c t v -> (c <= 2 ^ 53)%Z -> pairb (t + 53) v.
Proof. intros [H1 H2] Hc. split; eapply counted_bounded; eauto. Qed.

Lemma pairb_counted (t : Z) (v : float * float) : pairb t v -> pairc 1 t v.
Proof. intros [H1 H2]. split; now apply bounded_counted. Qed.

Lemma pairc_zero (t : Z) : pairc 0 t (0%float, 0%float).
Proof.
  split; cbn [fst snd]; (split; [exact finite_0|]);
    rewrite FR_0, Rabs_R0; lra.
Qed.

Lemma repulsion_bounded (us : list Unit) (self : nat)
  (threats : list (nat * float)) (v : float * float) :
  placed us -> pairb 45 v ->
  (forall td, In td threats ->
     snd td = Py.norm (x (get us self) - x (get us (fst td)))
                      (y (get us self) - y (get us (fst td)))) ->
  (Z.of_nat (length threats) < 2 ^ 53)%Z ->
  pairb 98 (repulsion us self threats v).
Proof.
  intros P Hv Hd Hn. unfold repulsion. cbv zeta.
  apply (pairc_bounded (1 + Z.of_nat (length threats)) 45); [|lia].
  apply fold_counted; try lia; [|now apply pairb_counted].
  intros acc td c Hin Hc Hacc. rewrite (Hd td Hin).
  destruct (offsets us self (fst td) P) as [Dx Dy].
  set (dx := (x (get us self) - x (get us (fst td)))%float) in *.
  set (dy := (y (get us self) - y (get us (fst td)))%float) in *.
  destruct (0 <? Py.norm dx dy)%float eqn:E; [|now apply pairc_skip].
  destruct (norm_test 0 dx dy 11 Dx Dy ltac:(lia) (or_intror eq_refl) E)
    as [Rx Ry].
  pose proof (norm_upper dx dy 11 Dx Dy ltac:(lia)) as Nu.
  assert (S : bounded (bpow 8)
                (REPULSION_FACTOR
                 * (1 - Py.norm dx dy / REPULSION_RADIUS))%float).
  { apply (mul_bounded 2 6); try lia; [known|].
    apply (sub_bounded 0 5); try lia; [known|].
    apply (div_bounded 12 7); try lia; [exact Nu|least|least]. }
  apply vadd_counted; try lia; try exact Hacc.
  - apply (mul_bounded 37 8); try lia; assumption.
  - apply (mul_bounded 37 8); try lia; assumption.
Qed.

Lemma separation_bounded (us : list Unit) (self : nat) (nb : list nat) :
  placed us -> (Z.of_nat (length nb) < 2 ^ 53)%Z ->
  pairb 99 (fst (separation us self nb)).
Proof.
  intros P Hn. unfold separation. cbv zeta.
  match goal with |- context [fold_left ?f _ _] => set (F := f) end.
  assert (G : forall l c st, (0 <= c)%Z ->
              (c + Z.of_nat (length l) <= 2 ^ 53)%Z -> pairc c 46 (fst st) ->
              pairc (c + Z.of_nat (length l)) 46 (fst (fold_left F l st))).
  { induction l as [|u l IH]; intros c st Hc Hl Hst.
    - cbn [fold_left length]. now rewrite Z.add_0_r.
    - cbn [fold_left length] in *.
      replace (c + Z.of_nat (S (length l)))%Z
        with ((c + 1) + Z.of_nat (length l))%Z by lia.
      apply IH; try lia.
      destruct st as [[sep_x sep_y] sep_count]. unfold F. cbn [fst] in Hst.
      destruct (offsets us self u P) as [Dx Dy].
      set (dx := (x (get us self) - x (get us u))%float) in *.
      set (dy := (y (get us self) - y (get us u))%float) in *.
      destruct ((Py.norm dx dy <? GROUP_MIN_DISTANCE)%float
                && (0 <? Py.norm dx dy)%float) eqn:E;
        [|now apply pairc_skip].
      apply andb_prop in E. destruct E as [_ E].
      destruct (norm_test 0 dx dy 11 Dx Dy ltac:(lia) (or_intror eq_refl) E)
        as [Rx Ry].
      pose proof (norm_upper dx dy 11 Dx Dy ltac:(lia)) as Nu.
      assert (S : bounded (bpow 9)
                    (1.0 - Py.norm dx dy / GROUP_MIN_DISTANCE)%float).
      { apply (sub_bounded 0 8); try lia; [known|].
        apply (div_bounded 12 4); try lia; [exact Nu|least|least]. }
      cbn [fst].
      apply (vadd_counted c 46 (sep_x, sep_y)); try lia; try exact Hst.
      + apply (mul_bounded 37 9); try lia; assumption.
      + apply (mul_bounded 37 9); try lia; assumption. }
  apply (pairc_bounded (0 + Z.of_nat (length nb)) 46); [|lia].
  apply G; try lia. apply pairc_zero.
Qed.

Lemma map_bounded (us : list Unit) (f : Unit -> float) (k : Z) (nb : list nat) :
  (forall j, bounded (bpow k) (f (get us j))) ->
  Forall (bounded (bpow k)) (map (fun u => f (get us u)) nb).
Proof.
  intros H. apply Forall_forall. intros z Hz.
  apply in_map_iff in Hz. destruct Hz as (u & <- & _). apply H.
Qed.

Lemma cohesion_bounded (us : list Unit) (self : nat) (nb : list nat)
  (v : float * float) (j : Z) :
  placed us -> nb <> [] -> (Z.of_nat (length nb) < 2 ^ 53)%Z ->
  pairb j v -> (37 <= j < 1000)%Z ->
  pairb (j + 1) (cohesion us self nb v).
Proof.
  intros P Hne Hn Hv Hj. unfold cohesion. cbv zeta.
  assert (Cx : bounded (bpow 10)
                 (Py.sum (map (fun u => x (get us u)) nb)
                  / Py.float_of_nat (length nb))%float).
  { rewrite <- (length_map (fun u => x (get us u)) nb).
    apply mean_bounded; rewrite ?length_map; try lia.
    - apply (map_bounded us x). intros i. apply P.
    - destruct nb; [contradiction|discriminate]. }
  assert (Cy : bounded (bpow 10)
                 (Py.sum (map (fun u => y (get us u)) nb)
                  / Py.float_of_nat (length nb))%float).
  { rewrite <- (length_map (fun u => y (get us u)) nb).
    apply mean_bounded; rewrite ?length_map; try lia.
    - apply (map_bounded us y). intros i. apply P.
    - destruct nb; [contradiction|discriminate]. }
  set (center_x := (Py.sum _ / _)%float) in Cx |- *.
  set (center_y := (Py.sum _ / _)%float) in Cy |- *.
  destruct (negb _ || negb _); [|(apply (pairb_mono j); [assumption|lia])].
  destruct (P self) as [Xs Ys].
  assert (Dx : bounded (bpow 11) (center_x - x (get us self))%float)
    by (eapply sub_bounded; eauto; lia).
  assert (Dy : bounded (bpow 11) (center_y - y (get us self))%float)
    by (eapply sub_bounded; eauto; lia).
  set (dx := (center_x - x (get us self))%float) in *.
  set (dy := (center_y - y (get us self))%float) in *.
  destruct (GROUP_MIN_DISTANCE <? Py.norm dx dy)%float eqn:E;
    [|(apply (pairb_mono j); [assumption|lia])].
  destruct (norm_test GROUP_MIN_DISTANCE dx dy 11 Dx Dy ltac:(lia)
              (or_introl eq_refl) E) as [Rx Ry].
  apply (vadd_bounded j 37); try lia; try assumption.
  - apply (mul_bounded 37 0); try lia; [exact Rx|known].
  - apply (mul_bounded 37 0); try lia; [exact Ry|known].
Qed.

Lemma alignment_bounded (us : list Unit) (nb : list nat) :
  paced us -> nb <> [] -> (Z.of_nat (length nb) < 2 ^ 53)%Z ->
  pairb 2 (alignment us nb).
Proof.
  intros P Hne Hn. unfold alignment. cbv zeta. split; cbn [fst snd].
  - apply (mul_bounded 2 0); try lia; [|known].
    rewrite <- (length_map (fun u => vx (get us u)) nb).
    apply mean_bounded; rewrite ?length_map; try lia.
    + apply (map_bounded us vx). intros i. apply P.
    + destruct nb; [contradiction|discriminate].
  - apply (mul_bounded 2 0); try lia; [|known].
    rewrite <- (length_map (fun u => vy (get us u)) nb).
    apply mean_bounded; rewrite ?length_map; try lia.
    + apply (map_bounded us vy). intros i. apply P.
    + destruct nb; [contradiction|discriminate].
Qed.

Lemma query_by_type_length (us : list Unit) (st : SpatialTree) (self : nat)
  (r : float) (t : Z) :
  (length (query_by_type us st self r t) <= length (tree st))%nat.
Proof.
  unfold query_by_type, query_radius, Py.query_ball_point. cbv zeta.
  eapply Nat.le_trans; [apply filter_length_le|].
  eapply Nat.le_trans; [apply filter_length_le|].
  eapply Nat.le_trans; [apply filter_length_le|].
  now rewrite length_seq.
Qed.

Lemma flocking_bounded (us : list Unit) (st : SpatialTree) (self : nat)
  (v : float * float) :
  placed us -> paced us -> (Z.of_nat (length (tree st)) < 2 ^ 53)%Z ->
  pairb 98 v -> pairb 102 (flocking us st self v).
Proof.
  intros P V Hn Hv. unfold flocking.
  pose proof (query_by_type_length us st self GROUP_RADIUS
                (unit_type (get us self))) as Ln.
  fold (find_same_type_neighbors us st self GROUP_RADIUS) in Ln.
  destruct (find_same_type_neighbors us st self GROUP_RADIUS) as [|u nb] eqn:E;
    [(apply (pairb_mono 98); [assumption|lia])|].
  set (l := u :: nb) in *.
  assert (Hne : l <> []) by discriminate.
  assert (Hl : (Z.of_nat (length l) < 2 ^ 53)%Z) by lia.
  pose proof (separation_bounded us self l P Hl) as [Sx Sy].
  destruct (separation us self l) as [[sep_x sep_y] sep_count].
  cbn [fst snd] in Sx, Sy.
  assert (H1 : pairb 100
                 (if (0 <? sep_count)%nat
                  then vadd v (sep_x * GROUP_SEPARATION)%float
                              (sep_y * GROUP_SEPARATION)%float
                  else v)).
  { destruct (0 <? sep_count)%nat; [|(apply (pairb_mono 98); [assumption|lia])].
    apply (vadd_bounded 98 99); try lia; try assumption.
    - apply (mul_bounded 99 0); try lia; [exact Sx|known].
    - apply (mul_bounded 99 0); try lia; [exact Sy|known]. }
  pose proof (cohesion_bounded us self l _ 100 P Hne Hl H1 ltac:(lia)) as H2.
  destruct (alignment_bounded us l V Hne Hl) as [Ax Ay].
  apply (vadd_bounded 101 2); try lia; assumption.
Qed.

Lemma center_attraction_bounded (us : list Unit) (self : nat)
  (v : float * float) (j : Z) :
  placed us -> pairb j v -> (41 <= j < 1000)%Z ->
  pairb (j + 1) (center_attraction us self v).
Proof.
  intros P Hv Hj. unfold center_attraction. cbv zeta.
  destruct (P self) as [Xs Ys].
  assert (Dx : bounded (bpow 11) (CENTER_X - x (get us self))%float)
    by (apply (sub_bounded 10 10); try lia; [known|exact Xs]).
  assert (Dy : bounded (bpow 11) (CENTER_Y - y (get us self))%float)
    by (apply (sub_bounded 10 10); try lia; [known|exact Ys]).
  set (dx := (CENTER_X - x (get us self))%float) in *.
  set (dy := (CENTER_Y - y (get us self))%float) in *.
  destruct (WIDTH / 4 <? Py.norm dx dy)%float;
    [|(apply (pairb_mono j); [assumption|lia])].
  destruct (0 <? Py.norm dx dy)%float eqn:E;
    [|(apply (pairb_mono j); [assumption|lia])].
  destruct (norm_test 0 dx dy 11 Dx Dy ltac:(lia) (or_intror eq_refl) E)
    as [Rx Ry].
  pose proof (norm_upper dx dy 11 Dx Dy ltac:(lia)) as Nu.
  assert (S : bounded (bpow 4)
                (CENTER_FORCE * (Py.norm dx dy / (WIDTH / 2)))%float).
  { apply (mul_bounded 0 4); try lia; [known|].
    apply (div_bounded 12 8); try lia; [exact Nu|least|least]. }
  apply (vadd_bounded j 41); try lia; try assumption.
  - apply (mul_bounded 37 4); try lia; assumption.
  - apply (mul_bounded 37 4); try lia; assumption.
Qed.

Lemma global_separation_bounded (us : list Unit) (self : nat)
  (v : float * float) (j : Z) :
  placed us -> (Z.of_nat (length us) < 2 ^ 53)%Z ->
  pairb j v -> (105 <= j < 1000)%Z ->
  pairb (j + 1) (global_separation us self v).
Proof.
  intros P Hn Hv Hj. unfold global_separation. cbv zeta.
  match goal with |- context [fold_left ?f ?l ?a] =>
    assert (S : pairb 105 (fold_left f l a)) end.
  { apply (pairc_bounded (0 + Z.of_nat (length (seq 0 (length us)))) 52);
      [|rewrite length_seq; lia].
    apply fold_counted; rewrite ?length_seq; try lia; [|apply pairc_zero].
    intros sep other c _ Hc Hsep.
    destruct (Nat.eqb other self); [now apply pairc_skip|].
    destruct (offsets us self other P) as [Dx Dy].
    set (dx := (x (get us self) - x (get us other))%float) in *.
    set (dy := (y (get us self) - y (get us other))%float) in *.
    destruct ((Py.norm dx dy <? MIN_DISTANCE / 1.05)%float
              && (0 <? Py.norm dx dy)%float) eqn:E;
      [|now apply pairc_skip].
    apply andb_prop in E. destruct E as [_ E].
    destruct (norm_test 0 dx dy 11 Dx Dy ltac:(lia) (or_intror eq_refl) E)
      as [Rx Ry].
    pose proof (norm_upper dx dy 11 Dx Dy ltac:(lia)) as Nu.
    assert (F : bounded (bpow 15)
                  (20.0 * (MIN_DISTANCE - Py.norm dx dy)
                   / MIN_DISTANCE)%float).
    { apply (div_bounded 18 3); try lia; [|least|least].
      apply (mul_bounded 5 13); try lia; [known|].
      apply (sub_bounded 4 12); try lia; [known|exact Nu]. }
    apply vadd_counted; try lia; try exact Hsep.
    - apply (mul_bounded 37 15); try lia; assumption.
    - apply (mul_bounded 37 15); try lia; assumption. }
  destruct S as [Sx Sy].
  apply (vadd_bounded j 105); try lia; assumption.
Qed.

Lemma div_by_larger (c d : float) :
  finite c -> finite d -> 0 < FR d -> Rabs (FR c) <= 2 * FR d ->
  bounded (bpow 1) (c / d)%float.
Proof.
  intros Fc Fd Hpos H.
  apply (enclosed_bounded _ _ _ (div_enclosed _ _ Fc Fd ltac:(lra))).
  - apply format_bpow. lia.
  - unfold Rdiv. rewrite Rabs_mult, Rabs_inv, bpow_1.
    rewrite (Rabs_pos_eq (FR d)) by lra.
    apply (Rmult_le_reg_r (FR d)); [lra|].
    rewrite Rmult_assoc, Rinv_l, Rmult_1_r by lra. exact H.
  - apply bpow_lt. lia.
Qed.

(** After normalization a velocity has components of magnitude at most
    twice [UNIT_SPEED]. *)
Lemma normalize_bounded (v : float * float) (j : Z) :
  pairb j v -> (0 <= j <= 500)%Z -> pairb 2 (normalize v).
Proof.
  intros [Hx Hy] Hj. unfold normalize. cbv zeta.
  destruct (norm_spec _ _ j Hx Hy Hj) as (Fn & [N0 _] & _).
  destruct (offset_vs_norm _ _ j Hx Hy Hj) as [Ox Oy].
  set (speed := Py.norm (fst v) (snd v)) in *.
  assert (U1 : finite UNIT_SPEED /\ bpow 1 <= FR UNIT_SPEED)
    by (apply above_bound; vm_compute; reflexivity).
  assert (U2 : bounded (bpow 1) UNIT_SPEED) by known.
  destruct U1 as [Fu Lu]. destruct U2 as [_ Uu].
  rewrite Rabs_pos_eq in Uu by (pose proof (bpow_pos 1); lra).
  rewrite bpow_1 in *.
  destruct (UNIT_SPEED <? speed)%float eqn:E.
  - apply (ltb_finite _ _ Fu Fn) in E.
    assert (G : forall c, bounded (bpow j) c ->
                Rabs (FR c) <= 2 * FR speed \/ Rabs (FR c) < bpow (-500) ->
                bounded (bpow 2) (c / speed * UNIT_SPEED)%float).
    { intros c [Fc _] Hc. apply (mul_bounded 1 1); try lia; [|known].
      destruct Hc as [Hc|Hc].
      - apply div_by_larger; auto. lra.
      - apply (bounded_mono (-501)); [|lia].
        apply (div_bounded (-500) 1); try lia.
        + split; [exact Fc|lra].
        + exact Fn.
        + rewrite bpow_1, Rabs_pos_eq by lra. lra. }
    split; cbn [fst snd]; apply G; assumption.
  - assert (S2 : FR speed <= 2).
    { destruct (Rle_lt_dec (FR speed) 2) as [L|L]; [exact L|].
      assert (K : (UNIT_SPEED <? speed)%float = true)
        by (apply (ltb_finite _ _ Fu Fn); lra).
      congruence. }
    assert (G : forall c, bounded (bpow j) c ->
                Rabs (FR c) <= 2 * FR speed \/ Rabs (FR c) < bpow (-500) ->
                bounded (bpow 2) c).
    { intros c [Fc _] Hc. split; [exact Fc|].
      replace (bpow 2) with 4 by (unfold bpow, powerRZ; simpl; lra).
      destruct Hc as [Hc|Hc]; [lra|].
      pose proof (bpow_le (-500) 0 ltac:(lia)). rewrite bpow_0 in H. lra. }
    split; apply G; assumption.
Qed.

Lemma unit_draw_bounded (r : float) :
  ((0 <=? r)%float && (r <? 1)%float) = true -> bounded (bpow 0) r.
Proof.
  intros H. apply andb_prop in H. destruct H as [H0 H1].
  assert (F : finite r).
  { rewrite leb_spec in H0. rewrite ltb_spec in H1. unfold finite.
    destruct (Prim2SF r) as [s|[|]| |s m e]; try reflexivity;
      try discriminate. }
  split; [exact F|].
  apply (leb_finite _ _ finite_0 F) in H0. rewrite FR_0 in H0.
  assert (F1 : bounded (bpow 0) 1%float) by known.
  destruct F1 as [F1 B1].
  apply (ltb_finite _ _ F F1) in H1.
  rewrite Rabs_pos_eq by exact H0.
  pose proof (Rle_abs (FR 1%float)). lra.
Qed.

(** ** A move *)

Lemma within_bounded (c : float) :
  within UNIT_RADIUS (WIDTH - UNIT_RADIUS) c = true -> bounded (bpow 10) c.
Proof.
  unfold within. intros H. apply andb_prop in H. destruct H as [H1 H2].
  assert (Flo : finite UNIT_RADIUS /\ bpow 0 <= FR UNIT_RADIUS)
    by (apply above_bound; vm_compute; reflexivity).
  assert (Fhi : bounded (bpow 10) (WIDTH - UNIT_RADIUS)%float) by known.
  destruct Flo as [Flo Llo]. destruct Fhi as [Fhi Uhi].
  destruct (between_finite _ _ c Flo Fhi H1 H2) as [Fc [L U]].
  split; [exact Fc|]. pose proof (bpow_pos 0). pose proof (Rle_abs (FR (WIDTH - UNIT_RADIUS)%float)).
  rewrite Rabs_pos_eq; lra.
Qed.

Lemma in_bounds_bounded (u : Unit) :
  in_bounds u = true ->
  bounded (bpow 10) (x u) /\ bounded (bpow 10) (y u).
Proof.
  unfold in_bounds. intros H. apply andb_prop in H. destruct H as [H1 H2].
  split; apply within_bounded; assumption.
Qed.

Lemma slow_bounded (u : Unit) :
  slow u = true <->
  bounded (bpow 2) (vx u) /\ bounded (bpow 2) (vy u).
Proof.
  assert (F : finite (2 * UNIT_SPEED)%float /\ bpow 2 <= FR (2 * UNIT_SPEED)%float)
    by (apply above_bound; vm_compute; reflexivity).
  assert (B : bounded (bpow 2) (2 * UNIT_SPEED)%float) by known.
  destruct F as [F L]. destruct B as [_ B].
  pose proof (Rle_abs (FR (2 * UNIT_SPEED)%float)) as A.
  assert (E : FR (2 * UNIT_SPEED)%float = bpow 2) by lra.
  unfold slow. split.
  - intros H. apply andb_prop in H. destruct H as [H1 H2].
    rewrite <- E. split; apply abs_leb_bounded; assumption.
  - intros [H1 H2]. rewrite <- E in H1, H2.
    apply andb_true_intro. split; apply bounded_abs_leb; assumption.
Qed.

Lemma get_beyond (us : list Unit) (j : nat) :
  (length us <= j)%nat -> get us j = Unit_init 0 0 0.
Proof. intros H. unfold get. now apply nth_overflow. Qed.

Lemma bounded_0 (k : Z) : bounded (bpow k) 0%float.
Proof.
  split; [exact finite_0|]. rewrite FR_0, Rabs_R0.
  pose proof (bpow_pos k). lra.
Qed.

Lemma tame_placed (us : list Unit) :
  (forall j, (j < length us)%nat -> in_bounds (get us j) = true) ->
  placed us.
Proof.
  intros H j. destruct (Nat.lt_ge_cases j (length us)) as [L|L].
  - apply in_bounds_bounded. now apply H.
  - rewrite get_beyond by exact L. split; apply bounded_0.
Qed.

Lemma tame_paced (us : list Unit) :
  (forall j, (j < length us)%nat -> slow (get us j) = true) ->
  paced us.
Proof.
  intros H j. destruct (Nat.lt_ge_cases j (length us)) as [L|L].
  - apply slow_bounded. now apply H.
  - rewrite get_beyond by exact L. split; apply bounded_0.
Qed.

(** The velocity a move ends with has components of magnitude at most
    [2^2], and the position it writes is the old one plus that velocity,
    after the boundary handling. *)
Lemma move_towards_target_velocity (us : list Unit) (st : SpatialTree)
  (self : nat) (g : Py.Rng) :
  placed us -> paced us -> (Z.of_nat (length us) < 2 ^ 53)%Z ->
  (Z.of_nat (length (tree st)) < 2 ^ 53)%Z -> unit_draws g ->
  exists v, pairb 2 v /\
    fst (move_towards_target us st self g)
    = upd self
        (set_motion
           (fst (bounce (x (get us self) + fst v) (fst v)
                   UNIT_RADIUS (WIDTH - UNIT_RADIUS)))
           (fst (bounce (y (get us self) + snd v) (snd v)
                   UNIT_RADIUS (HEIGHT - UNIT_RADIUS)))
           (snd (bounce (x (get us self) + fst v) (fst v)
                   UNIT_RADIUS (WIDTH - UNIT_RADIUS)))
           (snd (bounce (y (get us self) + snd v) (snd v)
                   UNIT_RADIUS (HEIGHT - UNIT_RADIUS))))
        us.
Proof.
  intros P V Hn Ht Hg.
  unfold move_towards_target, Py.random. cbv zeta. cbn [fst snd].
  eexists. split; cycle 1; [reflexivity|].
  apply (normalize_bounded _ 106); [|lia].
  apply (global_separation_bounded us self _ 105 P Hn); [|lia].
  assert (R1 : bounded (bpow 1)
                 ((Py.floats g (Py.cursor g) - 0.5) * RANDOM_MOVEMENT)%float).
  { apply (mul_bounded 1 0); try lia; [|known].
    apply (sub_bounded 0 0); try lia; [|known].
    apply unit_draw_bounded, Hg. }
  assert (R2 : bounded (bpow 1)
                 ((Py.floats (Py.advance g) (Py.cursor (Py.advance g)) - 0.5)
                  * RANDOM_MOVEMENT)%float).
  { apply (mul_bounded 1 0); try lia; [|known].
    apply (sub_bounded 0 0); try lia; [|known].
    apply unit_draw_bounded. cbn [Py.advance Py.floats]. apply Hg. }
  assert (C : pairb 103
                (center_attraction us self
                   (flocking us st self
                      (repulsion us self (find_threats us st self)
                         (attraction us self))))).
  { apply (center_attraction_bounded us self _ 102 P); [|lia].
    apply flocking_bounded; try assumption.
    apply repulsion_bounded; try assumption.
    - apply (pairb_mono 38); [|lia]. now apply attraction_bounded.
    - intros td Hin. unfold find_threats in Hin. cbv zeta in Hin.
      apply in_map_iff in Hin. destruct Hin as (u & <- & _). reflexivity.
    - unfold find_threats. cbv zeta. rewrite length_map.
      pose proof (query_by_type_length us st self REPULSION_RADIUS
                    ((unit_type (get us self) + 1) mod 3)%Z).
      lia. }
  destruct C as [Cx Cy].
  split; cbn [fst snd].
  - apply (bounded_mono 104); [|lia].
    apply (add_bounded 103 1); try lia; assumption.
  - apply (add_bounded 103 1); try lia; assumption.
Qed.

Lemma bounce_velocity (p w lo hi : float) :
  bounded (bpow 2) w -> bounded (bpow 2) (snd (bounce p w lo hi)).
Proof.
  intros H. unfold bounce.
  destruct (p <? lo)%float; [|destruct (hi <? p)%float]; cbn [snd];
    try exact H; apply (mul_bounded 2 0); try lia; try exact H; known.
Qed.

Lemma bounce_within (p w lo hi : float) :
  (lo <=? hi)%float = true -> finite p ->
  within lo hi (fst (bounce p w lo hi)) = true.
Proof.
  intros Hlh Fp.
  destruct (bounce_kept_within p w lo hi Hlh) as (_ & _ & K).
  apply K. unfold bounce.
  destruct (FloatOrder.leb_true_not_nan _ _ Hlh) as [Nlo Nhi].
  destruct (p <? lo)%float; [|destruct (hi <? p)%float]; cbn [fst];
    try assumption. now apply finite_not_nan.
Qed.

(** A move leaves the unit inside the play area, with a velocity of
    components at most twice [UNIT_SPEED]. *)
Lemma move_towards_target_settles (us : list Unit) (st : SpatialTree)
  (self : nat) (g : Py.Rng) :
  placed us -> paced us -> (Z.of_nat (length us) < 2 ^ 53)%Z ->
  (Z.of_nat (length (tree st)) < 2 ^ 53)%Z -> unit_draws g ->
  (self < length us)%nat ->
  in_bounds (get (fst (move_towards_target us st self g)) self) = true /\
  slow (get (fst (move_towards_target us st self g)) self) = true.
Proof.
  intros P V Hn Ht Hg Hs.
  destruct (move_towards_target_velocity us st self g P V Hn Ht Hg)
    as (v & [Vx Vy] & ->).
  rewrite get_upd_same by exact Hs.
  destruct (P self) as [Xs Ys].
  split.
  - unfold in_bounds. cbn [x y set_motion].
    apply andb_true_intro. split; apply bounce_within; try reflexivity.
    + apply (bounded_finite (bpow 11)).
      apply (add_bounded 10 2); try lia; assumption.
    + apply (bounded_finite (bpow 11)).
      apply (add_bounded 10 2); try lia; assumption.
  - apply slow_bounded. cbn [vx vy set_motion].
    split; apply bounce_velocity; assumption.
Qed.

(** ** A frame and a run *)

Lemma tame_motion (u v : Unit) : motion u = motion v -> tame u = tame v.
Proof.
  unfold motion, tame, in_bounds, slow. intros H. injection H as -> -> -> ->.
  reflexivity.
Qed.

Lemma tame_spec (u : Unit) :
  tame u = true <-> in_bounds u = true /\ slow u = true.
Proof. unfold tame. apply andb_true_iff. Qed.

Lemma settled_map (us vs : list Unit) (g h : Py.Rng) :
  map motion vs = map motion us -> Py.floats h = Py.floats g ->
  settled us g -> settled vs h.
Proof.
  intros Hm Hf (Hn & Hd & Ht).
  assert (L : length vs = length us)
    by (rewrite <- (length_map motion vs), Hm; apply length_map).
  split; [lia|]. split.
  - intros k. rewrite Hf. apply Hd.
  - intros i Hi. rewrite (tame_motion _ (get us i)).
    + apply Ht. lia.
    + now apply get_map.
Qed.

Lemma update_targets_upto_motion (n : nat) (us : list Unit) (g : Py.Rng) :
  map motion (fst (update_targets_upto n us g)) = map motion us /\
  Py.floats (snd (update_targets_upto n us g)) = Py.floats g.
Proof.
  induction n as [|n IH]; [split; reflexivity|].
  rewrite update_targets_upto_S. cbv zeta. cbn [fst snd].
  destruct IH as [Hm Hf]. split.
  - rewrite upd_keeps by reflexivity. exact Hm.
  - destruct (find_target_tape (fst (update_targets_upto n us g)) n
                (snd (update_targets_upto n us g))) as (F & _).
    cbv zeta in F. now rewrite F.
Qed.

Lemma apply_new_types_motion (l : list (nat * Z)) (vs : list Unit) :
  map motion (apply_new_types l vs) = map motion vs.
Proof.
  revert vs; induction l as [|[i t] l IH]; intros vs; cbn; [reflexivity|].
  unfold apply_new_types in IH. rewrite IH.
  apply upd_keeps. reflexivity.
Qed.

Lemma collect_upto_floats (n : nat) (us : list Unit) (st : SpatialTree)
  (g : Py.Rng) :
  Py.floats (snd (collect_upto n us st g)) = Py.floats g.
Proof.
  induction n as [|n IH]; [reflexivity|].
  rewrite collect_upto_S. cbv zeta.
  assert (F : Py.floats (snd (check_collision us st n
                                (snd (collect_upto n us st g))))
              = Py.floats g).
  { rewrite check_collision_draws.
    destruct (draws_tape
                (predator_type (unit_type (get us n)))
                (length (qualifying us st n))
                (snd (collect_upto n us st g))) as (F & _).
    cbv zeta in F. now rewrite F. }
  destruct (fst (check_collision us st n _)); cbn [snd]; exact F.
Qed.

Lemma update_positions_upto_settles (n : nat) (us : list Unit)
  (st : SpatialTree) (g : Py.Rng) :
  settled us g -> (length (tree st) <= length us)%nat ->
  (n <= length us)%nat ->
  settled (fst (update_positions_upto n us st g))
          (snd (update_positions_upto n us st g)).
Proof.
  intros Hs Ht. induction n as [|n IH]; intros Hn; [exact Hs|].
  specialize (IH ltac:(lia)). rewrite update_positions_upto_S.
  set (live := fst (update_positions_upto n us st g)) in *.
  set (g_n := snd (update_positions_upto n us st g)) in *.
  assert (L : length live = length us)
    by apply update_positions_upto_length.
  destruct IH as (In & Id & It).
  assert (P : placed live).
  { apply tame_placed. intros j Hj. now apply tame_spec, It. }
  assert (V : paced live).
  { apply tame_paced. intros j Hj. now apply tame_spec, It. }
  split; [rewrite move_towards_target_length; exact In|]. split.
  - rewrite move_towards_target_tape. exact Id.
  - rewrite move_towards_target_length. intros i Hi.
    destruct (Nat.eq_dec n i) as [<-|Hne].
    + apply tame_spec.
      apply move_towards_target_settles; try assumption; lia.
    + rewrite move_towards_target_other by exact Hne. now apply It.
Qed.

(** A frame keeps the units inside the play area. *)
Lemma frame_settles (s s' : State) :
  settled (units s) (rng s) -> frame s = inr s' ->
  settled (units s') (rng s').
Proof.
  intros Hs Hf. apply frame_phases in Hf.
  destruct Hf as (st & Hst & Hf). cbv zeta in Hf.
  destruct Hf as (Hu & _ & Hg & _).
  apply SpatialTree_init_tree in Hst. destruct Hst as [Htree _].
  set (r1 := update_targets (units s) (rng s)) in *.
  set (r2 := update_positions (fst r1) st (snd r1)) in *.
  destruct (update_targets_upto_motion (length (units s)) (units s) (rng s))
    as [M1 F1].
  change (update_targets_upto (length (units s)) (units s) (rng s))
    with r1 in M1, F1.
  assert (S1 : settled (fst r1) (snd r1))
    by (apply (settled_map (units s) _ (rng s)); assumption).
  assert (L1 : length (fst r1) = length (units s))
    by (rewrite <- (length_map motion (fst r1)), M1; apply length_map).
  assert (S2 : settled (fst r2) (snd r2)).
  { unfold r2. rewrite update_positions_eq.
    apply update_positions_upto_settles; [exact S1| |lia].
    rewrite Htree, length_map. lia. }
  rewrite Hu, Hg.
  apply (settled_map (fst r2) _ (snd r2)); [| |exact S2].
  - apply apply_new_types_motion.
  - apply collect_upto_floats.
Qed.

Lemma loop_settles (fuel : nat) (events : nat -> list Py.Event)
  (s s' : State) :
  settled (units s) (rng s) -> loop fuel events s = inr s' ->
  settled (units s') (rng s').
Proof.
  revert s; induction fuel as [|fuel IH]; intros s Hs; cbn [loop].
  - intros H. injection H as <-. exact Hs.
  - destruct (running s); [|intros H; injection H as <-; exact Hs].
    cbv zeta.
    destruct (frame _) as [e|s1] eqn:F; cbn [Py.bind]; [discriminate|].
    intros H. apply (IH s1); [|exact H].
    apply (frame_settles _ s1) in F; [exact F|exact Hs].
Qed.

Lemma initial_unit_tame (samples : nat -> float * float) (a b : Z) (i : nat) :
  in_bounds (Unit_init 0 (fst (samples i)) (snd (samples i))) = true ->
  tame (initial_unit samples a b i) = true.
Proof.
  intros H. apply tame_spec. split; [exact H|reflexivity].
Qed.

End Magnitude.


